(** * tim2dump: the TIM2 parser and pixel decoder

    A shallow embedding of [tim2_types.h] and [tim2_parser.h/.cpp]:
    the on-disk records, the [std::ifstream] cursor the parser walks, the
    parser itself ([TIM2Parser::loadFile] and its helpers) and the decoder
    ([Picture::decodeImage], [Picture::getClutColors],
    [Picture::getPixelColor]).

    Conventions.
    - Unsigned integers of the source are [Z]; a byte is [Byte.byte] and
      [u8] gives its value.  Index arithmetic is done in [size_t]; the
      products and sums involved are built from 8/16/32-bit header fields
      and stay far below [2^64], so it is written without reduction.  The
      two places where a [size_t] can wrap reduce modulo [2^64]: [tellg]
      on a failed stream gives [-1] to [alignOffset], and [parseUserSpace]
      subtracts two sizes.
    - Host byte order is little-endian (the tool reads the packed structs
      and the 16-bit pixels by reinterpreting raw memory).
    - A read through a raw pointer outside its buffer, and a shift of the
      promoted [int] by 32 bits or more, are undefined in C++: the model
      makes them the outcome [Fault]. *)

From Stdlib Require Import ZArith Lia Strings.Byte.
From stdpp Require Import base numbers list strings option pretty.

Local Open Scope Z_scope.

(** ** Outcomes *)

Inductive outcome (A : Type) : Type :=
  | Ok (a : A)
  | Fault.
Arguments Ok {A} a.
Arguments Fault {A}.

#[export] Instance outcome_ret : MRet outcome := fun A a => Ok a.
#[export] Instance outcome_bind : MBind outcome := fun A B f m =>
  match m with
  | Ok a => f a
  | Fault => Fault
  end.

(** ** Bytes *)

Definition u8 (b : byte) : Z := Z.of_N (Byte.to_N b).

(** [data[i]] on a raw pointer into [data]. *)
Definition byteAt (data : list byte) (i : Z) : outcome Z :=
  if i <? 0 then Fault
  else match data !! Z.to_nat i with
       | Some b => Ok (u8 b)
       | None => Fault
       end.

(** [*reinterpret_cast<const uint16_t*>(&data[i])] on a little-endian host. *)
Definition u16At (data : list byte) (i : Z) : outcome Z :=
  lo ← byteAt data i;
  hi ← byteAt data (i + 1);
  Ok (Z.lor lo (Z.shiftl hi 8)).

(** ** tim2_types.h *)

Inductive PixelFormat : Type :=
  | TIM2_NONE
  | TIM2_RGB16
  | TIM2_RGB24
  | TIM2_RGB32
  | TIM2_IDTEX4
  | TIM2_IDTEX8
  | TIM2_UNKNOWN (raw : Z).

(** [static_cast<PixelFormat>(v)]: the enumeration has underlying type
    [uint8_t], so every byte value is kept; values without an enumerator
    fall to [default:] in every [switch]. *)
Definition toPixelFormat (v : Z) : PixelFormat :=
  if v =? 0 then TIM2_NONE
  else if v =? 1 then TIM2_RGB16
  else if v =? 2 then TIM2_RGB24
  else if v =? 3 then TIM2_RGB32
  else if v =? 4 then TIM2_IDTEX4
  else if v =? 5 then TIM2_IDTEX8
  else TIM2_UNKNOWN v.

Definition isNone (f : PixelFormat) : bool :=
  match f with TIM2_NONE => true | _ => false end.

Record PictureHeader : Type := mkPictureHeader {
  totalSize : Z;
  clutSize : Z;
  imageSize : Z;
  headerSize : Z;
  clutColors : Z;
  pictFormat : Z;
  mipMapTextures : Z;
  clutType : Z;
  imageType : Z;
  imageWidth : Z;
  imageHeight : Z;
  gsTex0 : Z;
  gsTex1 : Z;
  gsTexaFbaPabe : Z;
  gsTexClut : Z
}.

Definition getImagePixelFormat (h : PictureHeader) : PixelFormat :=
  toPixelFormat (imageType h).

Definition getClutPixelFormat (h : PictureHeader) : PixelFormat :=
  toPixelFormat (Z.land (clutType h) 0x3F).

Definition isClutCSM2 (h : PictureHeader) : bool :=
  negb (Z.land (clutType h) 0x80 =? 0).

Definition isClutCompound (h : PictureHeader) : bool :=
  negb (Z.land (clutType h) 0x40 =? 0).

Definition hasClut (h : PictureHeader) : bool :=
  (0 <? clutSize h) && negb (isNone (getClutPixelFormat h)).

Definition hasMipMaps (h : PictureHeader) : bool :=
  1 <? mipMapTextures h.

Record MipMapHeader : Type := mkMipMapHeader {
  gsMiptbp1 : Z;
  gsMiptbp2 : Z;
  sizes : list Z
}.

Record ExtendedHeader : Type := mkExtendedHeader {
  exHeaderId : list byte;
  userSpaceSize : Z;
  userDataSize : Z;
  ext_reserved : Z
}.

Record Color32 : Type := mkColor32 {
  r : Z;
  g : Z;
  b : Z;
  a : Z
}.

(** [Color32() : r(0), g(0), b(0), a(255) {}], which is what [Color32 c{}]
    runs. *)
Definition Color32_default : Color32 := mkColor32 0 0 0 255.

(** [static_cast<uint8_t>] of an unsigned value. *)
Definition to_u8 (v : Z) : Z := v mod 256.

(** [Color16::toColor32]. *)
Definition toColor32 (value : Z) : Color32 :=
  let r := to_u8 (Z.lor (Z.shiftl (Z.land value 0x001F) 3)
                        (Z.shiftr (Z.land value 0x001F) 2)) in
  let g := to_u8 (Z.lor (Z.shiftr (Z.land value 0x03E0) 2)
                        (Z.shiftr (Z.land value 0x03E0) 7)) in
  let b := to_u8 (Z.lor (Z.shiftr (Z.land value 0x7C00) 7)
                        (Z.shiftr (Z.land value 0x7C00) 12)) in
  let a := if Z.land value 0x8000 =? 0 then 0 else 255 in
  mkColor32 r g b a.

Definition getBitsPerPixel (fmt : PixelFormat) : Z :=
  match fmt with
  | TIM2_IDTEX4 => 4
  | TIM2_IDTEX8 => 8
  | TIM2_RGB16 => 16
  | TIM2_RGB24 => 24
  | TIM2_RGB32 => 32
  | _ => 0
  end.

(** ** Picture *)

Record Picture : Type := mkPicture {
  header : PictureHeader;
  mipMapHeader : option MipMapHeader;
  userData : list byte;
  imageData : list byte;
  clutData : list byte;
  extHeader : option ExtendedHeader;
  comment : list byte
}.

(** [header.imageWidth >> level]: the [uint16_t] operand is promoted to
    [int] before shifting, so a count of 32 or more is undefined. *)
Definition shiftRightInt (v level : Z) : outcome Z :=
  if level <? 32 then Ok (Z.shiftr v level) else Fault.

Definition getMipMapWidth (p : Picture) (level : Z) : outcome Z :=
  s ← shiftRightInt (imageWidth (header p)) level;
  Ok (Z.max 1 s).

Definition getMipMapHeight (p : Picture) (level : Z) : outcome Z :=
  s ← shiftRightInt (imageHeight (header p)) level;
  Ok (Z.max 1 s).

(** The loop of [getImageOffset]:
    [for (i = 0; i < mipLevel && i < sizes.size(); ++i) offset += sizes[i]],
    entered at index [i] with [rest] the entries from [i] on. *)
Fixpoint getImageOffset_loop (rest : list Z) (mipLevel i offset : Z) : Z :=
  match rest with
  | [] => offset
  | s :: rest' =>
      if i <? mipLevel
      then getImageOffset_loop rest' mipLevel (i + 1) (offset + s)
      else offset
  end.

Definition getImageOffset (p : Picture) (mipLevel : Z) : Z :=
  match mipMapHeader p with
  | None => 0
  | Some m =>
      if mipLevel =? 0 then 0
      else getImageOffset_loop (sizes m) mipLevel 0 0
  end.

(** The index remap of [getClutColors] for entry [i]. *)
Definition clutIndex (h : PictureHeader) (i : Z) : Z :=
  if negb (isClutCSM2 h) && isClutCompound h then
    let block := i / 32 in
    let localIdx := i mod 32 in
    let localIdx :=
      if (8 <=? localIdx) && (localIdx <? 16) then localIdx + 8
      else if (16 <=? localIdx) && (localIdx <? 24) then localIdx - 8
      else localIdx in
    block * 32 + localIdx
  else i.

(** The [switch (fmt)] of [getClutColors]: the colour stored at [index]. *)
Definition clutEntry (fmt : PixelFormat) (data : list byte) (index : Z)
  : outcome Color32 :=
  match fmt with
  | TIM2_RGB16 =>
      let byteIdx := index * 2 in
      val ← u16At data byteIdx;
      Ok (toColor32 val)
  | TIM2_RGB24 =>
      let byteIdx := index * 3 in
      r ← byteAt data (byteIdx + 0);
      g ← byteAt data (byteIdx + 1);
      b ← byteAt data (byteIdx + 2);
      Ok (mkColor32 r g b 255)
  | TIM2_RGB32 =>
      let byteIdx := index * 4 in
      r ← byteAt data (byteIdx + 0);
      g ← byteAt data (byteIdx + 1);
      b ← byteAt data (byteIdx + 2);
      a ← byteAt data (byteIdx + 3);
      Ok (mkColor32 r g b a)
  | _ => Ok Color32_default
  end.

(** The [for] loop of [getClutColors], with [n] iterations left. *)
Fixpoint getClutColors_loop (p : Picture) (n : nat) (i : Z)
    (colors : list Color32) : outcome (list Color32) :=
  match n with
  | O => Ok colors
  | S n' =>
      let index := clutIndex (header p) i in
      color ← clutEntry (getClutPixelFormat (header p)) (clutData p) index;
      getClutColors_loop p n' (i + 1) (colors ++ [color])
  end.

Definition getClutColors (p : Picture) : outcome (list Color32) :=
  if negb (hasClut (header p)) then Ok []
  else getClutColors_loop p (Z.to_nat (clutColors (header p))) 0 [].

(** [if (colorIdx < colors.size()) result = colors[colorIdx];] *)
Definition lookupColor (colors : list Color32) (colorIdx : Z) : Color32 :=
  match colors !! Z.to_nat colorIdx with
  | Some c => c
  | None => Color32_default
  end.

Definition getPixelColor (p : Picture) (x y mipLevel : Z) : outcome Color32 :=
  let offset := getImageOffset p mipLevel in
  width ← getMipMapWidth p mipLevel;
  let data := fun idx => byteAt (imageData p) (offset + idx) in
  match getImagePixelFormat (header p) with
  | TIM2_RGB32 =>
      let idx := (y * width + x) * 4 in
      r ← data (idx + 0);
      g ← data (idx + 1);
      b ← data (idx + 2);
      a ← data (idx + 3);
      Ok (mkColor32 r g b a)
  | TIM2_RGB24 =>
      let idx := (y * width + x) * 3 in
      r ← data (idx + 0);
      g ← data (idx + 1);
      b ← data (idx + 2);
      Ok (mkColor32 r g b 255)
  | TIM2_RGB16 =>
      let idx := (y * width + x) * 2 in
      val ← u16At (imageData p) (offset + idx);
      Ok (toColor32 val)
  | TIM2_IDTEX8 =>
      if hasClut (header p) then
        let idx := y * width + x in
        colorIdx ← data idx;
        colors ← getClutColors p;
        Ok (lookupColor colors colorIdx)
      else Ok Color32_default
  | TIM2_IDTEX4 =>
      if hasClut (header p) then
        let pixelIdx := y * width + x in
        let byteIdx := pixelIdx / 2 in
        packed ← data byteIdx;
        let colorIdx :=
          if Z.land pixelIdx 1 =? 0 then Z.land packed 0x0F
          else Z.shiftr packed 4 in
        colors ← getClutColors p;
        Ok (lookupColor colors colorIdx)
      else Ok Color32_default
  | _ => Ok Color32_default
  end.

(** The inner loop of [decodeImage] over [x], with [n] iterations left. *)
Fixpoint decodeImage_row (p : Picture) (mipLevel width y : Z) (n : nat)
    (x : Z) (result : list Color32) : outcome (list Color32) :=
  match n with
  | O => Ok result
  | S n' =>
      c ← getPixelColor p x y mipLevel;
      decodeImage_row p mipLevel width y n' (x + 1)
        (<[Z.to_nat (y * width + x) := c]> result)
  end.

(** The outer loop of [decodeImage] over [y], with [m] iterations left. *)
Fixpoint decodeImage_rows (p : Picture) (mipLevel width : Z) (m : nat)
    (y : Z) (result : list Color32) : outcome (list Color32) :=
  match m with
  | O => Ok result
  | S m' =>
      result' ← decodeImage_row p mipLevel width y (Z.to_nat width) 0 result;
      decodeImage_rows p mipLevel width m' (y + 1) result'
  end.

Definition decodeImage (p : Picture) (mipLevel : Z) : outcome (list Color32) :=
  if mipMapTextures (header p) <=? mipLevel then Ok []
  else
    width ← getMipMapWidth p mipLevel;
    height ← getMipMapHeight p mipLevel;
    decodeImage_rows p mipLevel width (Z.to_nat height) 0
      (replicate (Z.to_nat (width * height)) Color32_default).

(** ** std::ifstream

    The input stream as the parser sees it: the file's bytes, the get
    position, and the two state bits the code tests ([!file] is [failbit],
    [file.good()] is neither bit set; [badbit] is never raised by a regular
    file and is left out).  The operations follow the standard's
    unformatted-input rules: a sentry that sees a stream which is not good
    sets [failbit] and the operation does nothing; [read] that meets the end
    before [n] bytes sets [eofbit] and [failbit]; [seekg] clears [eofbit]
    first and may move the position past the end of the file. *)

Module ifstream.

Record t : Type := mk {
  content : list byte;
  pos : Z;
  failbit : bool;
  eofbit : bool
}.

Definition open (bytes : list byte) : t := mk bytes 0 false false.

Definition good (s : t) : bool := negb (failbit s) && negb (eofbit s).

Definition fail (s : t) : bool := failbit s.

Definition remaining (s : t) : list byte :=
  drop (Z.to_nat (pos s)) (content s).

(** [file.read(dst, n)]: the bytes stored into [dst] and the stream after. *)
Definition read (n : Z) (s : t) : list byte * t :=
  if good s then
    let avail := remaining s in
    if n <=? Z.of_nat (length avail)
    then (take (Z.to_nat n) avail, mk (content s) (pos s + n) false false)
    else (avail, mk (content s) (pos s + Z.of_nat (length avail)) true true)
  else ([], mk (content s) (pos s) true (eofbit s)).

(** [file.tellg()]. *)
Definition tellg (s : t) : Z * t :=
  if good s then (pos s, s)
  else (-1, mk (content s) (pos s) true (eofbit s)).

Definition seek_to (target : Z) (s : t) : t :=
  if failbit s then mk (content s) (pos s) true false
  else if target <? 0 then mk (content s) (pos s) true false
  else mk (content s) target false false.

(** [file.seekg(target)] and [file.seekg(target, std::ios::beg)]. *)
Definition seekg (target : Z) (s : t) : t := seek_to target s.

(** [file.seekg(off, std::ios::cur)]. *)
Definition seekg_cur (off : Z) (s : t) : t := seek_to (pos s + off) s.

End ifstream.

Abbreviation ifstream := ifstream.t.

(** ** Object representations *)

#[export] Instance byte_eq_dec : EqDecision byte := Byte.byte_eq_dec.

Definition zero_byte : byte := Byte.x00.

Definition byte_of (v : Z) : byte :=
  default zero_byte (Byte.of_N (Z.to_N (v mod 256))).

(** The value of a little-endian unsigned field. *)
Definition le (bs : list byte) : Z :=
  foldr (fun b acc => u8 b + 256 * acc) 0 bs.

(** The [n] bytes of a little-endian unsigned field holding [v]. *)
Fixpoint le_bytes (n : nat) (v : Z) : list byte :=
  match n with
  | O => []
  | S n' => byte_of v :: le_bytes n' (v / 256)
  end.

Definition field (off len : nat) (raw : list byte) : Z :=
  le (take len (drop off raw)).

(** [file.read(reinterpret_cast<char*>(dst), sizeof dst)] where [dst]
    currently holds the bytes [old]: the bytes that arrive overwrite the
    front of [dst], the rest keeps its previous content. *)
Definition readInto (old : list byte) (file : ifstream)
  : list byte * ifstream :=
  let '(got, file') := ifstream.read (Z.of_nat (length old)) file in
  (got ++ drop (length got) old, file').

(** [file.read] into an [n]-byte unsigned integer that holds [old]. *)
Definition readUInt (n : nat) (old : Z) (file : ifstream) : Z * ifstream :=
  let '(bs, file') := readInto (le_bytes n old) file in
  (le bs, file').

Definition to_size_t (v : Z) : Z := v mod 2 ^ 64.

(** ** File header *)

Definition TIM2_FORMAT_VERSION : Z := 0x04.
Definition TIM2_ALIGN_16 : Z := 0x00.
Definition TIM2_ALIGN_128 : Z := 0x01.

Record FileHeader : Type := mkFileHeader {
  fileId : list byte;
  formatVersion : Z;
  formatId : Z;
  pictures : Z;
  reserved : list byte
}.

Definition FileHeader_of_bytes (raw : list byte) : FileHeader :=
  {| fileId := take 4 raw;
     formatVersion := field 4 1 raw;
     formatId := field 5 1 raw;
     pictures := field 6 2 raw;
     reserved := take 8 (drop 8 raw) |}.

Definition FileHeader_bytes (h : FileHeader) : list byte :=
  take 4 (fileId h ++ replicate 4 zero_byte)
  ++ le_bytes 1 (formatVersion h) ++ le_bytes 1 (formatId h)
  ++ le_bytes 2 (pictures h)
  ++ take 8 (reserved h ++ replicate 8 zero_byte).

(** The four characters of the literal "TIM2". *)
Definition TIM2_magic : list byte := [Byte.x54; Byte.x49; Byte.x4d; Byte.x32].

(** [FileHeader::isValid]: [memcmp(fileId, "TIM2", 4) == 0]. *)
Definition isValid (h : FileHeader) : bool :=
  bool_decide (fileId h = TIM2_magic).

Definition getAlignment (h : FileHeader) : Z :=
  if formatId h =? TIM2_ALIGN_128 then 128 else 16.

Definition PictureHeader_of_bytes (raw : list byte) : PictureHeader :=
  {| totalSize := field 0 4 raw;
     clutSize := field 4 4 raw;
     imageSize := field 8 4 raw;
     headerSize := field 12 2 raw;
     clutColors := field 14 2 raw;
     pictFormat := field 16 1 raw;
     mipMapTextures := field 17 1 raw;
     clutType := field 18 1 raw;
     imageType := field 19 1 raw;
     imageWidth := field 20 2 raw;
     imageHeight := field 22 2 raw;
     gsTex0 := field 24 8 raw;
     gsTex1 := field 32 8 raw;
     gsTexaFbaPabe := field 40 4 raw;
     gsTexClut := field 44 4 raw |}.

Definition ExtendedHeader_of_bytes (raw : list byte) : ExtendedHeader :=
  {| exHeaderId := take 4 raw;
     userSpaceSize := field 4 4 raw;
     userDataSize := field 8 4 raw;
     ext_reserved := field 12 4 raw |}.

(** The four bytes of the literal "eXt\0". *)
Definition eXt_magic : list byte := [Byte.x65; Byte.x58; Byte.x74; Byte.x00].

(** [ExtendedHeader::isValid]. *)
Definition ext_isValid (h : ExtendedHeader) : bool :=
  bool_decide (exHeaderId h = eXt_magic).

(** ** TIM2Parser *)

Record TIM2Parser : Type := mkTIM2Parser {
  m_fileHeader : FileHeader;
  m_pictures : list Picture;
  m_valid : bool;
  m_lastError : string
}.

Definition set_lastError (this : TIM2Parser) (msg : string) : TIM2Parser :=
  mkTIM2Parser (m_fileHeader this) (m_pictures this) (m_valid this) msg.

Definition getPictures (this : TIM2Parser) : list Picture := m_pictures this.

Definition getPictureCount (this : TIM2Parser) : nat :=
  length (m_pictures this).

(** [Picture pic;]: the optionals are empty and the vectors and the string
    are empty; the members of the plain [header] are indeterminate until the
    header is read, and stand here as zero bytes. *)
Definition Picture_fresh : Picture :=
  {| header := PictureHeader_of_bytes (replicate 48 zero_byte);
     mipMapHeader := None;
     userData := [];
     imageData := [];
     clutData := [];
     extHeader := None;
     comment := [] |}.

Definition alignOffset (offset alignment : Z) : Z :=
  to_size_t (to_size_t (offset + alignment - 1) / alignment * alignment).

Definition skipAlignment (file : ifstream) (alignment : Z) : ifstream :=
  let '(cur, file) := ifstream.tellg file in
  let currentPos := to_size_t cur in
  let alignedPos := alignOffset currentPos alignment in
  if currentPos <? alignedPos then ifstream.seekg alignedPos file else file.

Definition parseFileHeader (this : TIM2Parser) (file : ifstream)
  : bool * TIM2Parser * ifstream :=
  let '(raw, file) := readInto (FileHeader_bytes (m_fileHeader this)) file in
  let this := mkTIM2Parser (FileHeader_of_bytes raw) (m_pictures this)
                (m_valid this) (m_lastError this) in
  if ifstream.fail file then
    (false, set_lastError this "Failed to read file header", file)
  else if negb (isValid (m_fileHeader this)) then
    (false, set_lastError this "Invalid TIM2 file signature", file)
  else
    (* a version other than TIM2_FORMAT_VERSION only writes a warning to
       std::cerr *)
    (true, this, file).

(** The loop of [parseMipMapHeader] that fills [sizes[i]], with [n]
    iterations left. *)
Fixpoint parseMipMapHeader_loop (n i : nat) (sizes : list Z)
    (file : ifstream) : list Z * ifstream :=
  match n with
  | O => (sizes, file)
  | S n' =>
      let '(v, file) := readUInt 4 (sizes !!! i) file in
      parseMipMapHeader_loop n' (S i) (<[i := v]> sizes) file
  end.

Definition set_mipMapHeader (pic : Picture) (m : MipMapHeader) : Picture :=
  mkPicture (header pic) (Some m) (userData pic) (imageData pic)
    (clutData pic) (extHeader pic) (comment pic).

Definition parseMipMapHeader (file : ifstream) (pic : Picture)
  : bool * Picture * ifstream :=
  let '(tbp1, file) := readUInt 8 0 file in
  let '(tbp2, file) := readUInt 8 0 file in
  let levels := mipMapTextures (header pic) in
  let '(sizes, file) :=
    parseMipMapHeader_loop (Z.to_nat levels) 0
      (replicate (Z.to_nat levels) 0) file in
  let pic := set_mipMapHeader pic (mkMipMapHeader tbp1 tbp2 sizes) in
  let mipHeaderSize := 16 + levels * 4 in
  let paddedSize := alignOffset mipHeaderSize 16 in
  let file :=
    if mipHeaderSize <? paddedSize
    then ifstream.seekg_cur (paddedSize - mipHeaderSize) file
    else file in
  (ifstream.good file, pic, file).

(** The bytes consumed by the picture header and the mipmap header, as both
    [parsePicture] and [parseUserSpace] compute it. *)
Definition headerDataSize (pic : Picture) : Z :=
  match mipMapHeader pic with
  | Some _ => 48 + alignOffset (16 + mipMapTextures (header pic) * 4) 16
  | None => 48
  end.

(** [strnlen(ptr, maxLen)] followed by [assign(ptr, len)]: the bytes before
    the first zero byte, at most [maxLen] of them. *)
Fixpoint strn (maxLen : nat) (bs : list byte) : list byte :=
  match maxLen, bs with
  | S n, c :: rest => if decide (c = zero_byte) then [] else c :: strn n rest
  | _, _ => []
  end.

(** The local [userSpaceSize] of the source is [localSize] here, apart from
    the header field of that name. *)
Definition parseUserSpace (file : ifstream) (pic : Picture)
  : bool * Picture * ifstream :=
  let localSize :=
    to_size_t (headerSize (header pic) - headerDataSize pic) in
  if localSize =? 0 then (true, pic, file)
  else
    let '(data, file) :=
      readInto (replicate (Z.to_nat localSize) zero_byte) file in
    let pic := mkPicture (header pic) (mipMapHeader pic) data (imageData pic)
                 (clutData pic) (extHeader pic) (comment pic) in
    let pic :=
      if 16 <=? localSize then
        let extHdr := ExtendedHeader_of_bytes (take 16 data) in
        if ext_isValid extHdr then
          let commentOffset := 16 + userDataSize extHdr in
          let endLimit := Z.min localSize (userSpaceSize extHdr) in
          let text :=
            if commentOffset <? endLimit
            then strn (Z.to_nat (endLimit - commentOffset))
                   (drop (Z.to_nat commentOffset) data)
            else comment pic in
          mkPicture (header pic) (mipMapHeader pic) (userData pic)
            (imageData pic) (clutData pic) (Some extHdr) text
        else pic
      else pic in
    (ifstream.good file, pic, file).

Definition parseImageData (file : ifstream) (pic : Picture)
  : bool * Picture * ifstream :=
  let '(data, file) :=
    readInto (replicate (Z.to_nat (imageSize (header pic))) zero_byte) file in
  (ifstream.good file,
   mkPicture (header pic) (mipMapHeader pic) (userData pic) data
     (clutData pic) (extHeader pic) (comment pic),
   file).

Definition parseClutData (file : ifstream) (pic : Picture)
  : bool * Picture * ifstream :=
  let '(data, file) :=
    readInto (replicate (Z.to_nat (clutSize (header pic))) zero_byte) file in
  (ifstream.good file,
   mkPicture (header pic) (mipMapHeader pic) (userData pic) (imageData pic)
     data (extHeader pic) (comment pic),
   file).

(** The block "tellg, alignOffset, seekg if the aligned position is ahead"
    that [parsePicture] runs before the image and before the CLUT. *)
Definition jumpAligned (file : ifstream) (alignment : Z) : ifstream :=
  let '(cur, file) := ifstream.tellg file in
  let currentPos := to_size_t cur in
  let start := alignOffset currentPos alignment in
  if currentPos <? start then ifstream.seekg start file else file.

Definition parsePicture (this : TIM2Parser) (file : ifstream) (pic : Picture)
    (alignment : Z) : bool * TIM2Parser * Picture * ifstream :=
  let '(raw, file) := readInto (replicate 48 zero_byte) file in
  let pic := mkPicture (PictureHeader_of_bytes raw) (mipMapHeader pic)
               (userData pic) (imageData pic) (clutData pic) (extHeader pic)
               (comment pic) in
  if ifstream.fail file then
    (false, set_lastError this "Failed to read picture header", pic, file)
  else
    let '(ok, pic, file) :=
      if 1 <? mipMapTextures (header pic)
      then parseMipMapHeader file pic
      else (true, pic, file) in
    if negb ok then (false, this, pic, file)
    else
      let '(ok, pic, file) :=
        if headerDataSize pic <? headerSize (header pic)
        then parseUserSpace file pic
        else (true, pic, file) in
      if negb ok then (false, this, pic, file)
      else
        let file := jumpAligned file alignment in
        let '(ok, pic, file) :=
          if 0 <? imageSize (header pic)
          then parseImageData file pic
          else (true, pic, file) in
        if negb ok then (false, this, pic, file)
        else
          let file := jumpAligned file alignment in
          let '(ok, pic, file) :=
            if 0 <? clutSize (header pic)
            then parseClutData file pic
            else (true, pic, file) in
          if negb ok then (false, this, pic, file)
          else (true, this, pic, file).

(** The picture loop of [loadFile], at index [i] with [n] iterations left. *)
Fixpoint loadFile_loop (this : TIM2Parser) (file : ifstream) (alignment : Z)
    (n i : nat) : bool * TIM2Parser * ifstream :=
  match n with
  | O => (true, this, file)
  | S n' =>
      let '(ok, this, pic, file) :=
        parsePicture this file Picture_fresh alignment in
      if negb ok then
        (false,
         set_lastError this ("Failed to parse picture " +:+ pretty i),
         file)
      else
        let this := mkTIM2Parser (m_fileHeader this) (m_pictures this ++ [pic])
                      (m_valid this) (m_lastError this) in
        loadFile_loop this file alignment n' (S i)
  end.

(** [loadFile] from the point where the stream is open. *)
Definition loadFile_stream (this : TIM2Parser) (file : ifstream)
  : bool * TIM2Parser * ifstream :=
  let '(ok, this, file) := parseFileHeader this file in
  if negb ok then (false, this, file)
  else
    let alignment := getAlignment (m_fileHeader this) in
    let file := skipAlignment file alignment in
    let '(ok, this, file) :=
      loadFile_loop this file alignment
        (Z.to_nat (pictures (m_fileHeader this))) 0 in
    if negb ok then (false, this, file)
    else
      (true,
       mkTIM2Parser (m_fileHeader this) (m_pictures this) true
         (m_lastError this),
       file).

(** The first three statements of [loadFile]. *)
Definition loadFile_reset (this : TIM2Parser) : TIM2Parser :=
  mkTIM2Parser (m_fileHeader this) [] false "".

(** [TIM2Parser::loadFile(filename)]; [disk] is what the file system holds
    under [filename], [None] when the file cannot be opened. *)
Definition loadFile (this : TIM2Parser) (filename : string)
    (disk : option (list byte)) : bool * TIM2Parser :=
  let this := loadFile_reset this in
  match disk with
  | None => (false, set_lastError this ("Failed to open file: " +:+ filename))
  | Some bytes =>
      let '(ok, this, _) := loadFile_stream this (ifstream.open bytes) in
      (ok, this)
  end.

Definition TIM2Parser_isValid (this : TIM2Parser) : bool := m_valid this.

(** [TIM2Parser parser;]: nothing loaded; the plain [m_fileHeader] is
    indeterminate until [loadFile] reads it and stands here as zero bytes. *)
Definition TIM2Parser_fresh : TIM2Parser :=
  mkTIM2Parser (FileHeader_of_bytes (replicate 16 zero_byte)) [] false "".

(** ** Sample data *)

Definition bytes_of (vs : list Z) : list byte := map byte_of vs.

(** A picture header with the given fields and zero GS registers. *)
Definition sampleHeader (clutSz imgSz hdrSz colors levels clutTy imgTy w h : Z)
  : PictureHeader :=
  mkPictureHeader (hdrSz + imgSz + clutSz) clutSz imgSz hdrSz colors 0 levels
    clutTy imgTy w h 0 0 0 0.

Definition samplePicture (h : PictureHeader) (image clut : list Z) : Picture :=
  mkPicture h None [] (bytes_of image) (bytes_of clut) None [].

Definition indexedFormat (f : PixelFormat) : bool :=
  match f with
  | TIM2_IDTEX4 | TIM2_IDTEX8 => true
  | _ => false
  end.

Definition trueColorFormat (f : PixelFormat) : bool :=
  match f with
  | TIM2_RGB16 | TIM2_RGB24 | TIM2_RGB32 => true
  | _ => false
  end.

Definition pic_rgb32_2x1 : Picture :=
  samplePicture (sampleHeader 0 8 48 0 1 0 3 2 1)
    [10; 20; 30; 255; 40; 50; 60; 128] [].

Definition pic_unknown_format : Picture :=
  samplePicture (sampleHeader 0 4 48 0 1 0 6 1 1) [1; 2; 3; 4] [].


(** The CSM1-compound reorder in the words of the format description: inside
    each block of 32 entries the ranges [8,16) and [16,24) change places, by
    adding or subtracting 8; every other position stays. *)
Definition compoundSwap (i : Z) : Z :=
  let l := i mod 32 in
  if (8 <=? l) && (l <? 16) then i + 8
  else if (16 <=? l) && (l <? 24) then i - 8
  else i.

(** The bytes [clutEntry] reads for one entry of the given format. *)
Definition clutEntryBytes (fmt : PixelFormat) : Z :=
  match fmt with
  | TIM2_RGB16 => 2
  | TIM2_RGB24 => 3
  | TIM2_RGB32 => 4
  | _ => 0
  end.

(** Every entry that [getClutColors] addresses lies inside the CLUT blob. *)
Definition clutInBounds (p : Picture) : Prop :=
  forall i, 0 <= i < clutColors (header p) ->
    (clutIndex (header p) i + 1) * clutEntryBytes (getClutPixelFormat (header p))
    <= Z.of_nat (length (clutData p)).

(** A 32-entry RGB32 CLUT, CSM1 compound, whose entry [k] is (k, 100+k, 200, 255). *)
Definition pic_compound_clut : Picture :=
  samplePicture (sampleHeader 128 0 48 32 1 0x43 5 0 0) []
    (flat_map (fun k => [k; 100 + k; 200; 255]) (seqZ 0 32)).

(** The 5-bit channel of a 16-bit pixel that starts at bit [low]. *)
Definition channel5 (v low : Z) : Z := (v / 2 ^ low) mod 32.

(** A 5-bit channel widened to 8 bits: the channel shifted left by 3, its
    top 3 bits repeated in the 3 low bits. *)
Definition expand5 (c : Z) : Z := c * 8 + c / 4.

Definition color32_eqb (c d : Color32) : bool :=
  (r c =? r d) && (g c =? g d) && (b c =? b d) && (a c =? a d).

(** [check] holds of every integer whose binary numeral is that of [v]
    followed by [n] more bits. *)
Fixpoint forall_bits (n : nat) (check : Z -> bool) (v : Z) : bool :=
  match n with
  | O => check v
  | S n' =>
      forall_bits n' check (2 * v) && forall_bits n' check (2 * v + 1)
  end.

(** The colour the RGB16 rule assigns to the 16-bit value [v]. *)
Definition rgb16Color (v : Z) : Color32 :=
  mkColor32 (expand5 (channel5 v 0)) (expand5 (channel5 v 5))
    (expand5 (channel5 v 10)) (if Z.testbit v 15 then 255 else 0).

(** A 2x1 RGB16 image holding 0x83E0 (alpha, full green) and 0x001F (red). *)
Definition pic_rgb16_2x1 : Picture :=
  samplePicture (sampleHeader 0 4 48 0 1 0 1 2 1) [0xE0; 0x83; 0x1F; 0x00] [].

(** A 1x1 IDTEX8 picture with a two-entry RGB16 CLUT in declared order:
    0x83E0 (alpha, full green) and 0x001F (red). *)
Definition pic_rgb16_clut : Picture :=
  samplePicture (sampleHeader 4 1 48 2 1 0x01 5 1 1) [1]
    [0xE0; 0x83; 0x1F; 0x00].

(** A 2x1 IDTEX4 image whose single byte is 0xAB, with a 16-entry RGB32 CLUT
    whose entry [k] is (k, 100+k, 200, 255). *)
Definition pic_idtex4_AB : Picture :=
  samplePicture (sampleHeader 64 1 48 16 1 0x03 4 2 1) [0xAB]
    (flat_map (fun k => [k; 100 + k; 200; 255]) (seqZ 0 16)).

(** A CLUT of four bytes that declares no colours. *)
Definition pic_clut_no_colors : Picture :=
  samplePicture (sampleHeader 4 0 48 0 1 0x03 5 1 1) [] [1; 2; 3; 4].

(** The bits of image data [getPixelColor] reads for one pixel: the width of
    the format, and nothing where no decode rule reads the blob. *)
Definition pixelBits (p : Picture) : Z :=
  let fmt := getImagePixelFormat (header p) in
  if indexedFormat fmt && negb (hasClut (header p)) then 0
  else getBitsPerPixel fmt.

(** The pixels of a [width] x [height] level lie inside the image blob, and
    the CLUT, where pixels are looked up in it, inside the CLUT blob. *)
Definition levelInBounds (p : Picture) (mipLevel width height : Z) : Prop :=
  0 <= getImageOffset p mipLevel
  /\ getImageOffset p mipLevel + (width * height * pixelBits p + 7) / 8
     <= Z.of_nat (length (imageData p))
  /\ (indexedFormat (getImagePixelFormat (header p)) = true ->
      hasClut (header p) = true -> clutInBounds p).

(** A file with one 1x1 RGB32 picture whose image size is zero. *)
Definition file_no_pixels : list byte :=
  bytes_of ([0x54; 0x49; 0x4d; 0x32; 4; 0; 1; 0; 0; 0; 0; 0; 0; 0; 0; 0]
            ++ [48; 0; 0; 0; 0; 0; 0; 0; 0; 0; 0; 0; 48; 0; 0; 0;
                0; 1; 0; 3; 1; 0; 1; 0]
            ++ replicate 24 0).

Definition pic_no_pixels : Picture :=
  mkPicture (sampleHeader 0 0 48 0 1 0 3 1 1) None [] [] [] None [].

(** [blob] is the [size] consecutive bytes of the file at some offset. *)
Definition isSegment (blob : list byte) (size : Z) (bytes : list byte) : Prop :=
  length blob = Z.to_nat size
  /\ exists off : nat, blob = take (Z.to_nat size) (drop off bytes).

(** Every part of [pic] that is read from the file was read in full: the
    header from 48 bytes of the file, and the user space, the image blob and
    the CLUT blob each a whole segment of the file of the declared size. *)
Definition wholePicture (bytes : list byte) (pic : Picture) : Prop :=
  (exists off : nat,
     (off + 48 <= length bytes)%nat
     /\ header pic = PictureHeader_of_bytes (take 48 (drop off bytes)))
  /\ isSegment (userData pic)
       (Z.max 0 (headerSize (header pic) - headerDataSize pic)) bytes
  /\ isSegment (imageData pic) (imageSize (header pic)) bytes
  /\ isSegment (clutData pic) (clutSize (header pic)) bytes.

(** [pic] is the result of a [parsePicture] call that returned [true],
    started on the good stream [file] over [bytes]. *)
Definition parsedFrom (bytes : list byte) (pic : Picture) : Prop :=
  exists this file alignment this' file',
    ifstream.content file = bytes
    /\ ifstream.good file = true
    /\ parsePicture this file Picture_fresh alignment
       = (true, this', pic, file').

(** A file with one 2x2 RGB32 picture in two mip levels: file header,
    picture header, mipmap header (two registers, two level sizes, padding
    to 32 bytes), then 16 bytes per level. *)
Definition file_two_levels : list byte :=
  bytes_of ([0x54; 0x49; 0x4d; 0x32; 4; 0; 1; 0; 0; 0; 0; 0; 0; 0; 0; 0]
            ++ [112; 0; 0; 0; 0; 0; 0; 0; 32; 0; 0; 0; 80; 0; 0; 0;
                0; 2; 0; 3; 2; 0; 2; 0]
            ++ replicate 24 0
            ++ replicate 16 0 ++ [16; 0; 0; 0; 16; 0; 0; 0] ++ replicate 8 0
            ++ seqZ 1 32).

Definition pic_two_levels : Picture :=
  mkPicture (sampleHeader 0 32 80 0 2 0 3 2 2)
    (Some (mkMipMapHeader 0 0 [16; 16])) [] (bytes_of (seqZ 1 32)) [] None [].

(** The same file cut inside the image blob. *)
Definition file_truncated : list byte := take 100 file_two_levels.

(** A four-byte file that spells "TIM3". *)
Definition file_TIM3_short : list byte := bytes_of [0x54; 0x49; 0x4d; 0x33].

(** A complete 16-byte header that spells "TIM3". *)
Definition file_TIM3 : list byte :=
  bytes_of [0x54; 0x49; 0x4d; 0x33; 4; 0; 1; 0; 0; 0; 0; 0; 0; 0; 0; 0].

(** The file of the round-trip test: one 2x1 RGB32 picture, no CLUT, no
    mipmaps, pixels (10,20,30,255) and (40,50,60,128). *)
Definition file_rgb32_2x1 : list byte :=
  bytes_of ([0x54; 0x49; 0x4d; 0x32; 4; 0; 1; 0; 0; 0; 0; 0; 0; 0; 0; 0]
            ++ [56; 0; 0; 0; 0; 0; 0; 0; 8; 0; 0; 0; 48; 0; 0; 0;
                0; 1; 0; 3; 2; 0; 1; 0]
            ++ replicate 24 0
            ++ [10; 20; 30; 255; 40; 50; 60; 128]).

(** One 1x1 IDTEX8 picture with 16 bytes of user space, one image byte and
    a 4-entry RGB32 CLUT: file header, picture header, user space at 64,
    image at 80, CLUT at 96. *)
Definition file_idtex8 : list byte :=
  bytes_of ([0x54; 0x49; 0x4d; 0x32; 4; 0; 1; 0; 0; 0; 0; 0; 0; 0; 0; 0]
            ++ [81; 0; 0; 0; 16; 0; 0; 0; 1; 0; 0; 0; 64; 0; 4; 0;
                0; 1; 3; 5; 1; 0; 1; 0]
            ++ replicate 24 0
            ++ seqZ 1 16
            ++ [2] ++ replicate 15 0
            ++ flat_map (fun k => [k; 100 + k; 200; 255]) (seqZ 0 4)).

(** A picture with two mip levels and no image bytes, the file ending right
    after the two level sizes. *)
Definition file_no_padding : list byte :=
  bytes_of ([0x54; 0x49; 0x4d; 0x32; 4; 0; 1; 0; 0; 0; 0; 0; 0; 0; 0; 0]
            ++ [80; 0; 0; 0; 0; 0; 0; 0; 0; 0; 0; 0; 80; 0; 0; 0;
                0; 2; 0; 3; 2; 0; 2; 0]
            ++ replicate 24 0
            ++ replicate 16 0 ++ [16; 0; 0; 0; 16; 0; 0; 0]).

(** A 4x4 picture that declares 40 mip levels. *)
Definition pic_forty_levels : Picture :=
  mkPicture (sampleHeader 0 64 224 0 40 0 3 4 4)
    (Some (mkMipMapHeader 0 0 (replicate 40 0))) []
    (replicate 64 zero_byte) [] None [].

(** What a caller sees of [loadFile] on [bytes]: the return value,
    [isValid()], the number of pictures and the error message. *)
Definition loadOutcome (bytes : list byte) : bool * bool * nat * string :=
  let '(ok, this) := loadFile TIM2Parser_fresh "a.tm2" (Some bytes) in
  (ok, TIM2Parser_isValid this, getPictureCount this, m_lastError this).

(** ** Proof automation *)

(** Splits a goal into its conjuncts without unfolding definitions. *)
Ltac conj_split := repeat match goal with |- _ /\ _ => split end.


(** ** The sections of a file

    Where the sections that [loadFile] reads lie in a file, computed from
    the bytes alone as the format description gives it: the file header,
    then for each picture its header, its mipmap header, its user space,
    its image blob and its CLUT blob. *)

(** The section of [n] bytes at offset [pos] lies inside the file. *)
Definition readFits (bytes : list byte) (pos n : Z) : bool :=
  pos + n <=? Z.of_nat (length bytes).

(** The end of the section of [n] bytes at offset [pos], when the file holds
    it. *)
Definition sectionEnd (bytes : list byte) (pos n : Z) : option Z :=
  if readFits bytes pos n then Some (pos + n) else None.

(** Where a blob starts that comes after offset [pos]: at the next multiple
    of [alignment] that [alignOffset] gives, or at [pos] itself. *)
Definition alignedPos (pos alignment : Z) : Z :=
  let start := alignOffset (to_size_t pos) alignment in
  if to_size_t pos <? start then start else pos.

(** The end of the picture that starts at offset [start], when the file
    holds all of its sections:
    - the picture header of 48 bytes;
    - with more than one mip level, the mipmap header: two registers and one
      size per level are read, the padding to a multiple of 16 is skipped;
    - the user space, when [headerSize] exceeds the bytes of the two
      headers;
    - the image blob of [imageSize] bytes, at the next aligned position;
    - the CLUT blob of [clutSize] bytes, at the next aligned position. *)
Definition pictureEnd (bytes : list byte) (alignment start : Z) : option Z :=
  match sectionEnd bytes start 48 with
  | None => None
  | Some p =>
      let hdr :=
        PictureHeader_of_bytes (take 48 (drop (Z.to_nat start) bytes)) in
      let levels := mipMapTextures hdr in
      let mipSize := alignOffset (16 + levels * 4) 16 in
      let headerData := if 1 <? levels then 48 + mipSize else 48 in
      match (if 1 <? levels
             then match sectionEnd bytes p (16 + levels * 4) with
                  | Some _ => Some (p + mipSize)
                  | None => None
                  end
             else Some p) with
      | None => None
      | Some p =>
          match (if headerData <? headerSize hdr
                 then sectionEnd bytes p (headerSize hdr - headerData)
                 else Some p) with
          | None => None
          | Some p =>
              match (if 0 <? imageSize hdr
                     then sectionEnd bytes (alignedPos p alignment)
                            (imageSize hdr)
                     else Some (alignedPos p alignment)) with
              | None => None
              | Some p =>
                  if 0 <? clutSize hdr
                  then sectionEnd bytes (alignedPos p alignment)
                         (clutSize hdr)
                  else Some (alignedPos p alignment)
              end
          end
      end
  end.

(** The end of [n] pictures in a row, the first one at [start]. *)
Fixpoint picturesEnd (bytes : list byte) (alignment : Z) (n : nat)
    (start : Z) : option Z :=
  match n with
  | O => Some start
  | S n' =>
      match pictureEnd bytes alignment start with
      | Some p => picturesEnd bytes alignment n' p
      | None => None
      end
  end.

(** The file holds every section it declares that is read: the 16 bytes of
    the file header and all sections of the pictures it counts, the first
    picture at the first aligned position after the file header. *)
Definition allReadsFit (bytes : list byte) : bool :=
  readFits bytes 0 16
  && (let h := FileHeader_of_bytes (take 16 bytes) in
      match picturesEnd bytes (getAlignment h) (Z.to_nat (pictures h))
              (alignedPos 16 (getAlignment h)) with
      | Some _ => true
      | None => false
      end).

(** The stream [file] reads [bytes], is good and stands at offset [pos]. *)
Definition liveAt (bytes : list byte) (pos : Z) (file : ifstream) : Prop :=
  ifstream.content file = bytes
  /\ ifstream.good file = true
  /\ ifstream.pos file = pos.

(** ** Further definitions *)

(** [TIM2Parser::getPicture]: [nullptr] is [None]. *)
Definition getPicture (this : TIM2Parser) (index : Z) : option Picture :=
  if Z.of_nat (length (m_pictures this)) <=? index then None
  else m_pictures this !! Z.to_nat index.

(** The sum of a list of sizes. *)
Definition sumZ (l : list Z) : Z := foldr Z.add 0 l.

(** The four channels of a colour lie in [0,255]. *)
Definition validColor (c : Color32) : Prop :=
  0 <= r c < 256 /\ 0 <= g c < 256 /\ 0 <= b c < 256 /\ 0 <= a c < 256.

(** Groups of four bytes read as R, G, B, A. *)
Fixpoint rgba_of_bytes (bs : list byte) : list Color32 :=
  match bs with
  | r :: g :: b :: a :: rest =>
      mkColor32 (u8 r) (u8 g) (u8 b) (u8 a) :: rgba_of_bytes rest
  | _ => []
  end.

(** The level sizes of a picture, none without mipmap header. *)
Definition levelSizes (p : Picture) : list Z :=
  match mipMapHeader p with
  | Some m => sizes m
  | None => []
  end.

(** A 5x3 RGB24 picture: 45 bytes counting up from 0. *)
Definition pic_rgb24_5x3 : Picture :=
  samplePicture (sampleHeader 0 45 48 0 1 0 2 5 3) (seqZ 0 45) [].

(** The compound CLUT of [pic_compound_clut] read in declared order: the
    same header without the compound flag. *)
Definition pic_plain_clut : Picture :=
  samplePicture (sampleHeader 128 0 48 32 1 0x03 5 0 0) []
    (flat_map (fun k => [k; 100 + k; 200; 255]) (seqZ 0 32)).

(** The stream after a successful read of the 16-byte file header. *)
Definition afterFileHeader (bytes : list byte) : ifstream :=
  ifstream.mk bytes 16 false false.

(** A file header alone, version byte 9, no pictures, then three stray
    bytes. *)
Definition file_empty_v9 : list byte :=
  bytes_of [0x54; 0x49; 0x4d; 0x32; 9; 0; 0; 0; 0; 0; 0; 0; 0; 0; 0; 0;
            1; 2; 3].

(** What the parser leaves in the user-space members of a picture: the
    extended header is there only when the user space holds its 16 bytes
    and starts with "eXt\0"; the comment is free of zero bytes, empty
    without extended header, and otherwise the bytes that follow the user
    data, up to the first zero byte and within both the user space read and
    the size the extended header declares. *)
Definition userSpaceParsed (pic : Picture) : Prop :=
  (zero_byte ∉ comment pic)
  /\ (extHeader pic = None -> comment pic = [])
  /\ (forall e, extHeader pic = Some e ->
        (16 <= length (userData pic))%nat
        /\ e = ExtendedHeader_of_bytes (take 16 (userData pic))
        /\ exHeaderId e = eXt_magic
        /\ (comment pic
            `prefix_of` drop (Z.to_nat (16 + userDataSize e)) (userData pic))
        /\ (comment pic <> [] ->
            16 + userDataSize e + Z.of_nat (length (comment pic))
            <= Z.min (Z.of_nat (length (userData pic))) (userSpaceSize e))).

(** One picture with 32 bytes of user space: an extended header that
    declares 29 valid bytes and 4 bytes of user data, the user data, the
    comment "Hi" with its terminator, and padding. *)
Definition file_with_comment : list byte :=
  bytes_of ([0x54; 0x49; 0x4d; 0x32; 4; 0; 1; 0; 0; 0; 0; 0; 0; 0; 0; 0]
            ++ [80; 0; 0; 0; 0; 0; 0; 0; 0; 0; 0; 0; 80; 0; 0; 0;
                0; 1; 0; 0; 1; 0; 1; 0]
            ++ replicate 24 0
            ++ [0x65; 0x58; 0x74; 0; 29; 0; 0; 0; 4; 0; 0; 0; 0; 0; 0; 0]
            ++ [1; 2; 3; 4] ++ [72; 105; 0] ++ replicate 9 7).

(** * Beyond the parser: helpers, GS registers, export, command line

    [utils.h], the register decoders of [tim2_types.h],
    [image_converter.cpp] and the argument parser of [main.cpp]. *)

(** Conversions to the unsigned types of 16, 32 and 64 bits. *)
Definition to_u16 (v : Z) : Z := v mod 2 ^ 16.
Definition to_u32 (v : Z) : Z := v mod 2 ^ 32.
Definition to_u64 (v : Z) : Z := v mod 2 ^ 64.

(** Conversion to [int]: the value of the same residue modulo [2^32] in
    [-2^31, 2^31). *)
Definition to_int (v : Z) : Z := (v + 2 ^ 31) mod 2 ^ 32 - 2 ^ 31.

(** ** utils.h *)

Module utils.

(** [swapEndian<T>] for an unsigned [T] of [size] bytes.  The 16-bit
    operands are promoted to [int] and the result converts back; the 32-bit
    and 64-bit left shifts drop what leaves the type. *)
Definition swapEndian (size value : Z) : Z :=
  if size =? 1 then value
  else if size =? 2 then
    to_u16 (Z.lor (Z.shiftr value 8) (Z.shiftl value 8))
  else if size =? 4 then
    Z.lor (Z.lor (Z.lor
      (Z.land (Z.shiftr value 24) 0xFF)
      (Z.land (Z.shiftr value 8) 0xFF00))
      (Z.land (to_u32 (Z.shiftl value 8)) 0xFF0000))
      (Z.land (to_u32 (Z.shiftl value 24)) 0xFF000000)
  else if size =? 8 then
    Z.lor (Z.lor (Z.lor (Z.lor (Z.lor (Z.lor (Z.lor
      (Z.land (Z.shiftr value 56) 0xFF)
      (Z.land (Z.shiftr value 40) 0xFF00))
      (Z.land (Z.shiftr value 24) 0xFF0000))
      (Z.land (Z.shiftr value 8) 0xFF000000))
      (Z.land (to_u64 (Z.shiftl value 8)) 0xFF00000000))
      (Z.land (to_u64 (Z.shiftl value 24)) 0xFF0000000000))
      (Z.land (to_u64 (Z.shiftl value 40)) 0xFF000000000000))
      (Z.land (to_u64 (Z.shiftl value 56)) 0xFF00000000000000)
  else value.

(** [std::endian::native == std::endian::big], false on the little-endian
    host this development assumes. *)
Definition isBigEndian : bool := false.

Definition fromLittleEndian (size value : Z) : Z :=
  if isBigEndian then swapEndian size value else value.

(** [alignUp]; dividing by a zero alignment is undefined. *)
Definition alignUp (value alignment : Z) : outcome Z :=
  if alignment =? 0 then Fault
  else Ok (to_u64 (to_u64 (value + alignment - 1) / alignment * alignment)).

Definition isAligned (value alignment : Z) : outcome bool :=
  if alignment =? 0 then Fault
  else Ok (value mod alignment =? 0).

(** A shift of a 64-bit operand is undefined for a negative count and for a
    count of 64 or more. *)
Definition shiftCount64 (n : Z) : bool := (0 <=? n) && (n <? 64).

(** [extractBits]: 64-bit arithmetic, returned as [uint32_t]. *)
Definition extractBits (value start count : Z) : outcome Z :=
  if shiftCount64 start && shiftCount64 count then
    Ok (to_u32 (Z.land (Z.shiftr value start) (Z.shiftl 1 count - 1)))
  else Fault.

(** [setBits], returning the new content of [value]. *)
Definition setBits (value start count bits : Z) : outcome Z :=
  if shiftCount64 start && shiftCount64 count then
    let mask := to_u64 (Z.shiftl (Z.shiftl 1 count - 1) start) in
    Ok (Z.lor (Z.land value (to_u64 (Z.lnot mask)))
              (Z.land (to_u64 (Z.shiftl bits start)) mask))
  else Fault.

(** The colour helpers compute in [int] and return [uint8_t]. *)
Definition expand5to8 (value : Z) : Z :=
  to_u8 (Z.lor (Z.shiftl value 3) (Z.shiftr value 2)).

Definition expand6to8 (value : Z) : Z :=
  to_u8 (Z.lor (Z.shiftl value 2) (Z.shiftr value 4)).

Definition contract8to5 (value : Z) : Z := to_u8 (Z.shiftr value 3).

Definition contract8to6 (value : Z) : Z := to_u8 (Z.shiftr value 2).

(** [int] arithmetic that leaves the range of [int] is undefined. *)
Definition checkedInt (v : Z) : outcome Z :=
  if (- 2 ^ 31 <=? v) && (v <? 2 ^ 31) then Ok v else Fault.

(** [calculateTextureSize]: the product [width * height] is computed in
    [int], the rest in [size_t]. *)
Definition calculateTextureSize (width height bpp : Z) : outcome Z :=
  product ← checkedInt (width * height);
  let pixelCount := to_u64 product in
  let bitCount := to_u64 (pixelCount * to_u64 bpp) in
  Ok (to_u64 (bitCount + 7) / 8).

(** A shift of an [int] is undefined for a negative count and for a count of
    32 or more; a left shift keeps the low 32 bits. *)
Definition shiftCount32 (n : Z) : bool := (0 <=? n) && (n <? 32).

Definition shiftLeftInt (v n : Z) : outcome Z :=
  if shiftCount32 n then Ok (to_int (Z.shiftl v n)) else Fault.

Definition getMipDimension (baseDimension mipLevel : Z) : outcome Z :=
  if shiftCount32 mipLevel then Ok (Z.max 1 (Z.shiftr baseDimension mipLevel))
  else Fault.

Definition isValidDimension (dimension pixelFormat mipLevels : Z)
  : outcome bool :=
  requiredMultiple ←
    (if pixelFormat =? 0x04 then
       n ← checkedInt (mipLevels + 1); shiftLeftInt 1 n
     else if pixelFormat =? 0x05 then shiftLeftInt 1 mipLevels
     else if 1 <? mipLevels then
       n ← checkedInt (mipLevels - 1); shiftLeftInt 1 n
     else Ok 1);
  Ok (Z.rem dimension requiredMultiple =? 0).

End utils.

(** ** GS register fields *)

Record GsTex0Fields : Type := mkGsTex0Fields {
  tbp0 : Z;
  tbw : Z;
  psm : Z;
  tw : Z;
  th : Z;
  tcc : Z;
  tfx : Z;
  cbp : Z;
  cpsm : Z;
  csm : Z;
  csa : Z;
  cld : Z
}.

(** [GsTex0Fields::parse]. *)
Definition GsTex0Fields_parse (tex0 : Z) : GsTex0Fields :=
  {| tbp0 := to_u16 (Z.land tex0 0x3FFF);
     tbw := to_u8 (Z.land (Z.shiftr tex0 14) 0x3F);
     psm := to_u8 (Z.land (Z.shiftr tex0 20) 0x3F);
     tw := to_u8 (Z.land (Z.shiftr tex0 26) 0x0F);
     th := to_u8 (Z.land (Z.shiftr tex0 30) 0x0F);
     tcc := to_u8 (Z.land (Z.shiftr tex0 34) 0x01);
     tfx := to_u8 (Z.land (Z.shiftr tex0 35) 0x03);
     cbp := to_u16 (Z.land (Z.shiftr tex0 37) 0x3FFF);
     cpsm := to_u8 (Z.land (Z.shiftr tex0 51) 0x0F);
     csm := to_u8 (Z.land (Z.shiftr tex0 55) 0x01);
     csa := to_u8 (Z.land (Z.shiftr tex0 56) 0x1F);
     cld := to_u8 (Z.land (Z.shiftr tex0 61) 0x07) |}.

Record GsTex1Fields : Type := mkGsTex1Fields {
  lcm : Z;
  mxl : Z;
  mmag : Z;
  mmin : Z;
  mtba : Z;
  lodL : Z;
  lodK : Z
}.

(** [GsTex1Fields::parse]; [lodL] and [lodK] are the members [l] and [k]. *)
Definition GsTex1Fields_parse (tex1 : Z) : GsTex1Fields :=
  {| lcm := to_u8 (Z.land tex1 0x01);
     mxl := to_u8 (Z.land (Z.shiftr tex1 2) 0x07);
     mmag := to_u8 (Z.land (Z.shiftr tex1 5) 0x01);
     mmin := to_u8 (Z.land (Z.shiftr tex1 6) 0x07);
     mtba := to_u8 (Z.land (Z.shiftr tex1 9) 0x01);
     lodL := to_u16 (Z.land (Z.shiftr tex1 19) 0x03);
     lodK := to_u16 (Z.land (Z.shiftr tex1 32) 0xFFF) |}.

(** The twelve fields of TEX0 put back at their bit positions. *)
Definition GsTex0Fields_pack (f : GsTex0Fields) : Z :=
  tbp0 f + tbw f * 2 ^ 14 + psm f * 2 ^ 20 + tw f * 2 ^ 26 + th f * 2 ^ 30
  + tcc f * 2 ^ 34 + tfx f * 2 ^ 35 + cbp f * 2 ^ 37 + cpsm f * 2 ^ 51
  + csm f * 2 ^ 55 + csa f * 2 ^ 56 + cld f * 2 ^ 61.

(** The bits of TEX1 that belong to a field [GsTex1Fields::parse] reads:
    bit 0, bits 2 to 9, bits 19 and 20, bits 32 to 43. *)
Definition GsTex1_read_mask : Z := 0xFFF001803FD.

(** ** std::ofstream

    An output stream on a file.  A stream hands what it is given to its
    stream buffer; the bytes the buffer has taken may still wait there, for
    nothing in [exportBMP] flushes and closing the file reports no error.
    So a good stream tells that all bytes were taken, not that they have
    reached the device. *)

Module ofstream.

(** The stream buffer of a file: [sputn taken chunk] is the number of bytes
    of [chunk] it takes once it has taken the bytes [taken]. *)
Definition filebuf : Type := list byte -> list byte -> nat.

(** The stream buffer, the bytes it has taken so far and whether the stream
    has left the good state. *)
Record ofstream : Type := mk {
  rdbuf : filebuf;
  content : list byte;
  failed : bool
}.

(** [std::ofstream file(filename, std::ios::binary)]: [None] when the file
    cannot be created, else a good stream that has taken nothing. *)
Definition open (fs : string -> option filebuf) (filename : string)
  : option ofstream :=
  match fs filename with
  | Some buf => Some (mk buf [] false)
  | None => None
  end.

(** [file.write(bytes, n)]: nothing on a stream that is not good; else the
    bytes go to the stream buffer, and the stream turns bad when the buffer
    takes fewer than all of them. *)
Definition write (bytes : list byte) (s : ofstream) : ofstream :=
  if failed s then s
  else
    let taken := (rdbuf s (content s) bytes `min` length bytes)%nat in
    mk (rdbuf s) (content s ++ take taken bytes)
      (taken <? length bytes)%nat.

Definition good (s : ofstream) : bool := negb (failed s).

End ofstream.

(** [v[i] = x] on a [std::vector]: undefined outside the vector. *)
Definition store {A : Type} (i : Z) (x : A) (v : list A) : outcome (list A) :=
  if (0 <=? i) && (i <? Z.of_nat (length v)) then Ok (<[Z.to_nat i := x]> v)
  else Fault.

(** [v[i]] on a [std::vector]: undefined outside the vector. *)
Definition at_index {A : Type} (v : list A) (i : Z) : outcome A :=
  if i <? 0 then Fault
  else match v !! Z.to_nat i with
       | Some x => Ok x
       | None => Fault
       end.

(** [std::to_string] of an unsigned value. *)
Definition to_string (n : Z) : string := pretty (Z.to_N n).

(** ** image_converter.cpp *)

Module ImageConverter.

(** The packed BMP structures with their default member initialisers. *)
Record BMPHeader : Type := mkBMPHeader {
  type : Z;
  fileSize : Z;
  reserved : Z;
  dataOffset : Z
}.

Record BMPInfoHeader : Type := mkBMPInfoHeader {
  size : Z;
  width : Z;
  height : Z;
  planes : Z;
  bitCount : Z;
  compression : Z;
  imageSize : Z;
  xPelsPerMeter : Z;
  yPelsPerMeter : Z;
  clrUsed : Z;
  clrImportant : Z
}.

(** The 14 bytes of a [BMPHeader] in memory. *)
Definition BMPHeader_bytes (h : BMPHeader) : list byte :=
  le_bytes 2 (type h) ++ le_bytes 4 (fileSize h) ++ le_bytes 4 (reserved h)
  ++ le_bytes 4 (dataOffset h).

(** The 40 bytes of a [BMPInfoHeader] in memory. *)
Definition BMPInfoHeader_bytes (h : BMPInfoHeader) : list byte :=
  le_bytes 4 (size h) ++ le_bytes 4 (width h) ++ le_bytes 4 (height h)
  ++ le_bytes 2 (planes h) ++ le_bytes 2 (bitCount h)
  ++ le_bytes 4 (compression h) ++ le_bytes 4 (imageSize h)
  ++ le_bytes 4 (xPelsPerMeter h) ++ le_bytes 4 (yPelsPerMeter h)
  ++ le_bytes 4 (clrUsed h) ++ le_bytes 4 (clrImportant h).

(** The arguments of one call of [stbi_write_png]. *)
Record png_call : Type := mkPngCall {
  png_filename : string;
  png_w : Z;
  png_h : Z;
  png_comp : Z;
  png_data : list byte;
  png_stride_in_bytes : Z
}.

(** How an export ends: with one of the three messages on [std::cerr] and
    [false], with the output stream after its writes and [file.good()], or
    with the result of [stbi_write_png]. *)
Inductive exported : Type :=
  | InvalidMipLevel
  | FailedToDecode
  | FailedToCreate
  | Written (file : ofstream.ofstream)
  | PngWritten (call : png_call) (result : Z).

(** The value the export returns. *)
Definition returned (e : exported) : bool :=
  match e with
  | Written file => ofstream.good file
  | PngWritten _ result => negb (result =? 0)
  | _ => false
  end.

(** The loop of [exportBMP] over [x], with [n] iterations left. *)
Fixpoint exportBMP_row (imageData : list Color32) (width y : Z) (n : nat)
    (x : Z) (row : list byte) : outcome (list byte) :=
  match n with
  | O => Ok row
  | S n' =>
      pixel ← at_index imageData (y * width + x);
      row ← store (x * 3 + 0) (byte_of (b pixel)) row;
      row ← store (x * 3 + 1) (byte_of (g pixel)) row;
      row ← store (x * 3 + 2) (byte_of (r pixel)) row;
      exportBMP_row imageData width y n' (x + 1) row
  end.

(** The loop of [exportBMP] over [y], downwards, with [m] iterations
    left. *)
Fixpoint exportBMP_rows (imageData : list Color32) (width rowSize : Z)
    (m : nat) (y : Z) (row : list byte) (file : ofstream.ofstream)
  : outcome ofstream.ofstream :=
  match m with
  | O => Ok file
  | S m' =>
      row ← exportBMP_row imageData width y (Z.to_nat width) 0 row;
      let file := ofstream.write (take (Z.to_nat rowSize) row) file in
      exportBMP_rows imageData width rowSize m' (y - 1) row file
  end.

(** [ImageConverter::exportBMP]; [fs] tells which files can be created and
    gives the stream buffer of each.  The loop over [y] starts at the [int]
    [height - 1] and runs while [y >= 0]. *)
Definition exportBMP (fs : string -> option ofstream.filebuf)
    (pic : Picture)
    (filename : string) (mipLevel : Z) : outcome exported :=
  if mipMapTextures (header pic) <=? mipLevel then Ok InvalidMipLevel
  else
    imageData ← decodeImage pic mipLevel;
    match imageData with
    | [] => Ok FailedToDecode
    | _ =>
        sw ← shiftRightInt (imageWidth (header pic)) mipLevel;
        sh ← shiftRightInt (imageHeight (header pic)) mipLevel;
        let width := Z.max 1 sw in
        let height := Z.max 1 sh in
        let rowSize := (width * 3 + 3) / 4 * 4 in
        let imageSize := rowSize * height in
        let bmpHeader :=
          mkBMPHeader 0x4D42 (to_u32 (14 + 40 + imageSize)) 0 54 in
        let infoHeader :=
          mkBMPInfoHeader 40 (to_int width) (to_int height) 1 24 0
            (to_u32 imageSize) 2835 2835 0 0 in
        match ofstream.open fs filename with
        | None => Ok FailedToCreate
        | Some file =>
            let file := ofstream.write (BMPHeader_bytes bmpHeader) file in
            let file :=
              ofstream.write (BMPInfoHeader_bytes infoHeader) file in
            let row := replicate (Z.to_nat rowSize) zero_byte in
            let y := to_int (height - 1) in
            file ← exportBMP_rows imageData width rowSize
                     (Z.to_nat (y + 1)) y row file;
            Ok (Written file)
        end
    end.

(** The loop of [exportPNG] over the decoded pixels, with [n] iterations
    left. *)
Fixpoint exportPNG_loop (imageData : list Color32) (n : nat) (i : Z)
    (rgbaData : list byte) : outcome (list byte) :=
  match n with
  | O => Ok rgbaData
  | S n' =>
      pixel ← at_index imageData i;
      rgbaData ← store (i * 4 + 0) (byte_of (r pixel)) rgbaData;
      rgbaData ← store (i * 4 + 1) (byte_of (g pixel)) rgbaData;
      rgbaData ← store (i * 4 + 2) (byte_of (b pixel)) rgbaData;
      rgbaData ← store (i * 4 + 3) (byte_of (a pixel)) rgbaData;
      exportPNG_loop imageData n' (i + 1) rgbaData
  end.

Section Exporters.

(** [stbi_write_png] of the third-party header: its result for a call. *)
Variable stbi_write_png : png_call -> Z.

Variable fs : string -> option ofstream.filebuf.

(** [ImageConverter::exportPNG]. *)
Definition exportPNG (pic : Picture) (filename : string) (mipLevel : Z)
  : outcome exported :=
  if mipMapTextures (header pic) <=? mipLevel then Ok InvalidMipLevel
  else
    imageData ← decodeImage pic mipLevel;
    match imageData with
    | [] => Ok FailedToDecode
    | _ =>
        sw ← shiftRightInt (imageWidth (header pic)) mipLevel;
        sh ← shiftRightInt (imageHeight (header pic)) mipLevel;
        let width := Z.max 1 sw in
        let height := Z.max 1 sh in
        rgbaData ← exportPNG_loop imageData (length imageData) 0
                     (replicate (Z.to_nat (width * height * 4)) zero_byte);
        let call :=
          mkPngCall filename (to_int width) (to_int height) 4 rgbaData
            (to_int (width * 4)) in
        Ok (PngWritten call (stbi_write_png call))
    end.

(** The inner loop of [exportAll] over the mip levels of picture [i], with
    [n] iterations left; [acc] is [success] and the exports made so far,
    each with its file name. *)
Fixpoint exportAll_mips (pic : Picture) (i : Z)
    (baseFilename format : string) (n : nat) (mip : Z)
    (acc : bool * list (string * exported))
  : outcome (bool * list (string * exported)) :=
  match n with
  | O => Ok acc
  | S n' =>
      let filename := (baseFilename +:+ "_pic") +:+ to_string i in
      let filename :=
        if 1 <? mipMapTextures (header pic)
        then filename +:+ ("_mip" +:+ to_string mip) else filename in
      let filename := filename +:+ ("." +:+ format) in
      result ←
        (if String.eqb format "png" then exportPNG pic filename mip
         else exportBMP fs pic filename mip);
      exportAll_mips pic i baseFilename format n' (mip + 1)
        (if returned result then acc.1 else false,
         acc.2 ++ [(filename, result)])
  end.

(** The outer loop of [exportAll] over the pictures, with [n] iterations
    left. *)
Fixpoint exportAll_pictures (parser : TIM2Parser)
    (baseFilename format : string) (n : nat) (i : Z)
    (acc : bool * list (string * exported))
  : outcome (bool * list (string * exported)) :=
  match n with
  | O => Ok acc
  | S n' =>
      match getPicture parser i with
      | None => exportAll_pictures parser baseFilename format n' (i + 1) acc
      | Some pic =>
          acc ← exportAll_mips pic i baseFilename format
                  (Z.to_nat (mipMapTextures (header pic))) 0 acc;
          exportAll_pictures parser baseFilename format n' (i + 1) acc
      end
  end.

(** [ImageConverter::exportAll]: the value returned and the exports made,
    in order. *)
Definition exportAll (parser : TIM2Parser) (baseFilename format : string)
  : outcome (bool * list (string * exported)) :=
  exportAll_pictures parser baseFilename format (getPictureCount parser) 0
    (true, []).

End Exporters.

End ImageConverter.

(** The bytes of one BMP row: blue, green, red of each pixel, then zeros up
    to [rowSize]. *)
Definition bmpRow (rowSize : Z) (pixels : list Color32) : list byte :=
  flat_map (fun c => [byte_of (b c); byte_of (g c); byte_of (r c)]) pixels
  ++ replicate (Z.to_nat rowSize - 3 * length pixels) zero_byte.

(** The rows of a [width] x [height] image from row [height - 1] down to
    row 0. *)
Definition bmpRows (width height rowSize : Z) (pixels : list Color32)
  : list byte :=
  flat_map
    (fun y => bmpRow rowSize
                (take (Z.to_nat width) (drop (y * Z.to_nat width) pixels)))
    (reverse (seq 0 (Z.to_nat height))).

(** Red, green, blue, alpha of each pixel. *)
Definition rgbaBytes (pixels : list Color32) : list byte :=
  flat_map
    (fun c => [byte_of (r c); byte_of (g c); byte_of (b c); byte_of (a c)])
    pixels.

(** The name [exportAll] gives the file of level [mip] of picture [i]. *)
Definition exportName (baseFilename format : string) (i : nat)
    (pic : Picture) (mip : nat) : string :=
  baseFilename +:+ "_pic" +:+ to_string (Z.of_nat i)
  +:+ (if 1 <? mipMapTextures (header pic)
       then "_mip" +:+ to_string (Z.of_nat mip) else "")
  +:+ "." +:+ format.

(** The names of all files of picture [i], by level. *)
Definition exportNames (baseFilename format : string) (i : nat)
    (pic : Picture) : list string :=
  map (exportName baseFilename format i pic)
    (seq 0 (Z.to_nat (mipMapTextures (header pic)))).

(** The writes of [chunks] to [file], in order. *)
Definition write_all (chunks : list (list byte)) (file : ofstream.ofstream)
  : ofstream.ofstream :=
  foldl (fun f chunk => ofstream.write chunk f) file chunks.

(** The row stride of a BMP file of 24 bits per pixel. *)
Definition bmpRowSize (width : Z) : Z := (width * 3 + 3) / 4 * 4.

(** A BMP file of 24 bits per pixel for a [width] x [height] image: the
    14-byte file header ("BM", file size, reserved, offset of the pixel
    data), the 40-byte info header (its size, width, height, one plane, 24
    bits, no compression, size of the pixel data, 2835 pixels per metre
    both ways, no palette), then the rows from the bottom one up. *)
Definition bmpFile (width height : Z) (pixels : list Color32) : list byte :=
  let rowSize := bmpRowSize width in
  bytes_of [0x42; 0x4D] ++ le_bytes 4 (54 + rowSize * height)
  ++ le_bytes 4 0 ++ le_bytes 4 54
  ++ le_bytes 4 40 ++ le_bytes 4 width ++ le_bytes 4 height
  ++ le_bytes 2 1 ++ le_bytes 2 24 ++ le_bytes 4 0
  ++ le_bytes 4 (rowSize * height)
  ++ le_bytes 4 2835 ++ le_bytes 4 2835 ++ le_bytes 4 0 ++ le_bytes 4 0
  ++ bmpRows width height rowSize pixels.

(** A 3x2 RGB24 picture, 18 bytes counting up from 1. *)
Definition pic_rgb24_3x2 : Picture :=
  samplePicture (sampleHeader 0 18 48 0 1 0 2 3 2) (seqZ 1 18) [].

(** A file system where every file can be created and takes every byte
    written. *)
Definition fs_roomy : string -> option ofstream.filebuf :=
  fun _ => Some (fun _ chunk => length chunk).

(** A file system where every file can be created and takes 60 bytes, then
    no more. *)
Definition fs_sixty : string -> option ofstream.filebuf :=
  fun _ => Some (fun taken _ => (60 - length taken)%nat).

(** The names of all files of an export, picture by picture. *)
Definition exportAllNames (baseFilename format : string)
    (pictures : list Picture) : list string :=
  concat (imap (exportNames baseFilename format) pictures).

(** What an export of [exportAll] can end in: the PNG writer's result when
    the format is "png", otherwise a BMP file or the failure to create
    one. *)
Definition exportKind (format : string) (e : ImageConverter.exported)
  : Prop :=
  match e with
  | ImageConverter.PngWritten _ _ => format = "png"
  | ImageConverter.Written _ | ImageConverter.FailedToCreate =>
      format <> "png"
  | _ => False
  end.

(** A string of decimal digits. *)
Fixpoint digits (s : string) : bool :=
  match s with
  | EmptyString => true
  | String c s' =>
      match Ascii.is_nat c with Some _ => digits s' | None => false end
  end.

(** A parser that holds the given pictures. *)
Definition parserOf (pictures : list Picture) : TIM2Parser :=
  {| m_fileHeader := m_fileHeader TIM2Parser_fresh;
     m_pictures := pictures;
     m_valid := true;
     m_lastError := "" |}.

(** A string that starts with a character other than a digit. *)
Definition startsWithoutDigit (s : string) : bool :=
  match s with
  | EmptyString => false
  | String c _ => match Ascii.is_nat c with Some _ => false | None => true end
  end.

(** ** main.cpp: the command line *)

Module main.

Record Options : Type := mkOptions {
  command : string;
  inputPath : string;
  format : string;
  outputFolder : string;
  verbose : bool;
  showGsRegisters : bool;
  pictureIndex : Z;
  mipLevel : Z;
  maxWidth : Z
}.

(** [Options opts;] with the default member initialisers. *)
Definition Options_default : Options :=
  mkOptions "" "" "bmp" "" false false (-1) 0 80.

Definition set_format (opts : Options) (v : string) : Options :=
  mkOptions (command opts) (inputPath opts) v (outputFolder opts)
    (verbose opts) (showGsRegisters opts) (pictureIndex opts) (mipLevel opts)
    (maxWidth opts).

Definition set_outputFolder (opts : Options) (v : string) : Options :=
  mkOptions (command opts) (inputPath opts) (format opts) v (verbose opts)
    (showGsRegisters opts) (pictureIndex opts) (mipLevel opts)
    (maxWidth opts).

Definition set_verbose (opts : Options) (v : bool) : Options :=
  mkOptions (command opts) (inputPath opts) (format opts) (outputFolder opts)
    v (showGsRegisters opts) (pictureIndex opts) (mipLevel opts)
    (maxWidth opts).

Definition set_showGsRegisters (opts : Options) (v : bool) : Options :=
  mkOptions (command opts) (inputPath opts) (format opts) (outputFolder opts)
    (verbose opts) v (pictureIndex opts) (mipLevel opts) (maxWidth opts).

Definition set_pictureIndex (opts : Options) (v : Z) : Options :=
  mkOptions (command opts) (inputPath opts) (format opts) (outputFolder opts)
    (verbose opts) (showGsRegisters opts) v (mipLevel opts) (maxWidth opts).

Definition set_mipLevel (opts : Options) (v : Z) : Options :=
  mkOptions (command opts) (inputPath opts) (format opts) (outputFolder opts)
    (verbose opts) (showGsRegisters opts) (pictureIndex opts) v
    (maxWidth opts).

Definition set_maxWidth (opts : Options) (v : Z) : Options :=
  mkOptions (command opts) (inputPath opts) (format opts) (outputFolder opts)
    (verbose opts) (showGsRegisters opts) (pictureIndex opts) (mipLevel opts)
    v.

Section CommandLine.

(** [std::stoi]: the value, or [None] where it throws. *)
Variable stoi : string -> option Z.

(** The last branch of the loop body: an argument that is no option is the
    format when it is [argv[3]] of an export or a batch, and is dropped
    otherwise. *)
Definition positional (opts : Options) (arg : string) (i : Z) : Options :=
  if (String.eqb (command opts) "export" || String.eqb (command opts) "batch")
     && (i =? 3)
  then set_format opts arg else opts.

(** The loop of [parseArguments] at index [i], [rest] being [argv[i]] to
    [argv[argc - 1]]; [None] when [std::stoi] throws, which nothing
    catches. *)
Fixpoint parseArguments_loop (rest : list string) (i : Z) (opts : Options)
  : option Options :=
  match rest with
  | [] => Some opts
  | arg :: rest' =>
      if String.eqb arg "-v" || String.eqb arg "--verbose" then
        parseArguments_loop rest' (i + 1) (set_verbose opts true)
      else if String.eqb arg "-g" || String.eqb arg "--gs-registers" then
        parseArguments_loop rest' (i + 1) (set_showGsRegisters opts true)
      else
        match rest' with
        | value :: rest'' =>
            if String.eqb arg "-o" || String.eqb arg "--output" then
              parseArguments_loop rest'' (i + 2) (set_outputFolder opts value)
            else if String.eqb arg "-p" || String.eqb arg "--picture" then
              n ← stoi value;
              parseArguments_loop rest'' (i + 2) (set_pictureIndex opts n)
            else if String.eqb arg "-m" || String.eqb arg "--miplevel" then
              n ← stoi value;
              parseArguments_loop rest'' (i + 2) (set_mipLevel opts n)
            else if String.eqb arg "-w" || String.eqb arg "--width" then
              n ← stoi value;
              parseArguments_loop rest'' (i + 2) (set_maxWidth opts n)
            else parseArguments_loop rest' (i + 1) (positional opts arg i)
        | [] => parseArguments_loop rest' (i + 1) (positional opts arg i)
        end
  end.

(** [parseArguments(argc, argv)] with [argv] as a list of [argc] strings. *)
Definition parseArguments (argv : list string) : option Options :=
  match argv with
  | _ :: command :: inputPath :: rest =>
      parseArguments_loop rest 3
        (mkOptions command inputPath "bmp" "" false false (-1) 0 80)
  | _ => Some Options_default
  end.

End CommandLine.

End main.

(** The arguments that the loop of [parseArguments] takes for a flag. *)
Definition isFlag (arg : string) : bool :=
  (String.eqb arg "-v" || String.eqb arg "--verbose")
  || (String.eqb arg "-g" || String.eqb arg "--gs-registers").

(** The arguments that the loop of [parseArguments] takes for an option
    with a value, when a value follows. *)
Definition isValueOption (arg : string) : bool :=
  (String.eqb arg "-o" || String.eqb arg "--output")
  || (String.eqb arg "-p" || String.eqb arg "--picture")
  || (String.eqb arg "-m" || String.eqb arg "--miplevel")
  || (String.eqb arg "-w" || String.eqb arg "--width").

(** What [parseArguments] makes of [argv[3]], the first argument after the
    input path: it is the export format when the command is "export" or
    "batch" and the argument is not taken as an option. *)
Definition formatArgument (command : string) (rest : list string) : string :=
  match rest with
  | arg :: more =>
      if (String.eqb command "export" || String.eqb command "batch")
         && negb (isFlag arg)
         && negb (isValueOption arg && negb (bool_decide (more = [])))
      then arg else "bmp"
  | [] => "bmp"
  end.

(** A [std::stoi] for the witnesses: one decimal digit, nothing else. *)
Definition stoi_digit (s : string) : option Z :=
  match s with
  | String c EmptyString => Z.of_nat <$> Ascii.is_nat c
  | _ => None
  end.


(** ** Where the blobs lie in the file *)

(** [blob], when it is declared with a positive [size], is the [size] bytes
    of the file at an offset that is a multiple of [alignment]. *)
Definition alignedSegment (alignment : Z) (bytes blob : list byte) (size : Z)
  : Prop :=
  0 < size ->
  exists off : Z,
    0 <= off /\ off mod alignment = 0
    /\ off + size <= Z.of_nat (length bytes)
    /\ blob = take (Z.to_nat size) (drop (Z.to_nat off) bytes).

(** The image blob and the CLUT blob of [pic] both start at a multiple of
    [alignment]. *)
Definition blobsAligned (alignment : Z) (bytes : list byte) (pic : Picture)
  : Prop :=
  alignedSegment alignment bytes (imageData pic) (imageSize (header pic))
  /\ alignedSegment alignment bytes (clutData pic) (clutSize (header pic)).
(** * Properties *)

(** ** Basic facts about outcomes and raw reads *)

Lemma bind_Ok {A B : Type} (f : A -> outcome B) (m : outcome A) (v : B) :
  m ≫= f = Ok v -> exists x, m = Ok x /\ f x = Ok v.
Proof. destruct m as [x|]; simpl; [eauto | discriminate]. Qed.

Lemma u8_range (c : byte) : 0 <= u8 c < 256.
Proof. unfold u8. pose proof (Byte.to_N_bounded c). lia. Qed.

Lemma byteAt_Ok (data : list byte) (i : Z) :
  0 <= i < Z.of_nat (length data) -> exists v, byteAt data i = Ok v.
Proof.
  intros Hi. unfold byteAt.
  destruct (Z.ltb_spec i 0) as [|_]; [lia |].
  destruct (lookup_lt_is_Some_2 data (Z.to_nat i)) as [c Hc]; [lia |].
  rewrite Hc. eauto.
Qed.

Lemma byteAt_range (data : list byte) (i v : Z) :
  byteAt data i = Ok v -> 0 <= v < 256.
Proof.
  unfold byteAt. destruct (i <? 0); [discriminate |].
  destruct (data !! Z.to_nat i) as [c|]; [| discriminate].
  intros [= <-]. apply u8_range.
Qed.

Lemma u16At_Ok (data : list byte) (i : Z) :
  0 <= i -> i + 2 <= Z.of_nat (length data) -> exists v, u16At data i = Ok v.
Proof.
  intros H0 H2. unfold u16At.
  destruct (byteAt_Ok data i) as [lo ->]; [lia |].
  destruct (byteAt_Ok data (i + 1)) as [hi ->]; [lia |].
  simpl. eauto.
Qed.

Lemma shiftRightInt_Ok (v level : Z) :
  level < 32 -> shiftRightInt v level = Ok (Z.shiftr v level).
Proof.
  intros H. unfold shiftRightInt.
  destruct (Z.ltb_spec level 32); [reflexivity | lia].
Qed.

Lemma getMipMapWidth_Ok (p : Picture) (level : Z) :
  level < 32 ->
  getMipMapWidth p level = Ok (Z.max 1 (Z.shiftr (imageWidth (header p)) level)).
Proof. intros H. unfold getMipMapWidth. by rewrite shiftRightInt_Ok. Qed.

Lemma getMipMapHeight_Ok (p : Picture) (level : Z) :
  level < 32 ->
  getMipMapHeight p level
  = Ok (Z.max 1 (Z.shiftr (imageHeight (header p)) level)).
Proof. intros H. unfold getMipMapHeight. by rewrite shiftRightInt_Ok. Qed.

(** ** Mip level out of range *)

(** C6. A request for a mip level at or above the declared level count
    (equality included) makes [decodeImage] return the empty sequence; the
    call is a plain value, not a fault, and no byte of the picture is read. *)
Theorem decodeImage_level_out_of_range (p : Picture) (mipLevel : Z) :
  mipMapTextures (header p) <= mipLevel ->
  decodeImage p mipLevel = Ok [].
Proof.
  intros H. unfold decodeImage.
  destruct (Z.leb_spec (mipMapTextures (header p)) mipLevel); [done | lia].
Qed.

Lemma decodeImage_level_out_of_range_witness :
  mipMapTextures (header pic_rgb32_2x1) <= 1
  /\ decodeImage pic_rgb32_2x1 1 = Ok [].
Proof.
  split; [simpl; lia |].
  apply (decodeImage_level_out_of_range pic_rgb32_2x1 1). simpl. lia.
Defined.

(** ** The CLUT decoder *)

Lemma compoundSwap_local (i : Z) :
  (8 <= i mod 32 < 16 -> compoundSwap i = i + 8)
  /\ (16 <= i mod 32 < 24 -> compoundSwap i = i - 8)
  /\ (~ 8 <= i mod 32 < 24 -> compoundSwap i = i).
Proof.
  unfold compoundSwap. cbv zeta.
  repeat split; intros H;
    repeat (match goal with
            | |- context [?a <=? ?b] => destruct (Z.leb_spec a b)
            | |- context [?a <? ?b] => destruct (Z.ltb_spec a b)
            end; simpl); lia.
Qed.

Lemma compoundSwap_mod (i : Z) :
  compoundSwap i mod 32 = compoundSwap (i mod 32)
  /\ compoundSwap i / 32 = i / 32.
Proof.
  pose proof (Z.mod_pos_bound i 32 ltac:(lia)) as Hb.
  pose proof (Z.div_mod i 32 ltac:(lia)) as Hd.
  destruct (compoundSwap_local i) as (H1 & H2 & H3).
  destruct (compoundSwap_local (i mod 32)) as (L1 & L2 & L3).
  rewrite Zmod_mod in L1, L2, L3.
  assert (Hcases : 8 <= i mod 32 < 16 \/ 16 <= i mod 32 < 24
                   \/ ~ 8 <= i mod 32 < 24) by lia.
  destruct Hcases as [C | [C | C]].
  - rewrite (H1 C), (L1 C). split.
    + symmetry. apply (Z.mod_unique _ _ (i / 32)); lia.
    + symmetry. apply (Z.div_unique _ _ _ (i mod 32 + 8)); lia.
  - rewrite (H2 C), (L2 C). split.
    + symmetry. apply (Z.mod_unique _ _ (i / 32)); lia.
    + symmetry. apply (Z.div_unique _ _ _ (i mod 32 - 8)); lia.
  - rewrite (H3 C), (L3 C). by split.
Qed.

Lemma compoundSwap_involutive (i : Z) : compoundSwap (compoundSwap i) = i.
Proof.
  destruct (compoundSwap_mod i) as [Hm _].
  destruct (compoundSwap_local i) as (H1 & H2 & H3).
  destruct (compoundSwap_local (compoundSwap i)) as (S1 & S2 & S3).
  destruct (compoundSwap_local (i mod 32)) as (L1 & L2 & L3).
  rewrite Zmod_mod in L1, L2, L3. rewrite Hm in S1, S2, S3.
  assert (Hcases : 8 <= i mod 32 < 16 \/ 16 <= i mod 32 < 24
                   \/ ~ 8 <= i mod 32 < 24) by lia.
  destruct Hcases as [C | [C | C]].
  - rewrite (L1 C) in S2. rewrite S2 by lia. rewrite (H1 C). lia.
  - rewrite (L2 C) in S1. rewrite S1 by lia. rewrite (H2 C). lia.
  - rewrite (L3 C) in S3. rewrite S3 by lia. apply (H3 C).
Qed.

(** The source's remap, which rebuilds the index from block and local
    position, is the swap of the format description. *)
Lemma clutIndex_compound (h : PictureHeader) (i : Z) :
  isClutCSM2 h = false -> isClutCompound h = true ->
  clutIndex h i = compoundSwap i.
Proof.
  intros H2 Hc. unfold clutIndex, compoundSwap. rewrite H2, Hc. cbv zeta.
  pose proof (Z.div_mod i 32 ltac:(lia)) as Hd. simpl.
  repeat (match goal with
          | |- context [?a <=? ?b] => destruct (Z.leb_spec a b)
          | |- context [?a <? ?b] => destruct (Z.ltb_spec a b)
          end; simpl); lia.
Qed.

Lemma clutIndex_declared_order (h : PictureHeader) (i : Z) :
  isClutCSM2 h = true \/ isClutCompound h = false -> clutIndex h i = i.
Proof.
  intros [H | H]; unfold clutIndex; rewrite H; simpl; [done |].
  by rewrite andb_false_r.
Qed.

Lemma clutIndex_nonneg (h : PictureHeader) (i : Z) :
  0 <= i -> 0 <= clutIndex h i.
Proof.
  intros Hi.
  destruct (isClutCSM2 h) eqn:H2; [rewrite clutIndex_declared_order; auto |].
  destruct (isClutCompound h) eqn:Hc;
    [| rewrite clutIndex_declared_order; auto].
  rewrite clutIndex_compound by done.
  destruct (compoundSwap_mod i) as [_ Hdiv].
  pose proof (Z.div_mod (compoundSwap i) 32 ltac:(lia)) as Hd.
  pose proof (Z.mod_pos_bound (compoundSwap i) 32 ltac:(lia)).
  assert (0 <= i / 32) by (apply Z.div_pos; lia). lia.
Qed.

Lemma clutEntry_in_bounds (fmt : PixelFormat) (data : list byte) (index : Z) :
  0 <= index ->
  (index + 1) * clutEntryBytes fmt <= Z.of_nat (length data) ->
  exists c, clutEntry fmt data index = Ok c.
Proof.
  intros H0 Hb. unfold clutEntry.
  destruct fmt; simpl in Hb; eauto.
  - destruct (u16At_Ok data (index * 2)) as [v ->]; [lia | lia |].
    simpl. eauto.
  - destruct (byteAt_Ok data (index * 3 + 0)) as [v0 ->]; [lia |].
    destruct (byteAt_Ok data (index * 3 + 1)) as [v1 ->]; [lia |].
    destruct (byteAt_Ok data (index * 3 + 2)) as [v2 ->]; [lia |].
    simpl. eauto.
  - destruct (byteAt_Ok data (index * 4 + 0)) as [v0 ->]; [lia |].
    destruct (byteAt_Ok data (index * 4 + 1)) as [v1 ->]; [lia |].
    destruct (byteAt_Ok data (index * 4 + 2)) as [v2 ->]; [lia |].
    destruct (byteAt_Ok data (index * 4 + 3)) as [v3 ->]; [lia |].
    simpl. eauto.
Qed.

(** What the loop has pushed when it returns: the colours it started with,
    then one decoded entry per iteration. *)
Lemma getClutColors_loop_Ok (p : Picture) (n : nat) :
  forall (i : Z) (acc colors : list Color32),
  getClutColors_loop p n i acc = Ok colors ->
  length colors = (length acc + n)%nat
  /\ (forall k, (k < length acc)%nat -> colors !! k = acc !! k)
  /\ (forall k, (k < n)%nat ->
        exists c,
          clutEntry (getClutPixelFormat (header p)) (clutData p)
            (clutIndex (header p) (i + Z.of_nat k)) = Ok c
          /\ colors !! (length acc + k)%nat = Some c).
Proof.
  induction n as [|n IH]; intros i acc colors Hrun; simpl in Hrun.
  - injection Hrun as <-. split; [lia |]. split; [done |]. intros k Hk. lia.
  - apply bind_Ok in Hrun as (c & Hc & Hrun).
    apply IH in Hrun as (Hlen & Hpre & Hnew).
    rewrite length_app in Hlen, Hpre, Hnew. simpl in *.
    split; [lia |]. split.
    + intros k Hk. rewrite Hpre by lia. by rewrite lookup_app_l.
    + intros [|k] Hk.
      * exists c. rewrite Z.add_0_r. split; [done |].
        rewrite Hpre by lia. rewrite Nat.add_0_r.
        by rewrite lookup_app_r, Nat.sub_diag.
      * destruct (Hnew k ltac:(lia)) as (c' & Hc' & Hk').
        exists c'. split.
        -- rewrite <- Hc'. f_equal. f_equal. lia.
        -- rewrite <- Hk'. f_equal. lia.
Qed.

Lemma getClutColors_loop_runs (p : Picture) (n : nat) :
  forall (i : Z) (acc : list Color32),
  (forall k, (k < n)%nat ->
     exists c, clutEntry (getClutPixelFormat (header p)) (clutData p)
                 (clutIndex (header p) (i + Z.of_nat k)) = Ok c) ->
  exists colors, getClutColors_loop p n i acc = Ok colors.
Proof.
  induction n as [|n IH]; intros i acc Hall; simpl; [eauto |].
  destruct (Hall O ltac:(lia)) as [c Hc]. rewrite Z.add_0_r in Hc.
  rewrite Hc. simpl. apply IH. intros k Hk.
  destruct (Hall (S k) ltac:(lia)) as [c' Hc']. exists c'.
  rewrite <- Hc'. do 2 f_equal. lia.
Qed.

Lemma getClutColors_in_bounds (p : Picture) :
  clutInBounds p -> exists colors, getClutColors p = Ok colors.
Proof.
  intros Hb. unfold getClutColors.
  destruct (hasClut (header p)); simpl; [| eauto].
  apply getClutColors_loop_runs. intros k Hk.
  apply clutEntry_in_bounds.
  - apply clutIndex_nonneg. lia.
  - apply Hb. lia.
Qed.

Lemma getClutColors_entries (p : Picture) (colors : list Color32) :
  getClutColors p = Ok colors -> hasClut (header p) = true ->
  length colors = Z.to_nat (clutColors (header p))
  /\ (forall i, 0 <= i < clutColors (header p) ->
        exists c,
          clutEntry (getClutPixelFormat (header p)) (clutData p)
            (clutIndex (header p) i) = Ok c
          /\ colors !! Z.to_nat i = Some c).
Proof.
  intros Hrun Hclut. unfold getClutColors in Hrun. rewrite Hclut in Hrun.
  simpl in Hrun. apply getClutColors_loop_Ok in Hrun as (Hlen & _ & Hnew).
  split; [done |]. intros i Hi.
  destruct (Hnew (Z.to_nat i) ltac:(lia)) as (c & Hc & Hk).
  exists c. simpl in Hc, Hk. rewrite Z2Nat.id in Hc by lia. done.
Qed.

Lemma pic_compound_clut_in_bounds : clutInBounds pic_compound_clut.
Proof.
  intros i Hi. simpl in Hi.
  rewrite clutIndex_compound by reflexivity.
  destruct (compoundSwap_mod i) as [_ Hdiv].
  pose proof (Z.div_mod (compoundSwap i) 32 ltac:(lia)).
  pose proof (Z.mod_pos_bound (compoundSwap i) 32 ltac:(lia)).
  assert (i / 32 = 0) by (apply Z.div_small; lia).
  change (clutEntryBytes _) with 4.
  change (Z.of_nat (length (clutData pic_compound_clut))) with 128. lia.
Qed.

(** C4. When the CLUT is CSM1 and compound, entry [i] of [getClutColors]
    is the colour stored at the index obtained by swapping, inside [i]'s
    block of 32, the ranges [8,16) and [16,24) (plus or minus 8) and leaving
    the other positions alone; the swap is its own inverse and stays in the
    block, hence a permutation of each block; for CSM2 and for CSM1 without
    the compound flag entry [i] is read at index [i]. *)
Theorem getClutColors_compound_remap (p : Picture) (i : Z) :
  hasClut (header p) = true ->
  clutInBounds p ->
  0 <= i < clutColors (header p) ->
  let h := header p in
  let source :=
    if negb (isClutCSM2 h) && isClutCompound h then compoundSwap i else i in
  (exists colors c,
     getClutColors p = Ok colors
     /\ clutEntry (getClutPixelFormat h) (clutData p) source = Ok c
     /\ colors !! Z.to_nat i = Some c)
  /\ compoundSwap (compoundSwap i) = i
  /\ compoundSwap i / 32 = i / 32
  /\ (8 <= i mod 32 < 16 -> compoundSwap i = i + 8)
  /\ (16 <= i mod 32 < 24 -> compoundSwap i = i - 8)
  /\ (~ 8 <= i mod 32 < 24 -> compoundSwap i = i).
Proof.
  intros Hclut Hb Hi h source.
  destruct (getClutColors_in_bounds p Hb) as [colors Hrun].
  destruct (getClutColors_entries p colors Hrun Hclut) as [_ Hent].
  destruct (Hent i Hi) as (c & Hc & Hk).
  destruct (compoundSwap_local i) as (L1 & L2 & L3).
  destruct (compoundSwap_mod i) as [_ Hdiv].
  split; [| by auto using compoundSwap_involutive].
  exists colors, c. split; [done |]. split; [| done].
  rewrite <- Hc. f_equal. subst source h.
  destruct (isClutCSM2 (header p)) eqn:H2; simpl.
  - symmetry. apply clutIndex_declared_order. by left.
  - destruct (isClutCompound (header p)) eqn:Hcomp.
    + symmetry. by apply clutIndex_compound.
    + symmetry. apply clutIndex_declared_order. by right.
Qed.

Lemma getClutColors_compound_remap_witness :
  exists colors,
    getClutColors pic_compound_clut = Ok colors
    /\ colors !! 9%nat = Some (mkColor32 17 117 200 255)
    /\ colors !! 17%nat = Some (mkColor32 9 109 200 255)
    /\ colors !! 3%nat = Some (mkColor32 3 103 200 255).
Proof.
  pose proof (getClutColors_compound_remap pic_compound_clut) as H.
  assert (Hclut : hasClut (header pic_compound_clut) = true) by reflexivity.
  pose proof pic_compound_clut_in_bounds as Hb.
  destruct (H 9 Hclut Hb ltac:(simpl; lia)) as [(colors & c9 & Hrun & Hc9 & Hk9) _].
  destruct (H 17 Hclut Hb ltac:(simpl; lia))
    as [(colors17 & c17 & Hrun17 & Hc17 & Hk17) _].
  destruct (H 3 Hclut Hb ltac:(simpl; lia))
    as [(colors3 & c3 & Hrun3 & Hc3 & Hk3) _].
  rewrite Hrun in Hrun17, Hrun3.
  injection Hrun17 as <-. injection Hrun3 as <-.
  vm_compute in Hc9, Hc17, Hc3.
  injection Hc9 as <-. injection Hc17 as <-. injection Hc3 as <-.
  exists colors. by conj_split.
Defined.

(** ** RGB16 *)

Lemma forall_bits_sound (n : nat) (check : Z -> bool) :
  forall v, forall_bits n check v = true ->
  forall w, v * 2 ^ Z.of_nat n <= w < (v + 1) * 2 ^ Z.of_nat n ->
  check w = true.
Proof.
  induction n as [|n IH]; intros v Hall w Hw; simpl in Hall.
  - simpl in Hw. by replace w with v by lia.
  - apply andb_prop in Hall as [H0 H1].
    rewrite Nat2Z.inj_succ, Z.pow_succ_r in Hw by lia.
    destruct (Z.lt_ge_cases w ((2 * v + 1) * 2 ^ Z.of_nat n)).
    + apply (IH (2 * v) H0). lia.
    + apply (IH (2 * v + 1) H1). lia.
Qed.

Lemma color32_eqb_eq (c d : Color32) : color32_eqb c d = true -> c = d.
Proof.
  destruct c, d. unfold color32_eqb. simpl. intros H.
  repeat (apply andb_prop in H as [H ?]).
  f_equal; by apply Z.eqb_eq.
Qed.

(** The masks and merged shifts of [Color16::toColor32] against the rule
    "extract the channel, then widen it", checked on all 65536 values. *)
Lemma toColor32_rgb16Color (v : Z) :
  0 <= v < 65536 -> toColor32 v = rgb16Color v.
Proof.
  intros Hv. apply color32_eqb_eq.
  apply (forall_bits_sound 16
           (fun v => color32_eqb (toColor32 v) (rgb16Color v)) 0).
  - vm_compute. reflexivity.
  - change (2 ^ Z.of_nat 16) with 65536. lia.
Qed.

Lemma land_shiftl_8 (lo hi : Z) :
  0 <= lo < 256 -> Z.land lo (Z.shiftl hi 8) = 0.
Proof.
  intros Hlo. apply Z.bits_inj'. intros n Hn.
  rewrite Z.land_spec, Z.bits_0.
  destruct (Z.lt_ge_cases n 8) as [Hlt | Hge].
  - rewrite (Z.shiftl_spec_low hi 8 n Hlt). apply andb_false_r.
  - assert (Hz : Z.testbit lo n = false).
    { apply Z.testbit_false; [done |].
      rewrite Z.div_small; [done |].
      split; [lia |].
      apply Z.lt_le_trans with (2 ^ 8); [simpl; lia |].
      apply Z.pow_le_mono_r; lia. }
    by rewrite Hz.
Qed.

(** The 16-bit read takes the low byte first. *)
Lemma u16At_little_endian (data : list byte) (i lo hi : Z) :
  byteAt data i = Ok lo -> byteAt data (i + 1) = Ok hi ->
  u16At data i = Ok (lo + 256 * hi) /\ 0 <= lo + 256 * hi < 65536.
Proof.
  intros Hlo Hhi. unfold u16At. rewrite Hlo, Hhi. simpl.
  pose proof (byteAt_range _ _ _ Hlo). pose proof (byteAt_range _ _ _ Hhi).
  split; [| lia]. f_equal.
  pose proof (Z.add_lor_land lo (Z.shiftl hi 8)) as Hadd.
  rewrite land_shiftl_8 in Hadd by done.
  rewrite Z.shiftl_mul_pow2 in * by lia. change (2 ^ 8) with 256 in *. lia.
Qed.

(** C7. A 16-bit RGB16 value, read low byte first, decodes to R from bits
    [0,5), G from bits [5,10), B from bits [10,15), each 5-bit channel
    widened to 8 bits by a left shift of 3 with its top 3 bits repeated
    below, and alpha 255 when bit 15 is set and 0 otherwise.  Image pixels
    of an RGB16 picture and entries of an RGB16 CLUT both go through it:
    [getPixelColor] returns that colour for the pixel stored at the two
    bytes, and [getClutColors], on a CLUT whose entries lie inside the blob,
    returns a palette that holds that colour at the entry stored there. *)
Theorem rgb16_decode (data : list byte) (i lo hi : Z) :
  byteAt data i = Ok lo ->
  byteAt data (i + 1) = Ok hi ->
  let v := lo + 256 * hi in
  u16At data i = Ok v
  /\ toColor32 v = rgb16Color v
  /\ (forall p x y mipLevel width,
        imageData p = data ->
        getImagePixelFormat (header p) = TIM2_RGB16 ->
        getMipMapWidth p mipLevel = Ok width ->
        getImageOffset p mipLevel + (y * width + x) * 2 = i ->
        getPixelColor p x y mipLevel = Ok (rgb16Color v))
  /\ (forall index,
        index * 2 = i ->
        clutEntry TIM2_RGB16 data index = Ok (rgb16Color v))
  /\ (forall p k,
        clutData p = data ->
        hasClut (header p) = true ->
        getClutPixelFormat (header p) = TIM2_RGB16 ->
        clutInBounds p ->
        0 <= k < clutColors (header p) ->
        clutIndex (header p) k * 2 = i ->
        exists colors,
          getClutColors p = Ok colors
          /\ length colors = Z.to_nat (clutColors (header p))
          /\ colors !! Z.to_nat k = Some (rgb16Color v)).
Proof.
  intros Hlo Hhi v.
  destruct (u16At_little_endian data i lo hi Hlo Hhi) as [Hread Hv].
  fold v in Hread, Hv.
  pose proof (toColor32_rgb16Color v Hv) as Hcol.
  assert (Hentry : forall index, index * 2 = i ->
            clutEntry TIM2_RGB16 data index = Ok (rgb16Color v)).
  { intros index Hidx. unfold clutEntry. rewrite Hidx, Hread. simpl.
    by rewrite Hcol. }
  split; [done |]. split; [done |]. split; [| split; [exact Hentry |]].
  - intros p x y mipLevel width Hdata Hfmt Hw Hidx.
    unfold getPixelColor. rewrite Hw, Hfmt. simpl.
    rewrite Hdata, Hidx, Hread. simpl. by rewrite Hcol.
  - intros p k Hdata Hclut Hfmt Hb Hk Hidx.
    destruct (getClutColors_in_bounds p Hb) as [colors Hrun].
    destruct (getClutColors_entries p colors Hrun Hclut) as [Hlen Hent].
    destruct (Hent k Hk) as (c & Hc & Hlook).
    rewrite Hfmt, Hdata, (Hentry _ Hidx) in Hc.
    exists colors. split; [done |]. split; [done |]. congruence.
Qed.

Lemma pic_rgb16_clut_in_bounds : clutInBounds pic_rgb16_clut.
Proof.
  intros i Hi. rewrite clutIndex_declared_order by (by right).
  change (clutColors (header pic_rgb16_clut)) with 2 in Hi.
  change (clutEntryBytes _) with 2.
  change (Z.of_nat (length (clutData pic_rgb16_clut))) with 4. lia.
Qed.

Lemma rgb16_decode_witness :
  getPixelColor pic_rgb16_2x1 0 0 0 = Ok (mkColor32 0 255 0 255)
  /\ rgb16Color 0x83E0 = mkColor32 0 255 0 255
  /\ (exists colors,
        getClutColors pic_rgb16_clut = Ok colors
        /\ length colors = 2%nat
        /\ colors !! 1%nat = Some (mkColor32 255 0 0 0)).
Proof.
  split; [| split; [reflexivity |]].
  - destruct (rgb16_decode (imageData pic_rgb16_2x1) 0 0xE0 0x83)
      as (_ & _ & Hpix & _); [reflexivity | reflexivity |].
    apply (Hpix pic_rgb16_2x1 0 0 0 2); reflexivity.
  - destruct (rgb16_decode (clutData pic_rgb16_clut) 2 0x1F 0x00)
      as (_ & _ & _ & _ & Hclut); [reflexivity | reflexivity |].
    apply (Hclut pic_rgb16_clut 1);
      [reflexivity | reflexivity | reflexivity
      | exact pic_rgb16_clut_in_bounds | simpl; lia | reflexivity].
Defined.

(** ** IDTEX4 *)

Lemma land_1_even (n : Z) : (Z.land n 1 =? 0) = Z.even n.
Proof.
  change 1 with (Z.ones 1) at 1. rewrite Z.land_ones by lia.
  rewrite Zeven_mod. change (2 ^ 1) with 2. reflexivity.
Qed.

(** C8. In an IDTEX4 image each byte carries two pixels: the pixel with an
    even index [y*width+x] takes the low nibble as its palette index and
    the pixel with an odd index the high nibble; the byte 0xAB gives index
    0xB to the even pixel and 0xA to the odd one. *)
Theorem idtex4_nibbles (p : Picture) (x y mipLevel width packed : Z)
    (colors : list Color32) :
  getImagePixelFormat (header p) = TIM2_IDTEX4 ->
  hasClut (header p) = true ->
  getMipMapWidth p mipLevel = Ok width ->
  byteAt (imageData p) (getImageOffset p mipLevel + (y * width + x) / 2)
  = Ok packed ->
  getClutColors p = Ok colors ->
  let pixelIdx := y * width + x in
  getPixelColor p x y mipLevel
  = Ok (lookupColor colors
          (if Z.even pixelIdx then packed mod 16 else packed / 16))
  /\ (packed = 0xAB ->
      getPixelColor p x y mipLevel
      = Ok (lookupColor colors (if Z.even pixelIdx then 0xB else 0xA))).
Proof.
  intros Hfmt Hclut Hw Hbyte Hcols pixelIdx.
  assert (Hpix : getPixelColor p x y mipLevel
                 = Ok (lookupColor colors
                         (if Z.even pixelIdx then packed mod 16
                          else packed / 16))).
  { subst pixelIdx. unfold getPixelColor. rewrite Hw, Hfmt. simpl.
    rewrite Hclut, Hbyte. simpl. rewrite Hcols. simpl.
    rewrite land_1_even. do 2 f_equal.
    destruct (Z.even (y * width + x)).
    - change 15 with (Z.ones 4). by rewrite Z.land_ones by lia.
    - by rewrite Z.shiftr_div_pow2 by lia. }
  split; [exact Hpix |].
  intros ->. rewrite Hpix. by destruct (Z.even pixelIdx).
Qed.

Lemma idtex4_nibbles_witness :
  getPixelColor pic_idtex4_AB 0 0 0 = Ok (mkColor32 0xB 111 200 255)
  /\ getPixelColor pic_idtex4_AB 1 0 0 = Ok (mkColor32 0xA 110 200 255).
Proof.
  destruct (getClutColors pic_idtex4_AB) as [colors|] eqn:Hcols;
    [| vm_compute in Hcols; discriminate].
  pose proof (idtex4_nibbles pic_idtex4_AB 0 0 0 2 0xAB colors
                eq_refl eq_refl eq_refl eq_refl Hcols) as [_ H0].
  pose proof (idtex4_nibbles pic_idtex4_AB 1 0 0 2 0xAB colors
                eq_refl eq_refl eq_refl eq_refl Hcols) as [_ H1].
  vm_compute in Hcols. injection Hcols as <-.
  split; [exact (H0 eq_refl) | exact (H1 eq_refl)].
Defined.

(** ** The size of the decoded CLUT *)

(** C10, as the code has it. Without CLUT [getClutColors] returns the empty
    sequence; with a CLUT whose addressed entries lie inside the CLUT blob it
    returns exactly [clutColors] entries, whatever the CLUT mode and entry
    format; so a returned sequence is empty exactly when there is no CLUT or
    the CLUT declares no colours. *)
Theorem getClutColors_size (p : Picture) :
  (hasClut (header p) = false -> getClutColors p = Ok [])
  /\ (hasClut (header p) = true -> clutInBounds p ->
      exists colors, getClutColors p = Ok colors
                     /\ length colors = Z.to_nat (clutColors (header p)))
  /\ (forall colors, getClutColors p = Ok colors ->
        (colors = [] <->
         hasClut (header p) = false \/ clutColors (header p) <= 0)).
Proof.
  repeat split.
  - intros H. unfold getClutColors. by rewrite H.
  - intros Hclut Hb.
    destruct (getClutColors_in_bounds p Hb) as [colors Hrun].
    exists colors. split; [done |].
    by apply (getClutColors_entries p colors Hrun).
  - intros ->. destruct (hasClut (header p)) eqn:Hclut; [| by left].
    right. destruct (getClutColors_entries p [] H Hclut) as [Hlen _].
    simpl in Hlen. lia.
  - intros [Hno | Hzero].
    + unfold getClutColors in H. rewrite Hno in H. simpl in H. congruence.
    + destruct (hasClut (header p)) eqn:Hclut.
      * destruct (getClutColors_entries p colors H Hclut) as [Hlen _].
        apply length_zero_iff_nil. lia.
      * unfold getClutColors in H. rewrite Hclut in H. simpl in H.
        congruence.
Qed.

Lemma getClutColors_size_witness :
  exists colors, getClutColors pic_compound_clut = Ok colors
                 /\ length colors = 32%nat.
Proof.
  destruct (getClutColors_size pic_compound_clut) as (_ & Hsome & _).
  apply Hsome; [reflexivity | exact pic_compound_clut_in_bounds].
Defined.

(** C10 as stated fails: a picture can have a CLUT ([clutSize] positive,
    CLUT format RGB32) that declares zero colours, and then the decoded
    CLUT is empty although [hasClut] holds. *)
Lemma getClutColors_empty_with_clut :
  hasClut (header pic_clut_no_colors) = true
  /\ getClutColors pic_clut_no_colors = Ok [].
Proof. split; reflexivity. Qed.

(** ** The size of a decoded level *)

Lemma getPixelColor_in_bounds (p : Picture) (x y mipLevel width height : Z) :
  getMipMapWidth p mipLevel = Ok width ->
  levelInBounds p mipLevel width height ->
  0 <= x < width -> 0 <= y < height ->
  exists c, getPixelColor p x y mipLevel = Ok c.
Proof.
  intros Hw (Hoff & Hlen & Hclut) Hx Hy.
  assert (Hn : 0 <= y * width + x < width * height) by nia.
  set (n := y * width + x) in *. set (N := width * height) in *.
  set (off := getImageOffset p mipLevel) in *.
  unfold getPixelColor. rewrite Hw. simpl. fold off. fold n.
  unfold pixelBits in Hlen.
  destruct (getImagePixelFormat (header p)) eqn:Hfmt; simpl in *; eauto.
  - assert (Hb : off + n * 2 + 2 <= Z.of_nat (length (imageData p)))
      by (Z.to_euclidean_division_equations; lia).
    destruct (u16At_Ok (imageData p) (off + n * 2)) as [v ->]; [lia | lia |].
    simpl. eauto.
  - assert (Hb : off + n * 3 + 3 <= Z.of_nat (length (imageData p)))
      by (Z.to_euclidean_division_equations; lia).
    destruct (byteAt_Ok (imageData p) (off + (n * 3 + 0))) as [v0 ->]; [lia |].
    destruct (byteAt_Ok (imageData p) (off + (n * 3 + 1))) as [v1 ->]; [lia |].
    destruct (byteAt_Ok (imageData p) (off + (n * 3 + 2))) as [v2 ->]; [lia |].
    simpl. eauto.
  - assert (Hb : off + n * 4 + 4 <= Z.of_nat (length (imageData p)))
      by (Z.to_euclidean_division_equations; lia).
    destruct (byteAt_Ok (imageData p) (off + (n * 4 + 0))) as [v0 ->]; [lia |].
    destruct (byteAt_Ok (imageData p) (off + (n * 4 + 1))) as [v1 ->]; [lia |].
    destruct (byteAt_Ok (imageData p) (off + (n * 4 + 2))) as [v2 ->]; [lia |].
    destruct (byteAt_Ok (imageData p) (off + (n * 4 + 3))) as [v3 ->]; [lia |].
    simpl. eauto.
  - destruct (hasClut (header p)) eqn:Hc; simpl in *; [| eauto].
    assert (Hb : off + n / 2 + 1 <= Z.of_nat (length (imageData p)))
      by (Z.to_euclidean_division_equations; lia).
    assert (0 <= n / 2) by (apply Z.div_pos; lia).
    destruct (byteAt_Ok (imageData p) (off + n / 2)) as [v ->]; [lia |].
    destruct (getClutColors_in_bounds p) as [colors ->]; [auto |].
    simpl. eauto.
  - destruct (hasClut (header p)) eqn:Hc; simpl in *; [| eauto].
    assert (Hb : off + n + 1 <= Z.of_nat (length (imageData p)))
      by (Z.to_euclidean_division_equations; lia).
    destruct (byteAt_Ok (imageData p) (off + n)) as [v ->]; [lia |].
    destruct (getClutColors_in_bounds p) as [colors ->]; [auto |].
    simpl. eauto.
Qed.

Section DecodeLoops.

Variables (p : Picture) (mipLevel width : Z).

(** One row of [decodeImage]: the entries of the row are written, the
    others kept. *)
Lemma decodeImage_row_spec (y : Z) (n : nat) :
  forall (x : Z) (result : list Color32),
  0 <= y * width + x ->
  (Z.to_nat (y * width + x) + n <= length result)%nat ->
  (forall k, (k < n)%nat ->
     exists c, getPixelColor p (x + Z.of_nat k) y mipLevel = Ok c) ->
  exists result',
    decodeImage_row p mipLevel width y n x result = Ok result'
    /\ length result' = length result
    /\ (forall k, (k < n)%nat ->
          exists c, getPixelColor p (x + Z.of_nat k) y mipLevel = Ok c
                    /\ result' !! (Z.to_nat (y * width + x) + k)%nat = Some c)
    /\ (forall j, (j < Z.to_nat (y * width + x)
                   \/ Z.to_nat (y * width + x) + n <= j)%nat ->
          result' !! j = result !! j).
Proof.
  induction n as [|n IH]; intros x result H0 Hlen Hpix; simpl.
  - exists result. split; [done |]. split; [done |].
    split; [intros k Hk; lia | done].
  - destruct (Hpix O ltac:(lia)) as [c Hc]. rewrite Z.add_0_r in Hc.
    rewrite Hc. simpl.
    set (result1 := <[Z.to_nat (y * width + x) := c]> result).
    assert (Hidx : Z.to_nat (y * width + (x + 1))
                   = S (Z.to_nat (y * width + x))) by lia.
    destruct (IH (x + 1) result1) as (result' & Hrun & Hl & Hrow & Hrest).
    + lia.
    + subst result1. rewrite length_insert. lia.
    + intros k Hk. destruct (Hpix (S k) ltac:(lia)) as [c' Hc'].
      exists c'. rewrite <- Hc'. f_equal. lia.
    + exists result'. split; [exact Hrun |]. split.
      { rewrite Hl. subst result1. apply length_insert. }
      split.
      * intros [|k] Hk.
        -- exists c. rewrite Z.add_0_r, Nat.add_0_r. split; [done |].
           rewrite Hrest by lia. subst result1.
           apply list_lookup_insert_eq. lia.
        -- destruct (Hrow k ltac:(lia)) as (c' & Hc' & Hk').
           exists c'. split.
           ++ rewrite <- Hc'. f_equal. lia.
           ++ rewrite <- Hk'. f_equal. lia.
      * intros j Hj. rewrite Hrest by lia. subst result1.
        apply list_lookup_insert_ne. lia.
Qed.

(** The rows of [decodeImage] from [y] on. *)
Lemma decodeImage_rows_spec (m : nat) :
  forall (y : Z) (result : list Color32),
  0 < width -> 0 <= y ->
  (Z.to_nat ((y + Z.of_nat m) * width) <= length result)%nat ->
  (forall k x, (k < m)%nat -> 0 <= x < width ->
     exists c, getPixelColor p x (y + Z.of_nat k) mipLevel = Ok c) ->
  exists result',
    decodeImage_rows p mipLevel width m y result = Ok result'
    /\ length result' = length result
    /\ (forall k x, (k < m)%nat -> 0 <= x < width ->
          exists c,
            getPixelColor p x (y + Z.of_nat k) mipLevel = Ok c
            /\ result' !! Z.to_nat ((y + Z.of_nat k) * width + x) = Some c)
    /\ (forall j, (j < Z.to_nat (y * width))%nat ->
          result' !! j = result !! j).
Proof.
  induction m as [|m IH]; intros y result Hw Hy Hlen Hpix; simpl.
  - exists result. split; [done |]. split; [done |].
    split; [intros k x Hk; lia | done].
  - destruct (decodeImage_row_spec y (Z.to_nat width) 0 result)
      as (result1 & Hrun1 & Hl1 & Hrow1 & Hrest1).
    + nia.
    + assert (y * width + width <= (y + Z.of_nat (S m)) * width) by nia.
      assert (0 <= y * width) by nia. lia.
    + intros k Hk. destruct (Hpix O (0 + Z.of_nat k) ltac:(lia) ltac:(lia))
        as [c Hc]. exists c. rewrite <- Hc. f_equal. lia.
    + rewrite Hrun1. simpl.
      destruct (IH (y + 1) result1) as (result' & Hrun & Hl & Hrows & Hrest).
      * done.
      * lia.
      * rewrite Hl1.
        replace ((y + 1 + Z.of_nat m) * width)
          with ((y + Z.of_nat (S m)) * width) by lia. done.
      * intros k x Hk Hx.
        destruct (Hpix (S k) x ltac:(lia) Hx) as [c Hc]. exists c.
        rewrite <- Hc. f_equal. lia.
      * exists result'. split; [exact Hrun |]. split; [congruence |]. split.
        -- intros [|k] x Hk Hx.
           ++ destruct (Hrow1 (Z.to_nat x) ltac:(lia)) as (c & Hc & Hk1).
              exists c. rewrite Z.add_0_r. split.
              ** rewrite <- Hc. f_equal. lia.
              ** rewrite Hrest.
                 --- rewrite <- Hk1. f_equal. nia.
                 --- nia.
           ++ destruct (Hrows k x ltac:(lia) Hx) as (c & Hc & Hk').
              exists c. split.
              ** rewrite <- Hc. f_equal. lia.
              ** rewrite <- Hk'. do 2 f_equal. lia.
        -- intros j Hj. rewrite Hrest by nia. apply Hrest1. left.
           rewrite Z.add_0_r. lia.
Qed.

End DecodeLoops.

(** What [decodeImage] returns for a level in range whose pixels all
    decode. *)
Lemma decodeImage_pixels (p : Picture) (mipLevel : Z) :
  0 <= mipLevel < mipMapTextures (header p) ->
  mipLevel < 32 ->
  let width := Z.max 1 (Z.shiftr (imageWidth (header p)) mipLevel) in
  let height := Z.max 1 (Z.shiftr (imageHeight (header p)) mipLevel) in
  (forall x y, 0 <= x < width -> 0 <= y < height ->
     exists c, getPixelColor p x y mipLevel = Ok c) ->
  exists pixels,
    decodeImage p mipLevel = Ok pixels
    /\ Z.of_nat (length pixels) = width * height
    /\ (forall x y, 0 <= x < width -> 0 <= y < height ->
          exists c, getPixelColor p x y mipLevel = Ok c
                    /\ pixels !! Z.to_nat (y * width + x) = Some c).
Proof.
  intros Hlvl H32 width height Hpix.
  pose proof (getMipMapWidth_Ok p mipLevel H32) as Hw.
  pose proof (getMipMapHeight_Ok p mipLevel H32) as Hh.
  fold width in Hw. fold height in Hh.
  unfold decodeImage.
  destruct (Z.leb_spec (mipMapTextures (header p)) mipLevel) as [|_]; [lia |].
  rewrite Hw, Hh. simpl.
  destruct (decodeImage_rows_spec p mipLevel width (Z.to_nat height) 0
              (replicate (Z.to_nat (width * height)) Color32_default))
    as (pixels & Hrun & Hl & Hrows & _).
  - lia.
  - lia.
  - rewrite length_replicate.
    replace ((0 + Z.of_nat (Z.to_nat height)) * width) with (width * height)
      by lia. done.
  - intros k x Hk Hx. apply Hpix; lia.
  - exists pixels. split; [exact Hrun |]. split.
    + rewrite Hl, length_replicate. nia.
    + intros x y Hx Hy.
      destruct (Hrows (Z.to_nat y) x ltac:(lia) Hx) as (c & Hc & Hk).
      replace (0 + Z.of_nat (Z.to_nat y)) with y in Hc, Hk by lia.
      eauto.
Qed.

(** C5, as the code has it. For a mip level below the declared level count
    (and below 32, the width of the promoted [int] that is shifted), when
    the pixels of the level lie inside the image blob and the addressed CLUT
    entries inside the CLUT blob, [decodeImage] returns exactly
    [width*height] colours with [width = max(1, imageWidth >> level)] and
    [height = max(1, imageHeight >> level)], the colour of pixel (x,y) at
    position [y*width+x]. *)
Theorem decodeImage_size (p : Picture) (mipLevel : Z) :
  0 <= mipLevel < mipMapTextures (header p) ->
  mipLevel < 32 ->
  let width := Z.max 1 (Z.shiftr (imageWidth (header p)) mipLevel) in
  let height := Z.max 1 (Z.shiftr (imageHeight (header p)) mipLevel) in
  levelInBounds p mipLevel width height ->
  getMipMapWidth p mipLevel = Ok width
  /\ getMipMapHeight p mipLevel = Ok height
  /\ exists pixels,
       decodeImage p mipLevel = Ok pixels
       /\ Z.of_nat (length pixels) = width * height
       /\ (forall x y, 0 <= x < width -> 0 <= y < height ->
             exists c, getPixelColor p x y mipLevel = Ok c
                       /\ pixels !! Z.to_nat (y * width + x) = Some c).
Proof.
  intros Hlvl H32 width height Hb.
  pose proof (getMipMapWidth_Ok p mipLevel H32) as Hw.
  pose proof (getMipMapHeight_Ok p mipLevel H32) as Hh.
  split; [exact Hw |]. split; [exact Hh |].
  apply decodeImage_pixels; [done | done |].
  intros x y Hx Hy.
  by apply (getPixelColor_in_bounds p x y mipLevel width height).
Qed.

Lemma decodeImage_size_witness :
  decodeImage pic_rgb32_2x1 0
  = Ok [mkColor32 10 20 30 255; mkColor32 40 50 60 128]
  /\ exists pixels, decodeImage pic_rgb32_2x1 0 = Ok pixels
                    /\ Z.of_nat (length pixels) = 2 * 1.
Proof.
  split; [reflexivity |].
  destruct (decodeImage_size pic_rgb32_2x1 0) as (_ & _ & pixels & Hrun & Hl & _).
  - simpl. lia.
  - lia.
  - split; [vm_compute; discriminate |].
    split; [vm_compute; discriminate |].
    intros H. vm_compute in H. discriminate H.
  - exists pixels. split; [exact Hrun | exact Hl].
Defined.

(** C5 as stated fails: a file that [loadFile] accepts can declare a 1x1
    RGB32 picture with no image bytes at all; decoding level 0 of it reads
    outside the (empty) image blob instead of returning one colour. *)
Lemma decodeImage_reads_past_blob :
  loadFile TIM2Parser_fresh "a.tm2" (Some file_no_pixels)
  = (true,
     mkTIM2Parser (FileHeader_of_bytes (take 16 file_no_pixels))
       [pic_no_pixels] true "")
  /\ 0 < mipMapTextures (header pic_no_pixels)
  /\ decodeImage pic_no_pixels 0 = Fault.
Proof. repeat split. Qed.

(** ** The colour of an undecodable pixel *)

Lemma lookupColor_out_of_range (colors : list Color32) (colorIdx : Z) :
  Z.of_nat (length colors) <= colorIdx ->
  lookupColor colors colorIdx = Color32_default.
Proof.
  intros H. unfold lookupColor.
  rewrite lookup_ge_None_2; [done | lia].
Qed.

(** C1. Where the decoder gives up on a pixel, the colour it produces is the
    default-constructed [Color32], which is opaque black (0,0,0,255) and not
    the transparent black (0,0,0,0) that the comments in [getPixelColor] and
    [getClutColors] announce: for an image format byte without a decode
    rule and for an indexed format without CLUT (there every pixel of
    [decodeImage] is that colour), and for a palette index beyond the
    decoded CLUT. *)
Theorem getPixelColor_default_is_opaque (p : Picture) (x y mipLevel : Z) :
  mipLevel < 32 ->
  (trueColorFormat (getImagePixelFormat (header p)) = false
   /\ indexedFormat (getImagePixelFormat (header p)) = false)
  \/ (indexedFormat (getImagePixelFormat (header p)) = true
      /\ hasClut (header p) = false) ->
  getPixelColor p x y mipLevel = Ok (mkColor32 0 0 0 255)
  /\ getPixelColor p x y mipLevel <> Ok (mkColor32 0 0 0 0)
  /\ (0 <= mipLevel < mipMapTextures (header p) ->
      exists pixels,
        decodeImage p mipLevel = Ok pixels
        /\ pixels <> []
        /\ forall c, c ∈ pixels -> c = mkColor32 0 0 0 255)
  /\ (forall colors colorIdx,
        Z.of_nat (length colors) <= colorIdx ->
        lookupColor colors colorIdx = mkColor32 0 0 0 255).
Proof.
  intros Hlvl Hcase.
  assert (Hpix : forall x y,
             getPixelColor p x y mipLevel = Ok (mkColor32 0 0 0 255)).
  { intros x' y'. unfold getPixelColor. rewrite getMipMapWidth_Ok by done.
    simpl. destruct Hcase as [[Ht Hi] | [Hi Hc]].
    - destruct (getImagePixelFormat (header p)); simpl in *; done.
    - rewrite Hc.
      destruct (getImagePixelFormat (header p)); simpl in *; done. }
  split; [apply Hpix |]. split; [rewrite Hpix; discriminate |]. split.
  - intros Hrange.
    destruct (decodeImage_pixels p mipLevel Hrange Hlvl)
      as (pixels & Hrun & Hlen & Hall); [by eauto |].
    set (width := Z.max 1 (Z.shiftr (imageWidth (header p)) mipLevel)) in *.
    set (height := Z.max 1 (Z.shiftr (imageHeight (header p)) mipLevel)) in *.
    exists pixels. split; [exact Hrun |]. split.
    + intros ->. simpl in Hlen. nia.
    + intros c Hin. apply list_elem_of_lookup in Hin as [j Hj].
      pose proof (lookup_lt_Some _ _ _ Hj) as Hlt.
      pose proof (Z.div_mod (Z.of_nat j) width ltac:(lia)) as Hdm.
      pose proof (Z.mod_pos_bound (Z.of_nat j) width ltac:(lia)) as Hmod.
      assert (Hy : 0 <= Z.of_nat j / width < height).
      { split; [apply Z.div_pos; lia |].
        apply Z.div_lt_upper_bound; lia. }
      destruct (Hall (Z.of_nat j mod width) (Z.of_nat j / width) Hmod Hy)
        as (c' & Hc' & Hk).
      rewrite Hpix in Hc'. injection Hc' as <-.
      replace (Z.to_nat (Z.of_nat j / width * width + Z.of_nat j mod width))
        with j in Hk by lia.
      congruence.
  - intros colors colorIdx H. by apply lookupColor_out_of_range.
Qed.

Lemma getPixelColor_default_is_opaque_witness :
  decodeImage pic_unknown_format 0 = Ok [mkColor32 0 0 0 255]
  /\ getPixelColor pic_unknown_format 0 0 0 = Ok (mkColor32 0 0 0 255).
Proof.
  split; [reflexivity |].
  apply (getPixelColor_default_is_opaque pic_unknown_format 0 0 0).
  - lia.
  - left. split; reflexivity.
Defined.

(** ** The input stream *)

Lemma read_content (n : Z) (s : ifstream) :
  ifstream.content (ifstream.read n s).2 = ifstream.content s.
Proof.
  unfold ifstream.read.
  destruct (ifstream.good s); [| done].
  by destruct (n <=? _).
Qed.

(** A [read] leaves the stream good or failed, never in between. *)
Lemma read_good_or_fail (n : Z) (s : ifstream) :
  ifstream.good (ifstream.read n s).2 = negb (ifstream.fail (ifstream.read n s).2).
Proof.
  unfold ifstream.read.
  destruct (ifstream.good s); [| done].
  by destruct (n <=? _).
Qed.

(** On a good stream a [read] fails exactly when it asks for more bytes than
    remain. *)
Lemma read_fail_iff (n : Z) (s : ifstream) :
  ifstream.good s = true ->
  ifstream.fail (ifstream.read n s).2 = true
  <-> Z.of_nat (length (ifstream.remaining s)) < n.
Proof.
  intros Hg. unfold ifstream.read. rewrite Hg.
  destruct (Z.leb_spec n (Z.of_nat (length (ifstream.remaining s))));
    simpl; split; intros; try done; lia.
Qed.

(** Once failed, a stream stays failed through every operation the parser
    applies. *)
Lemma fail_sticky (s : ifstream) :
  ifstream.fail s = true ->
  (forall n, ifstream.fail (ifstream.read n s).2 = true)
  /\ ifstream.fail (ifstream.tellg s).2 = true
  /\ (forall target, ifstream.fail (ifstream.seekg target s) = true)
  /\ (forall off, ifstream.fail (ifstream.seekg_cur off s) = true).
Proof.
  unfold ifstream.fail. intros Hf.
  assert (Hg : ifstream.good s = false) by (unfold ifstream.good; by rewrite Hf).
  repeat split.
  - intros n. unfold ifstream.read. by rewrite Hg.
  - unfold ifstream.tellg. by rewrite Hg.
  - intros target. unfold ifstream.seekg, ifstream.seek_to. by rewrite Hf.
  - intros off. unfold ifstream.seekg_cur, ifstream.seek_to. by rewrite Hf.
Qed.

(** A read into a destination larger than what remains fails. *)
Lemma readInto_short (old : list byte) (s : ifstream) :
  ifstream.good s = true ->
  (length (ifstream.remaining s) < length old)%nat ->
  ifstream.fail (readInto old s).2 = true.
Proof.
  intros Hg Hshort. unfold readInto.
  pose proof (read_fail_iff (Z.of_nat (length old)) s Hg) as [_ Hfail].
  destruct (ifstream.read (Z.of_nat (length old)) s) as [got s'].
  simpl in *. apply Hfail. lia.
Qed.

Lemma read_success (n : Z) (s : ifstream) :
  0 <= n ->
  ifstream.fail (ifstream.read n s).2 = false ->
  ifstream.good s = true
  /\ (ifstream.read n s).1
     = take (Z.to_nat n) (drop (Z.to_nat (ifstream.pos s)) (ifstream.content s))
  /\ length (ifstream.read n s).1 = Z.to_nat n.
Proof.
  intros Hn. unfold ifstream.read.
  destruct (ifstream.good s); [| done].
  destruct (Z.leb_spec n (Z.of_nat (length (ifstream.remaining s))));
    [| done].
  simpl. intros _. split; [done |]. split; [done |].
  rewrite length_take. unfold ifstream.remaining in *. lia.
Qed.

Lemma read_length (n : Z) (s : ifstream) :
  0 <= n -> (length (ifstream.read n s).1 <= Z.to_nat n)%nat.
Proof.
  intros Hn. unfold ifstream.read.
  destruct (ifstream.good s); [| simpl; lia].
  destruct (Z.leb_spec n (Z.of_nat (length (ifstream.remaining s)))); simpl.
  - rewrite length_take. lia.
  - lia.
Qed.

Lemma readInto_spec (old got : list byte) (s s' : ifstream) :
  readInto old s = (got, s') ->
  ifstream.content s' = ifstream.content s
  /\ length got = length old
  /\ ifstream.good s' = negb (ifstream.fail s')
  /\ (ifstream.fail s' = false ->
      ifstream.good s = true
      /\ got = take (length old)
                 (drop (Z.to_nat (ifstream.pos s)) (ifstream.content s))).
Proof.
  unfold readInto.
  pose proof (read_content (Z.of_nat (length old)) s) as Hc.
  pose proof (read_good_or_fail (Z.of_nat (length old)) s) as Hg.
  pose proof (read_success (Z.of_nat (length old)) s ltac:(lia)) as Hs.
  pose proof (read_length (Z.of_nat (length old)) s ltac:(lia)) as Hl.
  destruct (ifstream.read (Z.of_nat (length old)) s) as [bs t]. simpl in *.
  intros [= <- <-]. split; [done |]. split.
  - rewrite length_app, length_drop. lia.
  - split; [done |]. intros Hf.
    destruct (Hs Hf) as (Hgood & Hbs & Hlen). split; [done |].
    rewrite Nat2Z.id in Hbs, Hlen.
    rewrite drop_ge by lia. by rewrite app_nil_r.
Qed.

Lemma readUInt_spec (n : nat) (old v : Z) (s s' : ifstream) :
  readUInt n old s = (v, s') ->
  ifstream.content s' = ifstream.content s
  /\ ifstream.good s' = negb (ifstream.fail s').
Proof.
  unfold readUInt. destruct (readInto (le_bytes n old) s) as [bs t] eqn:Hr.
  intros [= <- <-]. apply readInto_spec in Hr. tauto.
Qed.

Lemma to_size_t_range (v : Z) : 0 <= to_size_t v < 2 ^ 64.
Proof. unfold to_size_t. apply Z.mod_pos_bound. lia. Qed.

Lemma alignOffset_nonneg (offset alignment : Z) :
  0 <= alignOffset offset alignment.
Proof. unfold alignOffset. apply to_size_t_range. Qed.

Lemma seek_to_good (target : Z) (s : ifstream) :
  0 <= target -> ifstream.fail s = false ->
  ifstream.good (ifstream.seek_to target s) = true
  /\ ifstream.content (ifstream.seek_to target s) = ifstream.content s.
Proof.
  unfold ifstream.seek_to, ifstream.fail. intros Ht ->.
  destruct (Z.ltb_spec target 0); [lia | done].
Qed.

Lemma seek_to_content (target : Z) (s : ifstream) :
  ifstream.content (ifstream.seek_to target s) = ifstream.content s.
Proof.
  unfold ifstream.seek_to.
  destruct (ifstream.failbit s); [done |]. by destruct (target <? 0).
Qed.

Lemma good_not_fail (s : ifstream) :
  ifstream.good s = true -> ifstream.fail s = false.
Proof.
  unfold ifstream.good, ifstream.fail. by destruct (ifstream.failbit s).
Qed.

Lemma jumpAligned_spec (s : ifstream) (alignment : Z) :
  ifstream.content (jumpAligned s alignment) = ifstream.content s
  /\ (ifstream.good s = true ->
      ifstream.good (jumpAligned s alignment) = true).
Proof.
  unfold jumpAligned, ifstream.tellg.
  destruct (ifstream.good s) eqn:Hg.
  - destruct (_ <? _); [| done]. unfold ifstream.seekg.
    split; [apply seek_to_content |]. intros _.
    apply seek_to_good; [apply alignOffset_nonneg | by apply good_not_fail].
  - split; [| done].
    destruct (_ <? _); [| done]. unfold ifstream.seekg.
    by rewrite seek_to_content.
Qed.

Lemma skipAlignment_jumpAligned (s : ifstream) (alignment : Z) :
  skipAlignment s alignment = jumpAligned s alignment.
Proof. reflexivity. Qed.

(** ** Decoded fields *)

Lemma le_range (bs : list byte) : 0 <= le bs < 256 ^ Z.of_nat (length bs).
Proof.
  induction bs as [|c bs IH]; [simpl; lia |].
  change (le (c :: bs)) with (u8 c + 256 * le bs).
  pose proof (u8_range c).
  rewrite length_cons, Nat2Z.inj_succ, Z.pow_succ_r by lia. lia.
Qed.

Lemma field_range (off len : nat) (raw : list byte) :
  0 <= field off len raw < 256 ^ Z.of_nat len.
Proof.
  unfold field. pose proof (le_range (take len (drop off raw))) as H.
  assert (256 ^ Z.of_nat (length (take len (drop off raw)))
          <= 256 ^ Z.of_nat len).
  { apply Z.pow_le_mono_r; [lia |]. rewrite length_take. lia. }
  lia.
Qed.

(** ** The stages of parsePicture *)

Lemma parseMipMapHeader_loop_spec (n : nat) :
  forall (i : nat) (sizes sizes' : list Z) (s s' : ifstream),
  parseMipMapHeader_loop n i sizes s = (sizes', s') ->
  length sizes' = length sizes
  /\ ifstream.content s' = ifstream.content s
  /\ (ifstream.good s = negb (ifstream.fail s) ->
      ifstream.good s' = negb (ifstream.fail s')).
Proof.
  induction n as [|n IH]; intros i sizes sizes' s s' Hrun; simpl in Hrun.
  - by injection Hrun as <- <-.
  - destruct (readUInt 4 (sizes !!! i) s) as [v t] eqn:Hr.
    apply readUInt_spec in Hr as [Hc Hg].
    apply IH in Hrun as (Hl & Hc' & Hg').
    rewrite length_insert in Hl. split; [done |].
    split; [congruence | auto].
Qed.

Lemma parseMipMapHeader_spec (s s' : ifstream) (pic pic' : Picture) (ok : bool) :
  parseMipMapHeader s pic = (ok, pic', s') ->
  ok = ifstream.good s'
  /\ ifstream.content s' = ifstream.content s
  /\ header pic' = header pic
  /\ userData pic' = userData pic
  /\ imageData pic' = imageData pic
  /\ clutData pic' = clutData pic
  /\ exists m, mipMapHeader pic' = Some m
               /\ length (sizes m) = Z.to_nat (mipMapTextures (header pic)).
Proof.
  unfold parseMipMapHeader.
  destruct (readUInt 8 0 s) as [tbp1 s1] eqn:H1.
  destruct (readUInt 8 0 s1) as [tbp2 s2] eqn:H2.
  destruct (parseMipMapHeader_loop _ 0 _ s2) as [szs s3] eqn:H3.
  apply readUInt_spec in H1 as [Hc1 _].
  apply readUInt_spec in H2 as [Hc2 _].
  apply parseMipMapHeader_loop_spec in H3 as (Hl & Hc3 & _).
  rewrite length_replicate in Hl.
  intros [= <- <- <-]. split; [done |]. split.
  - destruct (_ <? _); [| congruence].
    unfold ifstream.seekg_cur. rewrite seek_to_content. congruence.
  - repeat split. eexists. split; [reflexivity | done].
Qed.

Lemma parseUserSpace_spec (s s' : ifstream) (pic pic' : Picture) :
  headerDataSize pic < headerSize (header pic) < 2 ^ 64 ->
  0 <= headerDataSize pic ->
  ifstream.good s = true ->
  parseUserSpace s pic = (true, pic', s') ->
  ifstream.good s' = true
  /\ ifstream.content s' = ifstream.content s
  /\ header pic' = header pic
  /\ mipMapHeader pic' = mipMapHeader pic
  /\ imageData pic' = imageData pic
  /\ clutData pic' = clutData pic
  /\ isSegment (userData pic')
       (headerSize (header pic) - headerDataSize pic) (ifstream.content s).
Proof.
  intros Hsz H0 Hgood. unfold parseUserSpace.
  assert (Hlocal : to_size_t (headerSize (header pic) - headerDataSize pic)
                   = headerSize (header pic) - headerDataSize pic).
  { unfold to_size_t. apply Z.mod_small. lia. }
  rewrite Hlocal.
  set (localSize := headerSize (header pic) - headerDataSize pic) in *.
  destruct (Z.eqb_spec localSize 0) as [|_]; [lia |].
  destruct (readInto (replicate (Z.to_nat localSize) zero_byte) s)
    as [data s1] eqn:Hr.
  apply readInto_spec in Hr as (Hc & Hl & Hg & Hok).
  rewrite length_replicate in Hl, Hok.
  intros [= Hg1 <- Hs]. subst s1. rewrite Hg1 in Hg.
  destruct (ifstream.fail s') eqn:Hf; [done |].
  destruct (Hok eq_refl) as [_ Hdata].
  assert (Hseg : isSegment data localSize (ifstream.content s)).
  { split; [done |]. by exists (Z.to_nat (ifstream.pos s)). }
  split; [done |]. split; [done |].
  destruct (16 <=? localSize); [| done].
  by destruct (ext_isValid _).
Qed.

Lemma parseImageData_spec (s s' : ifstream) (pic pic' : Picture) :
  parseImageData s pic = (true, pic', s') ->
  ifstream.good s' = true
  /\ ifstream.content s' = ifstream.content s
  /\ header pic' = header pic
  /\ mipMapHeader pic' = mipMapHeader pic
  /\ userData pic' = userData pic
  /\ clutData pic' = clutData pic
  /\ isSegment (imageData pic') (imageSize (header pic)) (ifstream.content s).
Proof.
  unfold parseImageData.
  destruct (readInto _ s) as [data s1] eqn:Hr.
  apply readInto_spec in Hr as (Hc & Hl & Hg & Hok).
  rewrite length_replicate in Hl, Hok.
  intros [= Hg1 <- Hs]. subst s1. rewrite Hg1 in Hg.
  destruct (ifstream.fail s') eqn:Hf; [done |].
  destruct (Hok eq_refl) as [_ Hdata].
  repeat split; try done. by exists (Z.to_nat (ifstream.pos s)).
Qed.

Lemma parseClutData_spec (s s' : ifstream) (pic pic' : Picture) :
  parseClutData s pic = (true, pic', s') ->
  ifstream.good s' = true
  /\ ifstream.content s' = ifstream.content s
  /\ header pic' = header pic
  /\ mipMapHeader pic' = mipMapHeader pic
  /\ userData pic' = userData pic
  /\ imageData pic' = imageData pic
  /\ isSegment (clutData pic') (clutSize (header pic)) (ifstream.content s).
Proof.
  unfold parseClutData.
  destruct (readInto _ s) as [data s1] eqn:Hr.
  apply readInto_spec in Hr as (Hc & Hl & Hg & Hok).
  rewrite length_replicate in Hl, Hok.
  intros [= Hg1 <- Hs]. subst s1. rewrite Hg1 in Hg.
  destruct (ifstream.fail s') eqn:Hf; [done |].
  destruct (Hok eq_refl) as [_ Hdata].
  repeat split; try done. by exists (Z.to_nat (ifstream.pos s)).
Qed.

(** ** parsePicture *)

Lemma parsePicture_true (this this' : TIM2Parser) (s s' : ifstream)
    (pic0 pic : Picture) (alignment : Z) :
  parsePicture this s pic0 alignment = (true, this', pic, s') ->
  exists raw s1 pic1 s2 pic2 s3 pic3 s4,
    readInto (replicate 48 zero_byte) s = (raw, s1)
    /\ ifstream.fail s1 = false
    /\ (let pich := mkPicture (PictureHeader_of_bytes raw) (mipMapHeader pic0)
                      (userData pic0) (imageData pic0) (clutData pic0)
                      (extHeader pic0) (comment pic0) in
        (if 1 <? mipMapTextures (header pich)
         then parseMipMapHeader s1 pich else (true, pich, s1))
        = (true, pic1, s2))
    /\ (if headerDataSize pic1 <? headerSize (header pic1)
        then parseUserSpace s2 pic1 else (true, pic1, s2))
       = (true, pic2, s3)
    /\ (if 0 <? imageSize (header pic2)
        then parseImageData (jumpAligned s3 alignment) pic2
        else (true, pic2, jumpAligned s3 alignment))
       = (true, pic3, s4)
    /\ (if 0 <? clutSize (header pic3)
        then parseClutData (jumpAligned s4 alignment) pic3
        else (true, pic3, jumpAligned s4 alignment))
       = (true, pic, s')
    /\ this' = this.
Proof.
  unfold parsePicture.
  destruct (readInto (replicate 48 zero_byte) s) as [raw s1] eqn:Hr.
  destruct (ifstream.fail s1) eqn:Hf; [discriminate |].
  destruct (if 1 <? _ then parseMipMapHeader _ _ else _)
    as [[ok1 pic1] s2] eqn:H1.
  destruct ok1; [| discriminate]. simpl negb. cbv iota.
  destruct (if _ <? _ then parseUserSpace _ _ else _)
    as [[ok2 pic2] s3] eqn:H2.
  destruct ok2; [| discriminate]. simpl negb. cbv iota.
  destruct (if 0 <? _ then parseImageData _ _ else _)
    as [[ok3 pic3] s4] eqn:H3.
  destruct ok3; [| discriminate]. simpl negb. cbv iota.
  destruct (if 0 <? _ then parseClutData _ _ else _)
    as [[ok4 pic4] s5] eqn:H4.
  destruct ok4; [| discriminate]. simpl negb. cbv iota.
  intros [= <- <- <-].
  exists raw, s1, pic1, s2, pic2, s3, pic3, s4. repeat split; done.
Qed.

Lemma headerDataSize_ext (p q : Picture) :
  header p = header q -> mipMapHeader p = mipMapHeader q ->
  headerDataSize p = headerDataSize q.
Proof. unfold headerDataSize. by intros -> ->. Qed.

Lemma headerDataSize_nonneg (p : Picture) : 0 <= headerDataSize p.
Proof.
  unfold headerDataSize. destruct (mipMapHeader p); [| lia].
  pose proof (alignOffset_nonneg (16 + mipMapTextures (header p) * 4) 16).
  lia.
Qed.

Lemma isSegment_empty (size : Z) (bytes : list byte) :
  size <= 0 -> isSegment [] size bytes.
Proof.
  intros H. split; [simpl; lia |]. exists O.
  replace (Z.to_nat size) with O by lia. done.
Qed.

(** What a successful [parsePicture] on a fresh [Picture] has built. *)
Lemma parsePicture_fresh_true (this this' : TIM2Parser) (s s' : ifstream)
    (pic : Picture) (alignment : Z) :
  parsePicture this s Picture_fresh alignment = (true, this', pic, s') ->
  ifstream.good s' = true
  /\ ifstream.content s' = ifstream.content s
  /\ this' = this
  /\ wholePicture (ifstream.content s) pic
  /\ 0 <= mipMapTextures (header pic) < 256
  /\ (1 < mipMapTextures (header pic) ->
      exists m, mipMapHeader pic = Some m
                /\ length (sizes m) = Z.to_nat (mipMapTextures (header pic)))
  /\ (mipMapTextures (header pic) <= 1 -> mipMapHeader pic = None).
Proof.
  intros Hrun.
  apply parsePicture_true in Hrun
    as (raw & s1 & pic1 & s2 & pic2 & s3 & pic3 & s4
        & Hr & Hf & H1 & H2 & H3 & H4 & ->).
  apply readInto_spec in Hr as (Hc1 & Hl1 & Hg1 & Hok1).
  rewrite length_replicate in Hl1, Hok1. rewrite Hf in Hg1.
  destruct (Hok1 Hf) as [Hgs Hraw]. simpl in Hg1.
  remember (PictureHeader_of_bytes raw) as hdr eqn:Hhdr.
  set (off := Z.to_nat (ifstream.pos s)) in *.
  cbn [header mipMapHeader userData imageData clutData extHeader comment
       Picture_fresh] in H1. cbv zeta in H1.
  assert (Hlevels : 0 <= mipMapTextures hdr < 256)
    by (rewrite Hhdr; apply (field_range 17 1)).
  assert (Hhs : 0 <= headerSize hdr < 2 ^ 64).
  { pose proof (field_range 12 2 raw) as H. rewrite Hhdr. simpl.
    change (256 ^ Z.of_nat 2) with 65536 in H. lia. }
  assert (Himg : 0 <= imageSize hdr)
    by (rewrite Hhdr; apply (field_range 8 4)).
  assert (Hclu : 0 <= clutSize hdr)
    by (rewrite Hhdr; apply (field_range 4 4)).
  (* mipmap header *)
  assert (S1 : ifstream.good s2 = true
               /\ ifstream.content s2 = ifstream.content s
               /\ header pic1 = hdr /\ userData pic1 = []
               /\ imageData pic1 = [] /\ clutData pic1 = []
               /\ (1 < mipMapTextures hdr ->
                   exists m, mipMapHeader pic1 = Some m
                             /\ length (sizes m) = Z.to_nat (mipMapTextures hdr))
               /\ (mipMapTextures hdr <= 1 -> mipMapHeader pic1 = None)).
  { destruct (Z.ltb_spec 1 (mipMapTextures hdr)) as [Hm | Hm].
    - apply parseMipMapHeader_spec in H1
        as (Hg & Hc & Hh & Hu & Hi & Hcl & m & Hm1 & Hm2).
      simpl in *. conj_split; try done; try congruence.
      + intros _. by exists m.
      + lia.
    - injection H1 as <- <-. simpl. conj_split; try done. lia. }
  destruct S1 as (Hg2 & Hc2 & Hh1 & Hu1 & Hi1 & Hcl1 & Hmip & Hnomip).
  (* user space *)
  assert (S2 : ifstream.good s3 = true
               /\ ifstream.content s3 = ifstream.content s
               /\ header pic2 = hdr
               /\ mipMapHeader pic2 = mipMapHeader pic1
               /\ imageData pic2 = [] /\ clutData pic2 = []
               /\ isSegment (userData pic2)
                    (Z.max 0 (headerSize hdr - headerDataSize pic1))
                    (ifstream.content s)).
  { pose proof (headerDataSize_nonneg pic1) as Hnn. rewrite Hh1 in H2.
    destruct (Z.ltb_spec (headerDataSize pic1) (headerSize hdr)) as [Hu | Hu].
    - apply parseUserSpace_spec in H2
        as (Hg & Hc & Hh & Hm & Hi & Hcl & Hseg);
        [| rewrite Hh1; lia | done | done].
      rewrite Hh1, Hc2 in Hseg. rewrite Z.max_r by lia.
      conj_split; congruence.
    - injection H2 as <- <-. conj_split; try done.
      rewrite Hu1. apply isSegment_empty. lia. }
  destruct S2 as (Hg3 & Hc3 & Hh2 & Hm2 & Hi2 & Hcl2 & Huser).
  (* image data *)
  destruct (jumpAligned_spec s3 alignment) as [Hjc3 Hjg3].
  assert (S3 : ifstream.good s4 = true
               /\ ifstream.content s4 = ifstream.content s
               /\ header pic3 = hdr
               /\ mipMapHeader pic3 = mipMapHeader pic1
               /\ userData pic3 = userData pic2
               /\ clutData pic3 = []
               /\ isSegment (imageData pic3) (imageSize hdr)
                    (ifstream.content s)).
  { rewrite Hh2 in H3.
    destruct (Z.ltb_spec 0 (imageSize hdr)) as [Hi | Hi].
    - apply parseImageData_spec in H3
        as (Hg & Hc & Hh & Hm & Hu & Hcl & Hseg).
      rewrite Hh2, Hjc3, Hc3 in Hseg.
      conj_split; auto; congruence.
    - injection H3 as <- <-. conj_split; try done; auto; try congruence.
      rewrite Hi2. apply isSegment_empty. lia. }
  destruct S3 as (Hg4 & Hc4 & Hh3 & Hm3 & Hu3 & Hcl3 & Himage).
  (* CLUT data *)
  destruct (jumpAligned_spec s4 alignment) as [Hjc4 Hjg4].
  assert (S4 : ifstream.good s' = true
               /\ ifstream.content s' = ifstream.content s
               /\ header pic = hdr
               /\ mipMapHeader pic = mipMapHeader pic1
               /\ userData pic = userData pic2
               /\ imageData pic = imageData pic3
               /\ isSegment (clutData pic) (clutSize hdr)
                    (ifstream.content s)).
  { rewrite Hh3 in H4.
    destruct (Z.ltb_spec 0 (clutSize hdr)) as [Hi | Hi].
    - apply parseClutData_spec in H4
        as (Hg & Hc & Hh & Hm & Hu & Him & Hseg).
      rewrite Hh3, Hjc4, Hc4 in Hseg.
      conj_split; auto; congruence.
    - injection H4 as <- <-. conj_split; try done; auto; try congruence.
      rewrite Hcl3. apply isSegment_empty. lia. }
  destruct S4 as (Hg5 & Hc5 & Hh4 & Hm4 & Hu4 & Hi4 & Hclut).
  split; [done |]. split; [done |]. split; [done |].
  rewrite Hh4, Hm4.
  split; [| split; [lia | split; [exact Hmip | exact Hnomip]]].
  unfold wholePicture. rewrite Hh4, Hu4, Hi4.
  rewrite (headerDataSize_ext pic pic1) by congruence.
  split; [| done]. exists off. split; [| by rewrite <- Hraw].
  rewrite Hraw, length_take, length_drop in Hl1. lia.
Qed.

Lemma parsePicture_this (this this' : TIM2Parser) (s s' : ifstream)
    (pic pic' : Picture) (alignment : Z) (ok : bool) :
  parsePicture this s pic alignment = (ok, this', pic', s') ->
  m_valid this' = m_valid this
  /\ m_pictures this' = m_pictures this
  /\ m_fileHeader this' = m_fileHeader this.
Proof.
  unfold parsePicture.
  destruct (readInto (replicate 48 zero_byte) s) as [raw s1].
  destruct (ifstream.fail s1); [by intros [= <- <- <- <-] |].
  destruct (if 1 <? _ then parseMipMapHeader _ _ else _)
    as [[ok1 pic1] s2].
  destruct ok1; [| by intros [= <- <- <- <-]]. simpl negb. cbv iota.
  destruct (if _ <? _ then parseUserSpace _ _ else _)
    as [[ok2 pic2] s3].
  destruct ok2; [| by intros [= <- <- <- <-]]. simpl negb. cbv iota.
  destruct (if 0 <? _ then parseImageData _ _ else _)
    as [[ok3 pic3] s4].
  destruct ok3; [| by intros [= <- <- <- <-]]. simpl negb. cbv iota.
  destruct (if 0 <? _ then parseClutData _ _ else _)
    as [[ok4 pic4] s5].
  destruct ok4; by intros [= <- <- <- <-].
Qed.

(** ** loadFile *)

Lemma loadFile_loop_spec (alignment : Z) (n : nat) :
  forall (this this' : TIM2Parser) (s s' : ifstream) (i : nat) (ok : bool),
  ifstream.good s = true ->
  loadFile_loop this s alignment n i = (ok, this', s') ->
  m_valid this' = m_valid this
  /\ m_fileHeader this' = m_fileHeader this
  /\ (ok = true -> ifstream.good s' = true)
  /\ (ok = false -> m_lastError this' <> "")
  /\ exists new,
       m_pictures this' = m_pictures this ++ new
       /\ Forall (parsedFrom (ifstream.content s)) new
       /\ (ok = true -> length new = n).
Proof.
  induction n as [|n IH]; intros this this' s s' i ok Hg Hrun; simpl in Hrun.
  - injection Hrun as <- <- <-. conj_split; try done.
    exists []. by rewrite app_nil_r.
  - destruct (parsePicture this s Picture_fresh alignment)
      as [[[ok1 this1] pic] s1] eqn:Hp.
    destruct (parsePicture_this _ _ _ _ _ _ _ _ Hp) as (Hv & Hps & Hfh).
    destruct ok1; simpl in Hrun.
    + destruct (parsePicture_fresh_true _ _ _ _ _ _ Hp)
        as (Hg1 & Hc1 & _).
      apply IH in Hrun
        as (Hv' & Hfh' & Hgood & Herr & new & Hnew & Hall & Hlen);
        [| done].
      simpl in *.
      split; [congruence |]. split; [congruence |]. split; [exact Hgood |].
      split; [exact Herr |].
      exists (pic :: new). conj_split.
      * rewrite Hnew, Hps, <- app_assoc. done.
      * constructor.
        -- exists this, s, alignment, this1, s1. by conj_split.
        -- by rewrite <- Hc1.
      * intros Hok. simpl. by rewrite Hlen.
    + injection Hrun as <- <- <-. simpl. conj_split; try done.
      exists []. rewrite app_nil_r. by conj_split.
Qed.

Lemma FileHeader_bytes_length (h : FileHeader) :
  length (FileHeader_bytes h) = 16%nat.
Proof.
  unfold FileHeader_bytes.
  rewrite !length_app, !length_take, !length_app, !length_replicate.
  change (length (le_bytes 1 (formatVersion h))) with 1%nat.
  change (length (le_bytes 1 (formatId h))) with 1%nat.
  change (length (le_bytes 2 (pictures h))) with 2%nat.
  lia.
Qed.

Lemma parseFileHeader_spec (this this' : TIM2Parser) (s s' : ifstream)
    (ok : bool) :
  parseFileHeader this s = (ok, this', s') ->
  m_valid this' = m_valid this
  /\ m_pictures this' = m_pictures this
  /\ 0 <= pictures (m_fileHeader this') < 65536
  /\ (ok = false -> m_lastError this' <> "")
  /\ (ok = true ->
      ifstream.good s' = true
      /\ ifstream.content s' = ifstream.content s
      /\ isValid (m_fileHeader this') = true).
Proof.
  unfold parseFileHeader.
  destruct (readInto (FileHeader_bytes (m_fileHeader this)) s)
    as [raw s1] eqn:Hr.
  apply readInto_spec in Hr as (Hc & _ & Hg & _).
  pose proof (field_range 6 2 raw) as Hcount.
  change (256 ^ Z.of_nat 2) with 65536 in Hcount.
  destruct (ifstream.fail s1) eqn:Hf; [by intros [= <- <- <-] |].
  cbn [m_fileHeader].
  destruct (isValid (FileHeader_of_bytes raw)) eqn:Hv; simpl;
    by intros [= <- <- <-].
Qed.

Lemma loadFile_stream_spec (this this' : TIM2Parser) (bytes : list byte)
    (s' : ifstream) (ok : bool) :
  loadFile_stream (loadFile_reset this) (ifstream.open bytes)
  = (ok, this', s') ->
  m_valid this' = ok
  /\ (ok = true -> ifstream.good s' = true)
  /\ (ok = false -> m_lastError this' <> "")
  /\ Forall (parsedFrom bytes) (m_pictures this')
  /\ (ok = true ->
      isValid (m_fileHeader this') = true
      /\ Z.of_nat (length (m_pictures this'))
         = pictures (m_fileHeader this')).
Proof.
  unfold loadFile_stream.
  destruct (parseFileHeader (loadFile_reset this) (ifstream.open bytes))
    as [[ok0 this0] s0] eqn:H0.
  apply parseFileHeader_spec in H0 as (Hv0 & Hp0 & Hcount & Herr0 & Hok0).
  simpl in Hv0, Hp0.
  destruct ok0; simpl.
  - destruct (Hok0 eq_refl) as (Hg0 & Hc0 & Hvalid). simpl in Hc0.
    destruct (jumpAligned_spec s0 (getAlignment (m_fileHeader this0)))
      as [Hjc Hjg].
    rewrite skipAlignment_jumpAligned.
    destruct (loadFile_loop this0 _ _ _ 0) as [[ok1 this1] s1] eqn:H1.
    apply loadFile_loop_spec in H1
      as (Hv1 & Hfh1 & Hg1 & Herr1 & new & Hnew & Hall & Hlen); [| auto].
    rewrite Hjc, Hc0 in Hall. rewrite Hp0 in Hnew. simpl in Hnew.
    destruct ok1; simpl; intros [= <- <- <-]; simpl.
    + split; [done |]. split; [auto |]. split; [done |].
      split; [by rewrite Hnew |].
      intros _. rewrite Hfh1, Hnew, Hlen by done. split; [done | lia].
    + split; [congruence |]. split; [done |]. split; [auto |].
      split; [by rewrite Hnew |]. done.
  - intros [= <- <- <-]. rewrite Hv0, Hp0. conj_split; auto; done.
Qed.

Lemma parsedFrom_whole (bytes : list byte) (pic : Picture) :
  parsedFrom bytes pic -> wholePicture bytes pic.
Proof.
  intros (this & s & al & this1 & s1 & Hc & Hg & Hp).
  apply parsePicture_fresh_true in Hp as (_ & _ & _ & Hwhole & _).
  by rewrite Hc in Hwhole.
Qed.

(** ** The mipmap header of a parsed picture *)

(** C2, as the code has it. For every picture of a loaded file whose mip
    level count is greater than 1, the mipmap header is present and its
    [sizes] array has one entry per mip level, the base level included:
    exactly [mipMapTextures] entries. *)
Theorem parsed_mipmap_sizes (this this' : TIM2Parser) (filename : string)
    (bytes : list byte) (ok : bool) (pic : Picture) :
  loadFile this filename (Some bytes) = (ok, this') ->
  pic ∈ getPictures this' ->
  1 < mipMapTextures (header pic) ->
  exists m, mipMapHeader pic = Some m
            /\ Z.of_nat (length (sizes m)) = mipMapTextures (header pic).
Proof.
  unfold loadFile, getPictures.
  destruct (loadFile_stream _ _) as [[ok1 this1] s1] eqn:Hrun.
  intros [= <- <-] Hin Hlevels.
  apply loadFile_stream_spec in Hrun as (_ & _ & _ & Hall & _).
  rewrite Forall_forall in Hall.
  destruct (Hall pic Hin) as (this0 & s & al & this2 & s2 & _ & _ & Hp).
  apply parsePicture_fresh_true in Hp as (_ & _ & _ & _ & _ & Hmip & _).
  destruct (Hmip Hlevels) as (m & Hm & Hlen).
  exists m. split; [done | lia].
Qed.

Lemma parsed_mipmap_sizes_witness :
  exists m, mipMapHeader pic_two_levels = Some m
            /\ Z.of_nat (length (sizes m)) = 2.
Proof.
  apply (parsed_mipmap_sizes TIM2Parser_fresh
           (mkTIM2Parser (FileHeader_of_bytes (take 16 file_two_levels))
              [pic_two_levels] true "")
           "a.tm2" file_two_levels true pic_two_levels).
  - reflexivity.
  - apply list_elem_of_singleton. reflexivity.
  - simpl. lia.
Defined.

(** C2 as stated fails: a picture with two mip levels is parsed with two
    size entries, not with one. *)
Lemma two_levels_two_sizes :
  loadFile TIM2Parser_fresh "a.tm2" (Some file_two_levels)
  = (true,
     mkTIM2Parser (FileHeader_of_bytes (take 16 file_two_levels))
       [pic_two_levels] true "")
  /\ mipMapTextures (header pic_two_levels) = 2
  /\ sizes <$> mipMapHeader pic_two_levels = Some [16; 16]
  /\ Z.of_nat (length [16; 16]) <> 2 - 1.
Proof. repeat split. discriminate. Qed.

(** ** A wrong magic *)

(** C9, as the code has it. An input whose first four bytes are not "TIM2"
    is rejected as a whole: [loadFile] returns false, the parser is not
    valid and holds no pictures.  The error is the invalid-signature one
    when the input holds the 16 bytes of a file header; a shorter input
    fails earlier, on the read of the header. *)
Theorem loadFile_bad_magic (this : TIM2Parser) (filename : string)
    (bytes : list byte) :
  take 4 bytes <> TIM2_magic ->
  exists this',
    loadFile this filename (Some bytes) = (false, this')
    /\ TIM2Parser_isValid this' = false
    /\ getPictures this' = []
    /\ getPictureCount this' = 0%nat
    /\ m_lastError this'
       = if 16 <=? Z.of_nat (length bytes)
         then "Invalid TIM2 file signature"
         else "Failed to read file header".
Proof.
  intros Hmagic.
  unfold loadFile, loadFile_stream, parseFileHeader, readInto.
  rewrite FileHeader_bytes_length.
  unfold ifstream.read. change (ifstream.good (ifstream.open bytes)) with true.
  change (ifstream.remaining (ifstream.open bytes)) with bytes.
  cbv iota. change (Z.of_nat 16) with 16.
  destruct (Z.leb_spec 16 (Z.of_nat (length bytes))) as [Hlen | Hlen].
  - cbn [ifstream.fail ifstream.failbit m_fileHeader].
    change (Z.to_nat 16) with 16%nat.
    set (raw := take 16 bytes ++ _).
    assert (Hinvalid : isValid (FileHeader_of_bytes raw) = false).
    { unfold isValid. apply bool_decide_eq_false.
      cbn [fileId FileHeader_of_bytes]. subst raw.
      rewrite take_app_le by (rewrite length_take; lia).
      rewrite take_take. exact Hmagic. }
    rewrite Hinvalid. simpl. eexists. by conj_split.
  - cbn [ifstream.fail ifstream.failbit]. simpl. eexists. by conj_split.
Qed.

Lemma loadFile_bad_magic_witness :
  exists this',
    loadFile TIM2Parser_fresh "a.tm2" (Some file_TIM3) = (false, this')
    /\ getPictures this' = []
    /\ m_lastError this' = "Invalid TIM2 file signature".
Proof.
  destruct (loadFile_bad_magic TIM2Parser_fresh "a.tm2" file_TIM3)
    as (this' & Hrun & _ & Hpics & _ & Herr).
  - vm_compute. discriminate.
  - exists this'. split; [exact Hrun |]. split; [exact Hpics | exact Herr].
Defined.

(** C9 as stated fails: the four-byte file "TIM3" has a wrong magic, yet
    [loadFile] reports the failed read of the file header, not an invalid
    signature. *)
Lemma short_bad_magic_is_read_failure :
  take 4 file_TIM3_short <> TIM2_magic
  /\ (loadFile TIM2Parser_fresh "a.tm2" (Some file_TIM3_short)).1 = false
  /\ m_lastError (loadFile TIM2Parser_fresh "a.tm2" (Some file_TIM3_short)).2
     = "Failed to read file header"
  /\ m_lastError (loadFile TIM2Parser_fresh "a.tm2" (Some file_TIM3_short)).2
     <> "Invalid TIM2 file signature".
Proof.
  split; [vm_compute; discriminate |].
  split; [reflexivity |]. split; [reflexivity |].
  vm_compute. discriminate.
Qed.

(** ** Examples *)

(** The round trip of a minimal file: the pixels decode to the bytes
    written. *)
Example loadFile_rgb32_round_trip :
  loadOutcome file_rgb32_2x1 = (true, true, 1%nat, "")
  /\ map (fun pic => decodeImage pic 0)
       (getPictures (loadFile TIM2Parser_fresh "a.tm2" (Some file_rgb32_2x1)).2)
     = [Ok [mkColor32 10 20 30 255; mkColor32 40 50 60 128]].
Proof. split; reflexivity. Qed.

(** An indexed picture with user space and CLUT loads and decodes. *)
Example loadFile_idtex8 :
  loadOutcome file_idtex8 = (true, true, 1%nat, "")
  /\ map (fun pic => decodeImage pic 0)
       (getPictures (loadFile TIM2Parser_fresh "a.tm2" (Some file_idtex8)).2)
     = [Ok [mkColor32 2 102 200 255]].
Proof. split; reflexivity. Qed.

(** Cutting the file inside any section that is read makes the load fail:
    inside the file header, the picture header and the user space, right
    before the image byte, inside the CLUT blob, and inside the level sizes
    of a mipmap header. *)
Example truncated_sections :
  loadOutcome (take 10 file_idtex8)
  = (false, false, 0%nat, "Failed to read file header")
  /\ loadOutcome (take 40 file_idtex8)
     = (false, false, 0%nat, "Failed to parse picture 0")
  /\ loadOutcome (take 70 file_idtex8)
     = (false, false, 0%nat, "Failed to parse picture 0")
  /\ loadOutcome (take 80 file_idtex8)
     = (false, false, 0%nat, "Failed to parse picture 0")
  /\ loadOutcome (take 100 file_idtex8)
     = (false, false, 0%nat, "Failed to parse picture 0")
  /\ loadOutcome (take 84 file_two_levels)
     = (false, false, 0%nat, "Failed to parse picture 0").
Proof. repeat split. Qed.

(** Padding is skipped with [seekg], not read: a file that ends right after
    the level sizes of its last mipmap header, or before the next alignment
    boundary, still loads. *)
Example padding_is_not_read :
  loadOutcome file_no_padding = (true, true, 1%nat, "")
  /\ length file_rgb32_2x1 = 72%nat
  /\ loadOutcome file_rgb32_2x1 = (true, true, 1%nat, "").
Proof. repeat split. Qed.

(** A level of 32 or more shifts the promoted [int] past its width. *)
Example level_past_int_width :
  33 < mipMapTextures (header pic_forty_levels)
  /\ getMipMapWidth pic_forty_levels 33 = Fault
  /\ decodeImage pic_forty_levels 33 = Fault
  /\ decodeImage pic_forty_levels 2 = Ok [mkColor32 0 0 0 0].
Proof. repeat split. Qed.

(** * Further properties of the parser and the decoder *)

(** ** Alignment *)

(** X1. [alignOffset] rounds up to the next multiple of the alignment: as
    long as [offset + alignment - 1] fits in [size_t], the result is the
    least multiple of [alignment] that is not below [offset]; it is less
    than [alignment] away, and an aligned offset is returned unchanged. *)
Theorem alignOffset_least_multiple (offset alignment : Z) :
  0 < alignment -> 0 <= offset -> offset + alignment - 1 < 2 ^ 64 ->
  let aligned := alignOffset offset alignment in
  aligned mod alignment = 0
  /\ offset <= aligned < offset + alignment
  /\ (forall m, m mod alignment = 0 -> offset <= m -> aligned <= m)
  /\ (offset mod alignment = 0 -> aligned = offset).
Proof.
  intros Hal Hoff Hfit aligned. subst aligned. unfold alignOffset, to_size_t.
  rewrite (Z.mod_small (offset + alignment - 1)) by lia.
  set (q := (offset + alignment - 1) / alignment).
  pose proof (Z.div_mod (offset + alignment - 1) alignment ltac:(lia)) as Hdm.
  pose proof (Z.mod_pos_bound (offset + alignment - 1) alignment Hal) as Hmb.
  fold q in Hdm.
  assert (Hq : 0 <= q) by (apply Z.div_pos; lia).
  assert (Hrange : offset <= q * alignment < offset + alignment) by nia.
  rewrite (Z.mod_small (q * alignment)) by lia.
  split; [apply Z.mod_mul; lia |]. split; [exact Hrange |]. split.
  - intros m Hm Hle.
    apply Z.mod_divide in Hm as [k ->]; [| lia].
    destruct (Z.le_gt_cases q k) as [Hqk | Hqk]; [nia |].
    assert ((k + 1) * alignment <= q * alignment) by nia. nia.
  - intros Hm. apply Z.mod_divide in Hm as [k Hk]; [| lia].
    destruct (Z.lt_trichotomy q k) as [Hqk | [Hqk | Hqk]].
    + assert ((q + 1) * alignment <= k * alignment) by nia. nia.
    + rewrite Hqk. lia.
    + assert ((k + 1) * alignment <= q * alignment) by nia. nia.
Qed.

Lemma alignOffset_least_multiple_witness :
  alignOffset 17 16 = 32 /\ alignOffset 32 16 = 32.
Proof.
  destruct (alignOffset_least_multiple 17 16) as (H1 & H2 & _);
    [lia | lia | lia |].
  destruct (alignOffset_least_multiple 32 16) as (_ & _ & _ & H3);
    [lia | lia | lia |].
  split; [| apply H3; reflexivity].
  cbv zeta in H1, H2.
  apply Z.mod_divide in H1 as [k Hk]; [| lia]. lia.
Defined.

(** ** Mip levels *)

Lemma getImageOffset_loop_sum (mipLevel : Z) (rest : list Z) :
  forall i offset,
  getImageOffset_loop rest mipLevel i offset
  = offset + sumZ (take (Z.to_nat (mipLevel - i)) rest).
Proof.
  induction rest as [|s rest IH]; intros i offset; simpl.
  - rewrite take_nil. simpl. lia.
  - destruct (Z.ltb_spec i mipLevel) as [Hlt | Hge].
    + rewrite IH.
      replace (Z.to_nat (mipLevel - i))
        with (S (Z.to_nat (mipLevel - (i + 1)))) by lia.
      simpl. lia.
    + replace (Z.to_nat (mipLevel - i)) with O by lia. simpl. lia.
Qed.

(** X2. The byte offset of a mip level inside the image blob is the sum of
    the sizes of the levels below it: 0 for level 0 and for a picture
    without mipmap header, and the sum of all sizes for a level beyond the
    table. *)
Theorem getImageOffset_prefix_sum (p : Picture) (mipLevel : Z) :
  0 <= mipLevel ->
  getImageOffset p mipLevel
  = sumZ (take (Z.to_nat mipLevel) (levelSizes p))
  /\ (forall s, levelSizes p !! Z.to_nat mipLevel = Some s ->
        getImageOffset p (mipLevel + 1) = getImageOffset p mipLevel + s).
Proof.
  intros Hlvl.
  assert (Hsum : forall l, 0 <= l ->
            getImageOffset p l = sumZ (take (Z.to_nat l) (levelSizes p))).
  { intros l Hl. unfold getImageOffset, levelSizes.
    destruct (mipMapHeader p) as [m|]; [| by rewrite take_nil].
    destruct (Z.eqb_spec l 0) as [-> | Hne]; [done |].
    rewrite getImageOffset_loop_sum. simpl. by rewrite Z.sub_0_r. }
  split; [by apply Hsum |].
  intros s Hs. rewrite !Hsum by lia.
  replace (Z.to_nat (mipLevel + 1)) with (S (Z.to_nat mipLevel)) by lia.
  rewrite (take_S_r _ _ s Hs). unfold sumZ. rewrite foldr_app. simpl.
  generalize (take (Z.to_nat mipLevel) (levelSizes p)).
  intros l. induction l as [|x l IH]; simpl; lia.
Qed.

Lemma getImageOffset_prefix_sum_witness :
  getImageOffset pic_two_levels 1 = 16
  /\ getImageOffset pic_two_levels 2 = 16 + 16.
Proof.
  destruct (getImageOffset_prefix_sum pic_two_levels 1) as [H1 H2]; [lia |].
  split; [exact H1 |].
  change 2 with (1 + 1). rewrite (H2 16 eq_refl). by rewrite H1.
Defined.

Lemma max1_shiftr_succ (v level : Z) :
  0 <= v -> 0 <= level ->
  Z.max 1 (Z.shiftr v (level + 1)) = Z.max 1 (Z.max 1 (Z.shiftr v level) / 2).
Proof.
  intros Hv Hl.
  replace (Z.shiftr v (level + 1)) with (Z.shiftr v level / 2).
  - assert (0 <= Z.shiftr v level) by (by apply Z.shiftr_nonneg).
    destruct (Z.eq_dec (Z.shiftr v level) 0) as [-> | Hne]; [done |].
    by rewrite (Z.max_r 1 (Z.shiftr v level)) by lia.
  - rewrite <- Z.shiftr_shiftr by lia.
    by rewrite (Z.shiftr_div_pow2 _ 1) by lia.
Qed.

(** X3. Each mip level halves the previous one, rounding down and never
    going below one pixel: the width (height) of level [l+1] is
    [max(1, w/2)] for [w] the width (height) of level [l]; level 0 has the
    header's dimensions, clamped to 1. *)
Theorem mip_dimensions_halve (p : Picture) (level : Z) :
  0 <= level -> level + 1 < 32 ->
  0 <= imageWidth (header p) -> 0 <= imageHeight (header p) ->
  exists w h,
    getMipMapWidth p level = Ok w
    /\ getMipMapHeight p level = Ok h
    /\ 1 <= w /\ 1 <= h
    /\ getMipMapWidth p (level + 1) = Ok (Z.max 1 (w / 2))
    /\ getMipMapHeight p (level + 1) = Ok (Z.max 1 (h / 2))
    /\ getMipMapWidth p 0 = Ok (Z.max 1 (imageWidth (header p)))
    /\ getMipMapHeight p 0 = Ok (Z.max 1 (imageHeight (header p))).
Proof.
  intros Hl H32 Hw Hh.
  rewrite !getMipMapWidth_Ok, !getMipMapHeight_Ok by lia.
  eexists _, _. split; [reflexivity |]. split; [reflexivity |].
  split; [lia |]. split; [lia |].
  rewrite !max1_shiftr_succ by lia. by rewrite !Z.shiftr_0_r.
Qed.

Lemma mip_dimensions_halve_witness :
  getMipMapWidth pic_rgb24_5x3 1 = Ok 2
  /\ getMipMapHeight pic_rgb24_5x3 1 = Ok 1
  /\ getMipMapWidth pic_rgb24_5x3 2 = Ok 1.
Proof.
  destruct (mip_dimensions_halve pic_rgb24_5x3 0)
    as (w & h & Hw & Hh & _ & _ & Hw1 & Hh1 & _); [lia | lia | simpl; lia | simpl; lia |].
  destruct (mip_dimensions_halve pic_rgb24_5x3 1)
    as (w' & h' & Hw' & _ & _ & _ & Hw2 & _); [lia | lia | simpl; lia | simpl; lia |].
  vm_compute in Hw, Hh. injection Hw as <-. injection Hh as <-.
  change (0 + 1) with 1 in *. rewrite Hw1 in Hw'. injection Hw' as <-.
  split; [exact Hw1 |]. split; [exact Hh1 |]. exact Hw2.
Defined.

(** ** What decodeImage returns *)

Section DecodeResult.

Variables (p : Picture) (mipLevel : Z).
Variable P : Color32 -> Prop.
Hypothesis P_pixel : forall x y c, getPixelColor p x y mipLevel = Ok c -> P c.

Lemma decodeImage_row_result (width y : Z) (n : nat) :
  forall x result result',
  decodeImage_row p mipLevel width y n x result = Ok result' ->
  length result' = length result /\ (Forall P result -> Forall P result').
Proof.
  induction n as [|n IH]; intros x result result' Hrun; simpl in Hrun.
  - by injection Hrun as <-.
  - apply bind_Ok in Hrun as (c & Hc & Hrun).
    apply IH in Hrun as [Hlen Hall]. rewrite length_insert in Hlen.
    split; [done |]. intros HP. apply Hall.
    destruct (decide (Z.to_nat (y * width + x) < length result)%nat).
    + apply Forall_insert; eauto.
    + by rewrite list_insert_ge by lia.
Qed.

Lemma decodeImage_rows_result (width : Z) (m : nat) :
  forall y result result',
  decodeImage_rows p mipLevel width m y result = Ok result' ->
  length result' = length result /\ (Forall P result -> Forall P result').
Proof.
  induction m as [|m IH]; intros y result result' Hrun; simpl in Hrun.
  - by injection Hrun as <-.
  - apply bind_Ok in Hrun as (result1 & Hrow & Hrun).
    apply decodeImage_row_result in Hrow as [Hl1 Ha1].
    apply IH in Hrun as [Hl Ha]. split; [congruence | auto].
Qed.

Lemma decodeImage_result (pixels : list Color32) :
  decodeImage p mipLevel = Ok pixels ->
  P Color32_default ->
  Forall P pixels
  /\ (mipMapTextures (header p) <= mipLevel -> pixels = [])
  /\ (mipLevel < mipMapTextures (header p) -> (1 <= length pixels)%nat).
Proof.
  unfold decodeImage. intros Hrun Hdef.
  destruct (Z.leb_spec (mipMapTextures (header p)) mipLevel) as [Hout | Hin].
  - injection Hrun as <-. split; [constructor |]. split; [done | lia].
  - apply bind_Ok in Hrun as (width & Hw & Hrun).
    apply bind_Ok in Hrun as (height & Hh & Hrun).
    apply decodeImage_rows_result in Hrun as [Hlen Hall].
    rewrite length_replicate in Hlen.
    unfold getMipMapWidth in Hw. unfold getMipMapHeight in Hh.
    apply bind_Ok in Hw as (sw & _ & [= <-]).
    apply bind_Ok in Hh as (sh & _ & [= <-]).
    split; [| split; [lia | intros _; nia]].
    apply Hall. by apply Forall_replicate.
Qed.

End DecodeResult.

(** X4. [decodeImage] returns the empty sequence exactly when the requested
    level is not below the declared level count: for a level in range it
    never returns an empty image. *)
Theorem decodeImage_empty_iff (p : Picture) (mipLevel : Z) :
  decodeImage p mipLevel = Ok [] <-> mipMapTextures (header p) <= mipLevel.
Proof.
  split.
  - intros Hrun.
    destruct (Z.le_gt_cases (mipMapTextures (header p)) mipLevel) as [|Hin];
      [done |].
    destruct (decodeImage_result p mipLevel (fun _ => True) (fun _ _ _ _ => I)
                [] Hrun I) as (_ & _ & Hlen).
    specialize (Hlen ltac:(lia)). simpl in Hlen. lia.
  - intros Hout. unfold decodeImage.
    destruct (Z.leb_spec (mipMapTextures (header p)) mipLevel); [done | lia].
Qed.

Lemma toColor32_valid (v : Z) :
  validColor (toColor32 v) /\ (a (toColor32 v) = 0 \/ a (toColor32 v) = 255).
Proof.
  unfold validColor, toColor32, to_u8. simpl.
  pose proof (fun x => Z.mod_pos_bound x 256 ltac:(lia)) as Hm.
  destruct (Z.land v 32768 =? 0); repeat split; try apply Hm; lia.
Qed.

Section ClutResult.

Variable P : Color32 -> Prop.

Lemma getClutColors_loop_result (p : Picture) (n : nat) :
  (forall index c,
     clutEntry (getClutPixelFormat (header p)) (clutData p) index = Ok c ->
     P c) ->
  forall i acc colors,
  getClutColors_loop p n i acc = Ok colors ->
  Forall P acc -> Forall P colors.
Proof.
  intros Hentry. induction n as [|n IH]; intros i acc colors Hrun Hacc;
    simpl in Hrun.
  - by injection Hrun as <-.
  - apply bind_Ok in Hrun as (c & Hc & Hrun).
    apply (IH _ _ _ Hrun). apply Forall_app. split; [done |].
    constructor; [eauto | constructor].
Qed.

Lemma getClutColors_result (p : Picture) (colors : list Color32) :
  (forall index c,
     clutEntry (getClutPixelFormat (header p)) (clutData p) index = Ok c ->
     P c) ->
  getClutColors p = Ok colors -> Forall P colors.
Proof.
  intros Hentry. unfold getClutColors.
  destruct (hasClut (header p)); simpl.
  - intros Hrun. by apply (getClutColors_loop_result p _ Hentry _ _ _ Hrun).
  - intros [= <-]. constructor.
Qed.

End ClutResult.

Lemma clutEntry_valid (fmt : PixelFormat) (data : list byte) (index : Z)
    (c : Color32) :
  clutEntry fmt data index = Ok c -> validColor c.
Proof.
  unfold clutEntry. destruct fmt; intros Hrun;
    try (injection Hrun as <-; unfold validColor; simpl; lia).
  - apply bind_Ok in Hrun as (v & _ & [= <-]). apply toColor32_valid.
  - apply bind_Ok in Hrun as (v0 & H0 & Hrun).
    apply bind_Ok in Hrun as (v1 & H1 & Hrun).
    apply bind_Ok in Hrun as (v2 & H2 & [= <-]).
    apply byteAt_range in H0, H1, H2. unfold validColor. simpl. lia.
  - apply bind_Ok in Hrun as (v0 & H0 & Hrun).
    apply bind_Ok in Hrun as (v1 & H1 & Hrun).
    apply bind_Ok in Hrun as (v2 & H2 & Hrun).
    apply bind_Ok in Hrun as (v3 & H3 & [= <-]).
    apply byteAt_range in H0, H1, H2, H3. unfold validColor. simpl. lia.
Qed.

Lemma Color32_default_valid : validColor Color32_default.
Proof. unfold validColor. simpl. lia. Qed.

Lemma lookupColor_result (P : Color32 -> Prop) (colors : list Color32)
    (colorIdx : Z) :
  Forall P colors -> P Color32_default -> P (lookupColor colors colorIdx).
Proof.
  intros Hall Hdef. unfold lookupColor.
  destruct (colors !! Z.to_nat colorIdx) as [c|] eqn:Hc; [| done].
  by apply (Forall_lookup_1 _ _ _ _ Hall Hc).
Qed.

Lemma getPixelColor_valid (p : Picture) (x y mipLevel : Z) (c : Color32) :
  getPixelColor p x y mipLevel = Ok c -> validColor c.
Proof.
  unfold getPixelColor. intros Hrun.
  apply bind_Ok in Hrun as (width & _ & Hrun).
  assert (Hclut : forall colors, getClutColors p = Ok colors ->
                    Forall validColor colors).
  { intros colors. apply getClutColors_result.
    intros index c'. apply clutEntry_valid. }
  destruct (getImagePixelFormat (header p));
    try (injection Hrun as <-; apply Color32_default_valid).
  - apply bind_Ok in Hrun as (v & _ & [= <-]). apply toColor32_valid.
  - apply bind_Ok in Hrun as (v0 & H0 & Hrun).
    apply bind_Ok in Hrun as (v1 & H1 & Hrun).
    apply bind_Ok in Hrun as (v2 & H2 & [= <-]).
    apply byteAt_range in H0, H1, H2. unfold validColor. simpl. lia.
  - apply bind_Ok in Hrun as (v0 & H0 & Hrun).
    apply bind_Ok in Hrun as (v1 & H1 & Hrun).
    apply bind_Ok in Hrun as (v2 & H2 & Hrun).
    apply bind_Ok in Hrun as (v3 & H3 & [= <-]).
    apply byteAt_range in H0, H1, H2, H3. unfold validColor. simpl. lia.
  - destruct (hasClut (header p));
      [| injection Hrun as <-; apply Color32_default_valid].
    apply bind_Ok in Hrun as (packed & _ & Hrun).
    apply bind_Ok in Hrun as (colors & Hcols & [= <-]).
    apply lookupColor_result; [auto | apply Color32_default_valid].
  - destruct (hasClut (header p));
      [| injection Hrun as <-; apply Color32_default_valid].
    apply bind_Ok in Hrun as (idx & _ & Hrun).
    apply bind_Ok in Hrun as (colors & Hcols & [= <-]).
    apply lookupColor_result; [auto | apply Color32_default_valid].
Qed.

(** X5. Whatever the picture holds, every colour that [decodeImage] or
    [getClutColors] returns has its four channels in the range of a byte,
    0 to 255. *)
Theorem decoded_channels_are_bytes (p : Picture) (mipLevel : Z) :
  (forall pixels, decodeImage p mipLevel = Ok pixels ->
     Forall validColor pixels)
  /\ (forall colors, getClutColors p = Ok colors ->
        Forall validColor colors).
Proof.
  split.
  - intros pixels Hrun.
    apply (decodeImage_result p mipLevel validColor); [| done |].
    + intros x y c. apply getPixelColor_valid.
    + apply Color32_default_valid.
  - intros colors. apply getClutColors_result.
    intros index c. apply clutEntry_valid.
Qed.

Lemma decoded_channels_are_bytes_witness :
  Forall validColor [mkColor32 10 20 30 255; mkColor32 40 50 60 128].
Proof.
  destruct (decoded_channels_are_bytes pic_rgb32_2x1 0) as [Hpix _].
  apply Hpix. reflexivity.
Defined.

Lemma getPixelColor_alpha (p : Picture) (x y mipLevel : Z) (c : Color32) :
  getPixelColor p x y mipLevel = Ok c ->
  (getImagePixelFormat (header p) = TIM2_RGB24 -> a c = 255)
  /\ (getImagePixelFormat (header p) = TIM2_RGB16 -> a c = 0 \/ a c = 255).
Proof.
  unfold getPixelColor. intros Hrun.
  apply bind_Ok in Hrun as (width & _ & Hrun).
  split; intros Hfmt; rewrite Hfmt in Hrun.
  - apply bind_Ok in Hrun as (v0 & H0 & Hrun).
    apply bind_Ok in Hrun as (v1 & H1 & Hrun).
    by apply bind_Ok in Hrun as (v2 & H2 & [= <-]).
  - apply bind_Ok in Hrun as (v & _ & [= <-]). apply toColor32_valid.
Qed.

(** X6. A picture in RGB24 decodes to fully opaque pixels (alpha 255), and
    a picture in RGB16 to pixels whose alpha is 0 or 255, never a value in
    between. *)
Theorem truecolor_alpha (p : Picture) (mipLevel : Z) (pixels : list Color32) :
  decodeImage p mipLevel = Ok pixels ->
  (getImagePixelFormat (header p) = TIM2_RGB24 ->
   Forall (fun c => a c = 255) pixels)
  /\ (getImagePixelFormat (header p) = TIM2_RGB16 ->
      Forall (fun c => a c = 0 \/ a c = 255) pixels).
Proof.
  intros Hrun. split; intros Hfmt.
  - apply (decodeImage_result p mipLevel (fun c => a c = 255)); [| done..].
    intros x y c Hc. by apply (getPixelColor_alpha p x y mipLevel c Hc).
  - apply (decodeImage_result p mipLevel (fun c => a c = 0 \/ a c = 255));
      [| done | by right].
    intros x y c Hc. by apply (getPixelColor_alpha p x y mipLevel c Hc).
Qed.

Lemma truecolor_alpha_witness :
  exists pixels,
    decodeImage pic_rgb24_5x3 0 = Ok pixels
    /\ length pixels = 15%nat
    /\ Forall (fun c => a c = 255) pixels.
Proof.
  destruct (decodeImage pic_rgb24_5x3 0) as [pixels|] eqn:Hrun;
    [| vm_compute in Hrun; discriminate].
  exists pixels. split; [reflexivity |].
  destruct (truecolor_alpha pic_rgb24_5x3 0 pixels Hrun) as [H24 _].
  split; [| apply H24; reflexivity].
  vm_compute in Hrun. by injection Hrun as <-.
Defined.

(** ** RGB32 images are decoded verbatim *)

Lemma byteAt_inv (data : list byte) (i v : Z) :
  byteAt data i = Ok v ->
  0 <= i /\ exists c, data !! Z.to_nat i = Some c /\ v = u8 c.
Proof.
  unfold byteAt. destruct (Z.ltb_spec i 0); [discriminate |].
  destruct (data !! Z.to_nat i) as [c|]; [| discriminate].
  intros [= <-]. eauto.
Qed.

Lemma lookup_rgba_of_bytes (k : nat) :
  forall bs c0 c1 c2 c3,
  bs !! (4 * k)%nat = Some c0 -> bs !! (4 * k + 1)%nat = Some c1 ->
  bs !! (4 * k + 2)%nat = Some c2 -> bs !! (4 * k + 3)%nat = Some c3 ->
  rgba_of_bytes bs !! k = Some (mkColor32 (u8 c0) (u8 c1) (u8 c2) (u8 c3)).
Proof.
  induction k as [|k IH]; intros bs c0 c1 c2 c3 H0 H1 H2 H3.
  - destruct bs as [|x0 [|x1 [|x2 [|x3 rest]]]]; simpl in *; try discriminate.
    congruence.
  - replace (4 * S k)%nat with (S (S (S (S (4 * k))))) in * by lia.
    destruct bs as [|x0 [|x1 [|x2 [|x3 rest]]]]; simpl in *; try discriminate.
    apply IH; [done | ..].
    + by replace (4 * k + 1)%nat with (S (4 * k)) by lia.
    + replace (4 * k + 2)%nat with (S (S (4 * k))) by lia.
      by replace (S (S (S (S (4 * k))) + 2))%nat
        with (S (S (S (S (S (S (4 * k))))))) in H2 by lia.
    + replace (4 * k + 3)%nat with (S (S (S (4 * k)))) by lia.
      by replace (S (S (S (S (4 * k))) + 3))%nat
        with (S (S (S (S (S (S (S (4 * k)))))))) in H3 by lia.
Qed.

Lemma length_rgba_of_bytes (k : nat) :
  forall bs, length bs = (4 * k)%nat -> length (rgba_of_bytes bs) = k.
Proof.
  induction k as [|k IH]; intros bs Hlen.
  - by destruct bs.
  - destruct bs as [|x0 [|x1 [|x2 [|x3 rest]]]]; simpl in Hlen; try lia.
    simpl. f_equal. apply IH. lia.
Qed.

(** X7. An RGB32 level is decoded verbatim: when its pixels lie inside the
    image blob, [decodeImage] returns the bytes of the level, from the
    level's offset on, grouped by four into R, G, B, A, in file order. *)
Theorem decodeImage_rgb32_verbatim (p : Picture) (mipLevel : Z) :
  getImagePixelFormat (header p) = TIM2_RGB32 ->
  0 <= mipLevel < mipMapTextures (header p) ->
  mipLevel < 32 ->
  let width := Z.max 1 (Z.shiftr (imageWidth (header p)) mipLevel) in
  let height := Z.max 1 (Z.shiftr (imageHeight (header p)) mipLevel) in
  levelInBounds p mipLevel width height ->
  decodeImage p mipLevel
  = Ok (rgba_of_bytes
          (take (Z.to_nat (width * height * 4))
             (drop (Z.to_nat (getImageOffset p mipLevel)) (imageData p)))).
Proof.
  intros Hfmt Hlvl H32 width height Hb.
  pose proof (getMipMapWidth_Ok p mipLevel H32) as Hw. fold width in Hw.
  destruct (decodeImage_pixels p mipLevel Hlvl H32)
    as (pixels & Hrun & Hlen & Hall).
  { intros x y Hx Hy.
    by apply (getPixelColor_in_bounds p x y mipLevel width height). }
  fold width height in Hlen, Hall.
  rewrite Hrun. f_equal.
  destruct Hb as (Hoff & Hsize & _).
  unfold pixelBits in Hsize. rewrite Hfmt in Hsize. simpl in Hsize.
  set (off := getImageOffset p mipLevel) in *.
  set (N := width * height) in *.
  assert (HN : 0 <= N) by (subst N; nia).
  assert (Hbytes : off + N * 4 <= Z.of_nat (length (imageData p)))
    by (Z.to_euclidean_division_equations; lia).
  set (bs := take (Z.to_nat (N * 4)) (drop (Z.to_nat off) (imageData p))).
  assert (Hbs : length bs = (4 * Z.to_nat N)%nat).
  { subst bs. rewrite length_take, length_drop. lia. }
  apply (list_eq_same_length _ _ (Z.to_nat N));
    [by apply length_rgba_of_bytes | lia |].
  intros k c c' Hk Hc Hc'.
  pose proof (Z.div_mod (Z.of_nat k) width ltac:(lia)) as Hdm.
  pose proof (Z.mod_pos_bound (Z.of_nat k) width ltac:(lia)) as Hmod.
  assert (Hy : 0 <= Z.of_nat k / width < height).
  { split; [apply Z.div_pos; lia |]. apply Z.div_lt_upper_bound; lia. }
  destruct (Hall (Z.of_nat k mod width) (Z.of_nat k / width) Hmod Hy)
    as (c1 & Hpix & Hlook).
  replace (Z.to_nat (Z.of_nat k / width * width + Z.of_nat k mod width))
    with k in Hlook by lia.
  assert (c1 = c) by congruence. subst c1.
  unfold getPixelColor in Hpix. rewrite Hw, Hfmt in Hpix. simpl in Hpix.
  fold off in Hpix.
  replace (Z.of_nat k / width * width + Z.of_nat k mod width)
    with (Z.of_nat k) in Hpix by lia.
  apply bind_Ok in Hpix as (v0 & H0 & Hpix).
  apply bind_Ok in Hpix as (v1 & H1 & Hpix).
  apply bind_Ok in Hpix as (v2 & H2 & Hpix).
  apply bind_Ok in Hpix as (v3 & H3 & [= <-]).
  apply byteAt_inv in H0 as (_ & c0 & L0 & ->).
  apply byteAt_inv in H1 as (_ & c1 & L1 & ->).
  apply byteAt_inv in H2 as (_ & c2 & L2 & ->).
  apply byteAt_inv in H3 as (_ & c3 & L3 & ->).
  assert (Hget : forall j cj, (j < 4)%nat ->
            imageData p !! Z.to_nat (off + (Z.of_nat k * 4 + Z.of_nat j))
            = Some cj ->
            bs !! (4 * k + j)%nat = Some cj).
  { intros j cj Hj L. subst bs.
    rewrite lookup_take_lt by lia. rewrite lookup_drop.
    rewrite <- L. f_equal. lia. }
  rewrite (lookup_rgba_of_bytes k bs c0 c1 c2 c3) in Hc'.
  - congruence.
  - rewrite <- (Nat.add_0_r (4 * k)). by apply Hget; [lia |].
  - by apply (Hget 1%nat); [lia |].
  - by apply (Hget 2%nat); [lia |].
  - by apply (Hget 3%nat); [lia |].
Qed.

Lemma decodeImage_rgb32_verbatim_witness :
  decodeImage pic_rgb32_2x1 0
  = Ok [mkColor32 10 20 30 255; mkColor32 40 50 60 128].
Proof.
  rewrite (decodeImage_rgb32_verbatim pic_rgb32_2x1 0).
  - reflexivity.
  - reflexivity.
  - simpl. lia.
  - lia.
  - split; [vm_compute; discriminate |].
    split; [vm_compute; discriminate |].
    intros H. vm_compute in H. discriminate H.
Defined.

(** ** The compound CLUT is a reordering *)

Lemma lt_multiple_32 (i k : Z) : i < k * 32 <-> i / 32 < k.
Proof.
  pose proof (Z.div_mod i 32 ltac:(lia)).
  pose proof (Z.mod_pos_bound i 32 ltac:(lia)). lia.
Qed.

(** The swap stays on its side of every multiple of 32. *)
Lemma compoundSwap_lt_multiple (i n : Z) :
  n mod 32 = 0 -> (compoundSwap i < n <-> i < n).
Proof.
  intros Hn. apply Z.mod_divide in Hn as [k ->]; [| lia].
  rewrite !lt_multiple_32.
  destruct (compoundSwap_mod i) as [_ ->]. done.
Qed.

Lemma compoundSwap_block_bound (i n : Z) :
  0 <= i < n -> n mod 32 = 0 -> 0 <= compoundSwap i < n.
Proof.
  intros Hi Hn.
  pose proof (compoundSwap_lt_multiple i n Hn).
  pose proof (compoundSwap_lt_multiple i 0 eq_refl). lia.
Qed.

(** X8. Compound mode only reorders the palette. For a CSM1-compound CLUT
    whose colour count is a multiple of 32, entry [i] of the decoded CLUT
    is entry [compoundSwap i] of the same CLUT decoded in declared order
    (CSM2, or CSM1 without the compound flag), and the two decoded CLUTs
    hold the same colours with the same multiplicities. *)
Theorem compound_palette_permutation (p q : Picture)
    (colors plain : list Color32) :
  clutData p = clutData q ->
  clutColors (header p) = clutColors (header q) ->
  getClutPixelFormat (header p) = getClutPixelFormat (header q) ->
  hasClut (header p) = true -> hasClut (header q) = true ->
  isClutCSM2 (header p) = false -> isClutCompound (header p) = true ->
  isClutCSM2 (header q) = true \/ isClutCompound (header q) = false ->
  clutColors (header p) mod 32 = 0 ->
  getClutColors p = Ok colors ->
  getClutColors q = Ok plain ->
  (forall i, 0 <= i < clutColors (header p) ->
     colors !! Z.to_nat i = plain !! Z.to_nat (compoundSwap i))
  /\ colors ≡ₚ plain.
Proof.
  intros Hdata Hcount Hfmt Hcp Hcq H2 Hcomp Hq Hmul Hrun Hrunq.
  destruct (getClutColors_entries p colors Hrun Hcp) as [Hlen Hent].
  destruct (getClutColors_entries q plain Hrunq Hcq) as [Hlenq Hentq].
  set (n := clutColors (header p)) in *.
  assert (Hidx : forall i, 0 <= i < n ->
            colors !! Z.to_nat i = plain !! Z.to_nat (compoundSwap i)).
  { intros i Hi.
    pose proof (compoundSwap_block_bound i n Hi Hmul) as Hs.
    destruct (Hent i Hi) as (c & Hc & ->).
    destruct (Hentq (compoundSwap i) ltac:(lia)) as (c' & Hc' & ->).
    rewrite clutIndex_compound in Hc by done.
    rewrite clutIndex_declared_order in Hc' by done.
    congruence. }
  split; [exact Hidx |].
  apply Permutation_inj. split; [lia |].
  exists (fun x => Z.to_nat (compoundSwap (Z.of_nat x))). split.
  - intros x y Heq.
    pose proof (compoundSwap_lt_multiple (Z.of_nat x) 0 eq_refl).
    pose proof (compoundSwap_lt_multiple (Z.of_nat y) 0 eq_refl).
    apply Nat2Z.inj.
    rewrite <- (compoundSwap_involutive (Z.of_nat x)).
    rewrite <- (compoundSwap_involutive (Z.of_nat y)).
    f_equal. lia.
  - intros x. destruct (decide (Z.of_nat x < n)) as [Hx | Hx].
    + specialize (Hidx (Z.of_nat x) ltac:(lia)).
      by rewrite Nat2Z.id in Hidx.
    + pose proof (compoundSwap_lt_multiple (Z.of_nat x) n Hmul).
      rewrite !lookup_ge_None_2; [done | lia | lia].
Qed.

Lemma compound_palette_permutation_witness :
  exists colors plain,
    getClutColors pic_compound_clut = Ok colors
    /\ getClutColors pic_plain_clut = Ok plain
    /\ colors ≡ₚ plain
    /\ colors !! 9%nat = plain !! 17%nat.
Proof.
  destruct (getClutColors pic_compound_clut) as [colors|] eqn:Hrun;
    [| vm_compute in Hrun; discriminate].
  destruct (getClutColors pic_plain_clut) as [plain|] eqn:Hrunq;
    [| vm_compute in Hrunq; discriminate].
  exists colors, plain. split; [reflexivity |]. split; [reflexivity |].
  destruct (compound_palette_permutation pic_compound_clut pic_plain_clut
              colors plain)
    as [Hidx Hperm]; try reflexivity; try done.
  - by right.
  - split; [exact Hperm |]. apply (Hidx 9). simpl. lia.
Defined.

(** ** The contract of loadFile *)

(** [parseFileHeader] on a freshly opened file, case by case. *)
Lemma parseFileHeader_open (this : TIM2Parser) (bytes : list byte) :
  (16 <= length bytes)%nat ->
  parseFileHeader this (ifstream.open bytes)
  = let h := FileHeader_of_bytes (take 16 bytes) in
    if isValid h
    then (true,
          mkTIM2Parser h (m_pictures this) (m_valid this) (m_lastError this),
          afterFileHeader bytes)
    else (false,
          mkTIM2Parser h (m_pictures this) (m_valid this)
            "Invalid TIM2 file signature",
          afterFileHeader bytes).
Proof.
  intros Hlen. unfold parseFileHeader, readInto.
  rewrite FileHeader_bytes_length.
  unfold ifstream.read. change (ifstream.good (ifstream.open bytes)) with true.
  change (ifstream.remaining (ifstream.open bytes)) with bytes.
  cbv iota. change (Z.of_nat 16) with 16.
  destruct (Z.leb_spec 16 (Z.of_nat (length bytes))) as [_ | ?]; [| lia].
  change (Z.to_nat 16) with 16%nat.
  rewrite length_take, Nat.min_l by lia.
  rewrite drop_ge by (rewrite FileHeader_bytes_length; lia).
  rewrite app_nil_r. cbn [ifstream.fail ifstream.failbit m_fileHeader].
  cbv zeta. by destruct (isValid (FileHeader_of_bytes (take 16 bytes))).
Qed.

Lemma parseFileHeader_open_short (this : TIM2Parser) (bytes : list byte) :
  (length bytes < 16)%nat ->
  exists h s,
    parseFileHeader this (ifstream.open bytes)
    = (false,
       mkTIM2Parser h (m_pictures this) (m_valid this)
         "Failed to read file header", s).
Proof.
  intros Hlen. unfold parseFileHeader, readInto.
  rewrite FileHeader_bytes_length.
  unfold ifstream.read. change (ifstream.good (ifstream.open bytes)) with true.
  change (ifstream.remaining (ifstream.open bytes)) with bytes.
  cbv iota. change (Z.of_nat 16) with 16.
  destruct (Z.leb_spec 16 (Z.of_nat (length bytes))) as [? | _]; [lia |].
  cbn [ifstream.fail ifstream.failbit]. by eexists _, _.
Qed.

Lemma loadFile_loop_true (alignment : Z) (n : nat) :
  forall this this' s s' i,
  loadFile_loop this s alignment n i = (true, this', s') ->
  m_lastError this' = m_lastError this.
Proof.
  induction n as [|n IH]; intros this this' s s' i Hrun; simpl in Hrun.
  - by injection Hrun as <- <-.
  - destruct (parsePicture this s Picture_fresh alignment)
      as [[[ok1 this1] pic] s1] eqn:Hp.
    destruct ok1; [| discriminate]. simpl in Hrun.
    apply parsePicture_fresh_true in Hp as (_ & _ & -> & _).
    by apply IH in Hrun.
Qed.

Lemma field_take (n off len : nat) (bytes : list byte) :
  (off + len <= n)%nat ->
  field off len (take n bytes) = field off len bytes.
Proof.
  intros Hol. unfold field.
  replace n with (off + (n - off))%nat at 1 by lia.
  rewrite <- take_drop_commute, take_take. do 2 f_equal. lia.
Qed.

(** The file header a successful load leaves in the parser is the first 16
    bytes of the file. *)
Lemma loadFile_stream_header (this this' : TIM2Parser) (bytes : list byte)
    (s' : ifstream) :
  loadFile_stream (loadFile_reset this) (ifstream.open bytes)
  = (true, this', s') ->
  (16 <= length bytes)%nat
  /\ m_fileHeader this' = FileHeader_of_bytes (take 16 bytes)
  /\ m_lastError this' = "".
Proof.
  unfold loadFile_stream.
  destruct (decide (16 <= length bytes)%nat) as [Hlen | Hlen].
  - rewrite parseFileHeader_open by done. cbv zeta.
    destruct (isValid _); [| discriminate]. cbn [negb m_fileHeader].
    rewrite skipAlignment_jumpAligned.
    destruct (loadFile_loop _ _ _ _ _) as [[ok1 this1] s1] eqn:H1.
    destruct ok1; [| discriminate]. cbn [negb].
    intros [= <- _]. cbn [m_fileHeader m_lastError].
    pose proof (loadFile_loop_true _ _ _ _ _ _ _ H1) as Herr.
    apply loadFile_loop_spec in H1 as (_ & Hfh & _).
    + by rewrite Hfh, Herr.
    + by apply jumpAligned_spec.
  - destruct (parseFileHeader_open_short (loadFile_reset this) bytes)
      as (h & s & ->); [lia |]. discriminate.
Qed.

(** X9. The contract of [loadFile]. Its return value is what [isValid()]
    reports afterwards, and [getLastError()] is empty exactly on success.
    On success the file could be opened and holds at least the 16 bytes of
    a file header, its first four bytes are "TIM2", the file header the
    parser keeps is those 16 bytes decoded, the parser holds as many
    pictures as bytes 6 and 7 of the file declare, and each of them was read
    in full from the file. *)
Theorem loadFile_contract (this this' : TIM2Parser) (filename : string)
    (disk : option (list byte)) (ok : bool) :
  loadFile this filename disk = (ok, this') ->
  TIM2Parser_isValid this' = ok
  /\ (m_lastError this' = "" <-> ok = true)
  /\ (ok = true ->
      exists bytes,
        disk = Some bytes
        /\ (16 <= length bytes)%nat
        /\ take 4 bytes = TIM2_magic
        /\ m_fileHeader this' = FileHeader_of_bytes (take 16 bytes)
        /\ Z.of_nat (getPictureCount this') = field 6 2 bytes
        /\ Forall (wholePicture bytes) (getPictures this')).
Proof.
  unfold loadFile. destruct disk as [bytes|].
  - destruct (loadFile_stream _ _) as [[ok1 this1] s1] eqn:Hrun.
    intros [= <- <-].
    pose proof (loadFile_stream_spec _ _ _ _ _ Hrun)
      as (Hvalid & _ & Herr & Hall & Hok).
    split; [exact Hvalid |]. split.
    + split.
      * intros Hempty. destruct ok1; [done |]. by destruct (Herr eq_refl).
      * intros ->. by apply loadFile_stream_header in Hrun as (_ & _ & ?).
    + intros ->. destruct (Hok eq_refl) as [Hmagic Hcount].
      apply loadFile_stream_header in Hrun as (Hlen & Hfh & _).
      exists bytes. split; [done |]. split; [done |].
      rewrite Hfh in Hmagic, Hcount. split; [| split; [done | split]].
      * unfold isValid in Hmagic. apply bool_decide_eq_true in Hmagic.
        cbn [fileId FileHeader_of_bytes] in Hmagic.
        by rewrite take_take in Hmagic.
      * unfold getPictureCount. rewrite Hcount.
        cbn [pictures FileHeader_of_bytes]. apply field_take. lia.
      * eapply Forall_impl; [exact Hall |]. apply parsedFrom_whole.
  - intros [= <- <-]. simpl. split; [done |]. split; [| done].
    split; [| done]. unfold loadFile_reset, set_lastError. simpl.
    destruct filename; discriminate.
Qed.

Lemma loadFile_contract_witness :
  exists this',
    loadFile TIM2Parser_fresh "a.tm2" (Some file_two_levels) = (true, this')
    /\ TIM2Parser_isValid this' = true
    /\ m_lastError this' = ""
    /\ take 4 file_two_levels = TIM2_magic
    /\ m_fileHeader this' = FileHeader_of_bytes (take 16 file_two_levels)
    /\ getPictureCount this' = 1%nat.
Proof.
  destruct (loadFile TIM2Parser_fresh "a.tm2" (Some file_two_levels))
    as [ok this'] eqn:Hrun.
  destruct (loadFile_contract _ _ _ _ _ Hrun) as (Hvalid & Herr & Hok).
  assert (ok = true) as -> by (vm_compute in Hrun; congruence).
  destruct (Hok eq_refl) as (bytes & [= <-] & _ & Hmagic & Hfh & Hcount & _).
  exists this'. split; [reflexivity |]. split; [exact Hvalid |].
  split; [by apply Herr |]. split; [exact Hmagic |]. split; [exact Hfh |].
  apply Nat2Z.inj. rewrite Hcount. reflexivity.
Defined.

(** X10. A load starts from scratch: apart from the bytes of [m_fileHeader]
    that a file shorter than a header leaves unwritten, the outcome of
    [loadFile] does not depend on what the parser held before.  For a file
    of at least 16 bytes two parsers end in the very same state. *)
Theorem loadFile_forgets_previous_state (this1 this2 : TIM2Parser)
    (filename : string) (disk : option (list byte)) :
  let r1 := loadFile this1 filename disk in
  let r2 := loadFile this2 filename disk in
  r1.1 = r2.1
  /\ m_pictures r1.2 = m_pictures r2.2
  /\ m_valid r1.2 = m_valid r2.2
  /\ m_lastError r1.2 = m_lastError r2.2
  /\ (forall bytes, disk = Some bytes -> (16 <= length bytes)%nat -> r1 = r2).
Proof.
  cbv zeta. unfold loadFile. destruct disk as [bytes|].
  - destruct (decide (16 <= length bytes)%nat) as [Hlen | Hlen].
    + assert (Heq : loadFile_stream (loadFile_reset this1) (ifstream.open bytes)
                    = loadFile_stream (loadFile_reset this2)
                        (ifstream.open bytes)).
      { unfold loadFile_stream. by rewrite !parseFileHeader_open. }
      rewrite Heq. by destruct (loadFile_stream _ _) as [[ok t] s].
    + unfold loadFile_stream.
      destruct (parseFileHeader_open_short (loadFile_reset this1) bytes)
        as (h1 & s1 & ->); [lia |].
      destruct (parseFileHeader_open_short (loadFile_reset this2) bytes)
        as (h2 & s2 & ->); [lia |].
      simpl. repeat split. intros bytes' [= <-] ?. lia.
  - simpl. by repeat split.
Qed.

Lemma loadFile_forgets_previous_state_witness :
  loadFile TIM2Parser_fresh "a.tm2" (Some file_two_levels)
  = loadFile (loadFile TIM2Parser_fresh "b.tm2" None).2 "a.tm2"
      (Some file_two_levels).
Proof.
  destruct (loadFile_forgets_previous_state TIM2Parser_fresh
              (loadFile TIM2Parser_fresh "b.tm2" None).2 "a.tm2"
              (Some file_two_levels)) as (_ & _ & _ & _ & Hsame).
  apply (Hsame file_two_levels); [reflexivity | vm_compute; lia].
Defined.

(** X11. A file that declares no pictures is valid and empty: with the
    magic in place and a picture count of 0, [loadFile] succeeds with no
    pictures, whatever follows the header and whatever the version byte.
    The version byte is stored in the file header the parser keeps; a value
    other than [TIM2_FORMAT_VERSION] does not make the load fail
    ([parseFileHeader] compares it and only writes a warning to std::cerr,
    which is outside of what is modelled). *)
Theorem loadFile_no_pictures (this : TIM2Parser) (filename : string)
    (bytes : list byte) :
  (16 <= length bytes)%nat ->
  take 4 bytes = TIM2_magic ->
  field 6 2 bytes = 0 ->
  exists this',
    loadFile this filename (Some bytes) = (true, this')
    /\ TIM2Parser_isValid this' = true
    /\ getPictures this' = []
    /\ formatVersion (m_fileHeader this') = field 4 1 bytes.
Proof.
  intros Hlen Hmagic Hcount.
  unfold loadFile, loadFile_stream. rewrite parseFileHeader_open by done.
  cbv zeta.
  assert (Hvalid : isValid (FileHeader_of_bytes (take 16 bytes)) = true).
  { unfold isValid. apply bool_decide_eq_true.
    cbn [fileId FileHeader_of_bytes]. by rewrite take_take. }
  assert (Hfield : forall off len, (off + len <= 16)%nat ->
            field off len (take 16 bytes) = field off len bytes).
  { intros off len Hol. unfold field.
    replace 16%nat with (off + (16 - off))%nat at 1 by lia.
    rewrite <- take_drop_commute, take_take. do 2 f_equal. lia. }
  rewrite Hvalid. cbn [negb m_fileHeader pictures FileHeader_of_bytes].
  rewrite (Hfield 6 2)%nat by lia. rewrite Hcount. simpl.
  eexists. split; [reflexivity |]. simpl. split; [done |]. split; [done |].
  apply (Hfield 4 1)%nat. lia.
Qed.

Lemma loadFile_no_pictures_witness :
  exists this',
    loadFile TIM2Parser_fresh "a.tm2" (Some file_empty_v9) = (true, this')
    /\ getPictures this' = []
    /\ formatVersion (m_fileHeader this') = 9.
Proof.
  destruct (loadFile_no_pictures TIM2Parser_fresh "a.tm2" file_empty_v9)
    as (this' & Hrun & _ & Hpics & Hver).
  - simpl. lia.
  - reflexivity.
  - reflexivity.
  - exists this'. split; [exact Hrun |]. split; [exact Hpics |].
    rewrite Hver. reflexivity.
Defined.

(** ** User space, extended header and comment *)

Lemma strn_spec (maxLen : nat) :
  forall bs,
  (strn maxLen bs `prefix_of` bs)
  /\ (zero_byte ∉ strn maxLen bs)
  /\ (length (strn maxLen bs) <= maxLen)%nat.
Proof.
  induction maxLen as [|n IH]; intros bs; simpl.
  - split; [apply prefix_nil |]. split; [apply not_elem_of_nil | lia].
  - destruct bs as [|c rest].
    + split; [apply prefix_nil |]. split; [apply not_elem_of_nil | simpl; lia].
    + destruct (decide (c = zero_byte)) as [-> | Hc].
      * split; [apply prefix_nil |].
        split; [apply not_elem_of_nil | simpl; lia].
      * destruct (IH rest) as (Hpre & Hzero & Hlen).
        split; [by apply prefix_cons |]. split.
        -- rewrite not_elem_of_cons. split; [congruence | done].
        -- simpl. lia.
Qed.

Lemma parseUserSpace_user_space (s s' : ifstream) (pic pic' : Picture)
    (ok : bool) :
  parseUserSpace s pic = (ok, pic', s') ->
  extHeader pic = None -> comment pic = [] ->
  userSpaceParsed pic'.
Proof.
  unfold parseUserSpace. intros Hrun Hext Hcomment.
  assert (Hfresh : userSpaceParsed pic).
  { unfold userSpaceParsed. rewrite Hext, Hcomment.
    split; [apply not_elem_of_nil |]. split; [done |]. by intros e. }
  set (localSize := to_size_t _) in Hrun.
  destruct (localSize =? 0); [by injection Hrun as _ <- _ |].
  destruct (readInto _ s) as [data s1] eqn:Hr.
  apply readInto_spec in Hr as (_ & Hlen & _).
  rewrite length_replicate in Hlen.
  cbv zeta in Hrun.
  cbn [header mipMapHeader userData imageData clutData extHeader comment]
    in Hrun.
  remember (ExtendedHeader_of_bytes (take 16 data)) as e eqn:He.
  destruct (Z.leb_spec 16 localSize) as [H16 | H16].
  - destruct (ext_isValid e) eqn:Hvalid.
    + injection Hrun as _ <- _. unfold userSpaceParsed.
      cbn [userData extHeader comment].
      set (commentOffset := 16 + userDataSize e).
      set (endLimit := Z.min localSize (userSpaceSize e)).
      destruct (strn_spec (Z.to_nat (endLimit - commentOffset))
                  (drop (Z.to_nat commentOffset) data))
        as (Hpre & Hzero & Hmax).
      destruct (Z.ltb_spec commentOffset endLimit) as [Hlt | Hge].
      * split; [done |]. split; [done |].
        intros e' [= <-]. split; [lia |]. split; [done |].
        split; [by apply bool_decide_eq_true in Hvalid |].
        split; [done |]. intros _. subst endLimit commentOffset. lia.
      * rewrite Hcomment. split; [apply not_elem_of_nil |]. split; [done |].
        intros e' [= <-]. split; [lia |]. split; [done |].
        split; [by apply bool_decide_eq_true in Hvalid |].
        split; [apply prefix_nil | done].
    + injection Hrun as _ <- _. unfold userSpaceParsed.
      cbn [userData extHeader comment]. rewrite Hext, Hcomment.
      split; [apply not_elem_of_nil |]. split; [done |]. by intros e0.
  - injection Hrun as _ <- _. unfold userSpaceParsed.
    cbn [userData extHeader comment]. rewrite Hext, Hcomment.
    split; [apply not_elem_of_nil |]. split; [done |]. by intros e0.
Qed.

Lemma parsePicture_user_space (this this' : TIM2Parser) (s s' : ifstream)
    (pic : Picture) (alignment : Z) :
  parsePicture this s Picture_fresh alignment = (true, this', pic, s') ->
  userSpaceParsed pic.
Proof.
  intros Hrun.
  apply parsePicture_true in Hrun
    as (raw & s1 & pic1 & s2 & pic2 & s3 & pic3 & s4
        & _ & _ & H1 & H2 & H3 & H4 & _).
  cbv zeta in H1.
  cbn [header mipMapHeader userData imageData clutData extHeader comment
       Picture_fresh] in H1.
  assert (F1 : extHeader pic1 = None /\ comment pic1 = []).
  { destruct (1 <? _).
    - unfold parseMipMapHeader in H1.
      destruct (readUInt 8 0 s1) as [tbp1 t1].
      destruct (readUInt 8 0 t1) as [tbp2 t2].
      destruct (parseMipMapHeader_loop _ _ _ _) as [szs t3].
      by injection H1 as _ <- _.
    - by injection H1 as <- _. }
  destruct F1 as [Hext1 Hcom1].
  assert (F2 : userSpaceParsed pic2).
  { destruct (headerDataSize pic1 <? _).
    - by apply (parseUserSpace_user_space _ _ _ _ _ H2).
    - injection H2 as <- _. unfold userSpaceParsed. rewrite Hext1, Hcom1.
      split; [apply not_elem_of_nil |]. split; [done |]. by intros e. }
  assert (F3 : userSpaceParsed pic3).
  { destruct (0 <? imageSize _).
    - unfold parseImageData in H3. destruct (readInto _ _) as [data t].
      by injection H3 as _ <- _.
    - by injection H3 as <- _. }
  destruct (0 <? clutSize _).
  - unfold parseClutData in H4. destruct (readInto _ _) as [data t].
    by injection H4 as _ <- _.
  - by injection H4 as <- _.
Qed.

(** X12. For every picture of a loaded file: the extended header is present
    only if the user space holds at least its 16 bytes and begins with
    "eXt\0", and then it is those 16 bytes decoded; the comment contains no
    zero byte, is empty without extended header, and otherwise is a prefix
    of what follows the user data, ending within both the user space read
    and the valid size the extended header declares. *)
Theorem loaded_user_space (this this' : TIM2Parser) (filename : string)
    (bytes : list byte) (ok : bool) (pic : Picture) :
  loadFile this filename (Some bytes) = (ok, this') ->
  pic ∈ getPictures this' ->
  userSpaceParsed pic.
Proof.
  unfold loadFile, getPictures.
  destruct (loadFile_stream _ _) as [[ok1 this1] s1] eqn:Hrun.
  intros [= <- <-] Hin.
  apply loadFile_stream_spec in Hrun as (_ & _ & _ & Hall & _).
  rewrite Forall_forall in Hall.
  destruct (Hall pic Hin) as (this0 & s & al & this2 & s2 & _ & _ & Hp).
  by apply parsePicture_user_space in Hp.
Qed.

Lemma loaded_user_space_witness :
  exists this' pic,
    loadFile TIM2Parser_fresh "a.tm2" (Some file_with_comment) = (true, this')
    /\ getPictures this' = [pic]
    /\ comment pic = bytes_of [72; 105]
    /\ userSpaceParsed pic.
Proof.
  destruct (loadFile TIM2Parser_fresh "a.tm2" (Some file_with_comment))
    as [ok this'] eqn:Hrun.
  pose proof (fun pic => loaded_user_space _ _ _ _ _ pic Hrun) as Huser.
  vm_compute in Hrun. injection Hrun as <- <-.
  eexists _, _. split; [reflexivity |]. split; [reflexivity |].
  split; [reflexivity |]. apply Huser. apply list_elem_of_singleton.
  reflexivity.
Defined.

(** * Truncated input *)

(** ** Reads on a good and on a failed stream *)

Lemma fail_not_good (s : ifstream) :
  ifstream.fail s = true -> ifstream.good s = false.
Proof. unfold ifstream.fail, ifstream.good. by intros ->. Qed.

Lemma length_le_bytes (n : nat) : forall v, length (le_bytes n v) = n.
Proof. induction n as [|n IH]; intros v; simpl; [done | by rewrite IH]. Qed.

(** A read on a good stream succeeds exactly when the bytes asked for lie
    inside the file. *)
Lemma read_at (bytes : list byte) (p n : Z) (s : ifstream) :
  liveAt bytes p s -> 0 <= p -> 0 < n ->
  if readFits bytes p n
  then liveAt bytes (p + n) (ifstream.read n s).2
       /\ (ifstream.read n s).1
          = take (Z.to_nat n) (drop (Z.to_nat p) bytes)
  else ifstream.fail (ifstream.read n s).2 = true.
Proof.
  intros (Hc & Hg & Hp) H0 Hn.
  unfold readFits, ifstream.read, ifstream.remaining.
  rewrite Hg, Hc, Hp, length_drop.
  destruct (Z.leb_spec (p + n) (Z.of_nat (length bytes)));
    destruct (Z.leb_spec n (Z.of_nat (length bytes - Z.to_nat p)));
    try lia; done.
Qed.

Lemma read_dead (n : Z) (s : ifstream) :
  ifstream.fail s = true -> ifstream.fail (ifstream.read n s).2 = true.
Proof. intros Hf. by apply fail_sticky. Qed.

Lemma readInto_at (bytes old : list byte) (p : Z) (s : ifstream) :
  liveAt bytes p s -> 0 <= p -> (0 < length old)%nat ->
  if readFits bytes p (Z.of_nat (length old))
  then liveAt bytes (p + Z.of_nat (length old)) (readInto old s).2
       /\ (readInto old s).1
          = take (length old) (drop (Z.to_nat p) bytes)
  else ifstream.fail (readInto old s).2 = true.
Proof.
  intros Hlive H0 Hn.
  pose proof (read_at bytes p (Z.of_nat (length old)) s Hlive H0 ltac:(lia))
    as Hread.
  unfold readInto. destruct (ifstream.read _ s) as [got s'].
  cbn [fst snd] in *. unfold readFits in *.
  destruct (Z.leb_spec (p + Z.of_nat (length old)) (Z.of_nat (length bytes)));
    [| done].
  destruct Hread as [Hl ->]. split; [done |]. rewrite Nat2Z.id.
  rewrite (drop_ge old), app_nil_r; [done |].
  rewrite length_take, length_drop. lia.
Qed.

Lemma readInto_dead (old : list byte) (s : ifstream) :
  ifstream.fail s = true -> ifstream.fail (readInto old s).2 = true.
Proof.
  intros Hf. unfold readInto.
  pose proof (read_dead (Z.of_nat (length old)) s Hf).
  by destruct (ifstream.read _ s).
Qed.

Lemma readUInt_at (bytes : list byte) (n : nat) (old p : Z) (s : ifstream) :
  liveAt bytes p s -> 0 <= p -> (0 < n)%nat ->
  if readFits bytes p (Z.of_nat n)
  then liveAt bytes (p + Z.of_nat n) (readUInt n old s).2
  else ifstream.fail (readUInt n old s).2 = true.
Proof.
  intros Hlive H0 Hn.
  pose proof (readInto_at bytes (le_bytes n old) p s Hlive H0) as Hread.
  rewrite length_le_bytes in Hread. specialize (Hread Hn).
  unfold readUInt. destruct (readInto _ s) as [bs s']. cbn [snd] in *.
  destruct (readFits bytes p (Z.of_nat n)); tauto.
Qed.

Lemma readUInt_dead (n : nat) (old : Z) (s : ifstream) :
  ifstream.fail s = true -> ifstream.fail (readUInt n old s).2 = true.
Proof.
  intros Hf. unfold readUInt.
  pose proof (readInto_dead (le_bytes n old) s Hf).
  by destruct (readInto _ s).
Qed.

Lemma seek_to_dead (target : Z) (s : ifstream) :
  ifstream.fail s = true -> ifstream.fail (ifstream.seek_to target s) = true.
Proof. unfold ifstream.fail, ifstream.seek_to. by intros ->. Qed.

Lemma seek_to_at (bytes : list byte) (p target : Z) (s : ifstream) :
  liveAt bytes p s -> 0 <= target ->
  liveAt bytes target (ifstream.seek_to target s).
Proof.
  intros (Hc & Hg & Hp) Ht. apply good_not_fail in Hg.
  unfold ifstream.seek_to, ifstream.fail in *. rewrite Hg.
  by destruct (Z.ltb_spec target 0); [lia |].
Qed.

Lemma jumpAligned_at (bytes : list byte) (p alignment : Z) (s : ifstream) :
  liveAt bytes p s -> 0 <= p ->
  liveAt bytes (alignedPos p alignment) (jumpAligned s alignment)
  /\ 0 <= alignedPos p alignment.
Proof.
  intros Hlive H0. pose proof Hlive as (Hc & Hg & Hp).
  unfold jumpAligned, alignedPos, ifstream.tellg. rewrite Hg, Hp.
  pose proof (alignOffset_nonneg (to_size_t p) alignment).
  destruct (_ <? _); [| done].
  split; [| done]. by apply (seek_to_at bytes p).
Qed.

Lemma alignOffset_ge (offset alignment : Z) :
  0 <= offset -> 0 < alignment -> offset + alignment - 1 < 2 ^ 64 ->
  offset <= alignOffset offset alignment.
Proof.
  intros Ho Ha Hfit. unfold alignOffset, to_size_t.
  rewrite (Z.mod_small (offset + alignment - 1)) by lia.
  pose proof (Z.div_mod (offset + alignment - 1) alignment ltac:(lia)) as Hdm.
  pose proof (Z.mod_pos_bound (offset + alignment - 1) alignment Ha) as Hmb.
  set (q := (offset + alignment - 1) / alignment) in *.
  assert (0 <= q) by (apply Z.div_pos; lia).
  rewrite Z.mod_small by nia. nia.
Qed.

(** ** The sections of a picture, one by one *)

Lemma parseMipMapHeader_loop_dead (n : nat) :
  forall (i : nat) (sizes : list Z) (s : ifstream),
  ifstream.fail s = true ->
  ifstream.fail (parseMipMapHeader_loop n i sizes s).2 = true.
Proof.
  induction n as [|n IH]; intros i sizes s Hf; [done |].
  simpl. pose proof (readUInt_dead 4 (sizes !!! i) s Hf).
  destruct (readUInt 4 _ s) as [v t]. by apply IH.
Qed.

Lemma parseMipMapHeader_loop_at (bytes : list byte) (n : nat) :
  forall (i : nat) (sizes : list Z) (p : Z) (s : ifstream),
  liveAt bytes p s -> 0 <= p -> p <= Z.of_nat (length bytes) ->
  if readFits bytes p (4 * Z.of_nat n)
  then liveAt bytes (p + 4 * Z.of_nat n) (parseMipMapHeader_loop n i sizes s).2
  else ifstream.fail (parseMipMapHeader_loop n i sizes s).2 = true.
Proof.
  induction n as [|n IH]; intros i sizes p s Hlive H0 Hin.
  - unfold readFits. change (4 * Z.of_nat 0) with 0. rewrite Z.add_0_r.
    by destruct (Z.leb_spec p (Z.of_nat (length bytes))); [| lia].
  - simpl parseMipMapHeader_loop.
    pose proof (readUInt_at bytes 4 (sizes !!! i) p s Hlive H0 ltac:(lia))
      as Hread.
    destruct (readUInt 4 _ s) as [v t]. cbn [snd] in Hread.
    unfold readFits in *. change (Z.of_nat 4) with 4 in Hread.
    destruct (Z.leb_spec (p + 4) (Z.of_nat (length bytes))) as [Hfit | Hno].
    + specialize (IH (S i) (<[i := v]> sizes) (p + 4) t Hread
                    ltac:(lia) Hfit).
      replace (p + 4 + 4 * Z.of_nat n) with (p + 4 * Z.of_nat (S n))
        in IH by lia.
      exact IH.
    + destruct (Z.leb_spec (p + 4 * Z.of_nat (S n))
                  (Z.of_nat (length bytes))); [lia |].
      by apply parseMipMapHeader_loop_dead.
Qed.

Lemma parseMipMapHeader_at (bytes : list byte) (p : Z) (s : ifstream)
    (pic : Picture) :
  liveAt bytes p s -> 0 <= p ->
  1 < mipMapTextures (header pic) < 256 ->
  let levels := mipMapTextures (header pic) in
  let r := parseMipMapHeader s pic in
  header r.1.2 = header pic
  /\ is_Some (mipMapHeader r.1.2)
  /\ if readFits bytes p (16 + levels * 4)
     then r.1.1 = true
          /\ liveAt bytes (p + alignOffset (16 + levels * 4) 16) r.2
     else r.1.1 = false.
Proof.
  intros Hlive H0 Hlevels levels r. subst r. unfold parseMipMapHeader.
  pose proof (readUInt_at bytes 8 0 p s Hlive H0 ltac:(lia)) as H1.
  pose proof (readUInt_dead 8 0 s) as D1.
  destruct (readUInt 8 0 s) as [tbp1 s1]. cbn [snd] in H1, D1.
  pose proof (readUInt_at bytes 8 0 (p + 8) s1) as H2.
  pose proof (readUInt_dead 8 0 s1) as D2.
  destruct (readUInt 8 0 s1) as [tbp2 s2]. cbn [snd] in H2, D2.
  fold levels.
  pose proof (parseMipMapHeader_loop_at bytes (Z.to_nat levels) 0
                (replicate (Z.to_nat levels) 0) (p + 8 + 8) s2) as H3.
  pose proof (parseMipMapHeader_loop_dead (Z.to_nat levels) 0
                (replicate (Z.to_nat levels) 0) s2) as D3.
  destruct (parseMipMapHeader_loop _ _ _ s2) as [szs s3].
  cbn [fst snd] in *. split; [done |]. split; [by eexists |].
  pose proof (alignOffset_ge (16 + levels * 4) 16) as Hge.
  assert (Hdead : ifstream.fail s3 = true ->
            ifstream.good
              (if 16 + levels * 4 <? alignOffset (16 + levels * 4) 16
               then ifstream.seekg_cur
                      (alignOffset (16 + levels * 4) 16 - (16 + levels * 4))
                      s3
               else s3) = false).
  { intros Hf. apply fail_not_good. destruct (_ <? _); [| done].
    by apply seek_to_dead. }
  unfold readFits in *. change (Z.of_nat 8) with 8 in *.
  rewrite Z2Nat.id in H3 by lia.
  destruct (Z.leb_spec (p + (16 + levels * 4)) (Z.of_nat (length bytes)))
    as [Hfit | Hno].
  - destruct (Z.leb_spec (p + 8) (Z.of_nat (length bytes))); [| lia].
    specialize (H2 H1 ltac:(lia) ltac:(lia)).
    destruct (Z.leb_spec (p + 8 + 8) (Z.of_nat (length bytes))); [| lia].
    specialize (H3 H2 ltac:(lia) ltac:(lia)).
    destruct (Z.leb_spec (p + 8 + 8 + 4 * levels) (Z.of_nat (length bytes)));
      [| lia].
    destruct (Z.ltb_spec (16 + levels * 4)
                (alignOffset (16 + levels * 4) 16)) as [Hlt | Hnlt].
    + assert (Hseek : liveAt bytes (p + alignOffset (16 + levels * 4) 16)
                        (ifstream.seekg_cur
                           (alignOffset (16 + levels * 4) 16
                            - (16 + levels * 4)) s3)).
      { unfold ifstream.seekg_cur. destruct H3 as (Hc3 & Hg3 & Hp3).
        rewrite Hp3.
        replace (p + 8 + 8 + 4 * levels
                 + (alignOffset (16 + levels * 4) 16 - (16 + levels * 4)))
          with (p + alignOffset (16 + levels * 4) 16) by lia.
        apply (seek_to_at bytes (p + 8 + 8 + 4 * levels)); [done | lia]. }
      split; [apply Hseek | exact Hseek].
    + replace (alignOffset (16 + levels * 4) 16) with (16 + levels * 4)
        by lia.
      replace (p + (16 + levels * 4)) with (p + 8 + 8 + 4 * levels) by lia.
      split; [apply H3 | exact H3].
  - apply Hdead.
    destruct (Z.leb_spec (p + 8) (Z.of_nat (length bytes)));
      [| by auto].
    specialize (H2 H1 ltac:(lia) ltac:(lia)).
    destruct (Z.leb_spec (p + 8 + 8) (Z.of_nat (length bytes)));
      [| by auto].
    specialize (H3 H2 ltac:(lia) ltac:(lia)).
    by destruct (Z.leb_spec (p + 8 + 8 + 4 * levels)
                   (Z.of_nat (length bytes))); [lia |].
Qed.

Lemma parseUserSpace_at (bytes : list byte) (p : Z) (s : ifstream)
    (pic : Picture) :
  liveAt bytes p s -> 0 <= p ->
  0 < headerSize (header pic) - headerDataSize pic < 2 ^ 64 ->
  let r := parseUserSpace s pic in
  header r.1.2 = header pic
  /\ mipMapHeader r.1.2 = mipMapHeader pic
  /\ if readFits bytes p (headerSize (header pic) - headerDataSize pic)
     then r.1.1 = true
          /\ liveAt bytes (p + (headerSize (header pic) - headerDataSize pic))
               r.2
     else r.1.1 = false.
Proof.
  intros Hlive H0 Hsize r. subst r. unfold parseUserSpace.
  assert (Hlocal : to_size_t (headerSize (header pic) - headerDataSize pic)
                   = headerSize (header pic) - headerDataSize pic).
  { unfold to_size_t. apply Z.mod_small. lia. }
  rewrite Hlocal.
  set (localSize := headerSize (header pic) - headerDataSize pic) in *.
  destruct (Z.eqb_spec localSize 0) as [|_]; [lia |].
  pose proof (readInto_at bytes (replicate (Z.to_nat localSize) zero_byte)
                p s Hlive H0) as Hread.
  rewrite length_replicate, Z2Nat.id in Hread by lia.
  specialize (Hread ltac:(lia)).
  destruct (readInto _ s) as [data s1]. cbn [fst snd] in *.
  split; [| split].
  - destruct (16 <=? localSize); [| done]. by destruct (ext_isValid _).
  - destruct (16 <=? localSize); [| done]. by destruct (ext_isValid _).
  - destruct (readFits bytes p localSize).
    + destruct Hread as [Hl _]. split; [apply Hl | exact Hl].
    + by apply fail_not_good.
Qed.

Lemma parseImageData_at (bytes : list byte) (p : Z) (s : ifstream)
    (pic : Picture) :
  liveAt bytes p s -> 0 <= p -> 0 < imageSize (header pic) ->
  let r := parseImageData s pic in
  header r.1.2 = header pic
  /\ if readFits bytes p (imageSize (header pic))
     then r.1.1 = true /\ liveAt bytes (p + imageSize (header pic)) r.2
     else r.1.1 = false.
Proof.
  intros Hlive H0 Hsize r. subst r. unfold parseImageData.
  pose proof (readInto_at bytes
                (replicate (Z.to_nat (imageSize (header pic))) zero_byte)
                p s Hlive H0) as Hread.
  rewrite length_replicate, Z2Nat.id in Hread by lia.
  specialize (Hread ltac:(lia)).
  destruct (readInto _ s) as [data s1]. cbn [fst snd] in *.
  split; [done |].
  destruct (readFits bytes p (imageSize (header pic))).
  - destruct Hread as [Hl _]. split; [apply Hl | exact Hl].
  - by apply fail_not_good.
Qed.

Lemma parseClutData_at (bytes : list byte) (p : Z) (s : ifstream)
    (pic : Picture) :
  liveAt bytes p s -> 0 <= p -> 0 < clutSize (header pic) ->
  let r := parseClutData s pic in
  header r.1.2 = header pic
  /\ if readFits bytes p (clutSize (header pic))
     then r.1.1 = true /\ liveAt bytes (p + clutSize (header pic)) r.2
     else r.1.1 = false.
Proof.
  intros Hlive H0 Hsize r. subst r. unfold parseClutData.
  pose proof (readInto_at bytes
                (replicate (Z.to_nat (clutSize (header pic))) zero_byte)
                p s Hlive H0) as Hread.
  rewrite length_replicate, Z2Nat.id in Hread by lia.
  specialize (Hread ltac:(lia)).
  destruct (readInto _ s) as [data s1]. cbn [fst snd] in *.
  split; [done |].
  destruct (readFits bytes p (clutSize (header pic))).
  - destruct Hread as [Hl _]. split; [apply Hl | exact Hl].
  - by apply fail_not_good.
Qed.

(** ** A picture *)

(** [parsePicture] on a good stream at offset [start] returns [true]
    exactly when the file holds all sections of the picture that starts
    there, and then leaves the stream good at the end of the picture. *)
Lemma parsePicture_at (bytes : list byte) (this : TIM2Parser) (s : ifstream)
    (alignment start : Z) :
  liveAt bytes start s -> 0 <= start ->
  let r := parsePicture this s Picture_fresh alignment in
  match pictureEnd bytes alignment start with
  | Some e => r.1.1.1 = true /\ liveAt bytes e r.2 /\ 0 <= e
  | None => r.1.1.1 = false
  end.
Proof.
  intros Hlive H0 r. subst r. unfold parsePicture, pictureEnd, sectionEnd.
  pose proof (readInto_at bytes (replicate 48 zero_byte) start s Hlive H0)
    as Hread.
  rewrite length_replicate in Hread. specialize (Hread ltac:(lia)).
  change (Z.of_nat 48) with 48 in Hread.
  destruct (readInto (replicate 48 zero_byte) s) as [raw s1].
  cbn [fst snd] in Hread.
  destruct (readFits bytes start 48) eqn:Hfit48; [| by rewrite Hread].
  destruct Hread as [Hl1 ->].
  rewrite (good_not_fail s1) by apply Hl1.
  cbn [header mipMapHeader userData imageData clutData extHeader comment
       Picture_fresh].
  cbv zeta.
  set (hdr := PictureHeader_of_bytes (take 48 (drop (Z.to_nat start) bytes))).
  set (levels := mipMapTextures hdr).
  set (mipSize := alignOffset (16 + levels * 4) 16).
  assert (Hlevels : 0 <= levels < 256) by apply (field_range 17 1).
  assert (Hhs : 0 <= headerSize hdr < 65536) by apply (field_range 12 2).
  assert (Hmip0 : 0 <= mipSize) by apply alignOffset_nonneg.
  unfold readFits in Hfit48. apply Z.leb_le in Hfit48.
  (* the mipmap header *)
  set (pich := mkPicture hdr None [] [] [] None []).
  set (stage1 := if 1 <? levels then parseMipMapHeader s1 pich
                 else (true, pich, s1)).
  set (end1 := if 1 <? levels
               then (if readFits bytes (start + 48) (16 + levels * 4)
                     then Some (start + 48 + mipSize) else None)
               else Some (start + 48)).
  assert (S1 : header stage1.1.2 = hdr
               /\ headerDataSize stage1.1.2
                  = (if 1 <? levels then 48 + mipSize else 48)
               /\ match end1 with
                  | Some e => stage1.1.1 = true /\ liveAt bytes e stage1.2
                              /\ 0 <= e
                  | None => stage1.1.1 = false
                  end).
  { subst stage1 end1.
    destruct (Z.ltb_spec 1 levels) as [Hm | Hm].
    - destruct (parseMipMapHeader_at bytes (start + 48) s1 pich Hl1
                  ltac:(lia) ltac:(subst pich; cbn [header]; lia))
        as (Hh & [m Hm1] & Hrun).
      cbv zeta in Hrun. cbn [pich header] in Hrun. fold levels mipSize in Hrun.
      split; [exact Hh |]. split.
      + unfold headerDataSize. rewrite Hm1, Hh. done.
      + destruct (readFits bytes (start + 48) (16 + levels * 4)); [| done].
        destruct Hrun as [Hok Hlive1]. split; [done |]. split; [done | lia].
    - cbn [fst snd]. split; [done |]. split; [done |].
      split; [done |]. split; [done | lia]. }
  assert (E1 : (if 1 <? levels
                then match (if readFits bytes (start + 48) (16 + levels * 4)
                            then Some (start + 48 + (16 + levels * 4))
                            else None) with
                     | Some _ => Some (start + 48 + mipSize)
                     | None => None
                     end
                else Some (start + 48)) = end1).
  { subst end1. destruct (1 <? levels); [| done].
    by destruct (readFits _ _ _). }
  rewrite E1. clear E1.
  destruct stage1 as [[ok1 pic1] s2]. cbn [fst snd] in S1.
  destruct S1 as (Hh1 & Hhds1 & Hrun1).
  destruct end1 as [p1|]; [| by rewrite Hrun1].
  destruct Hrun1 as (-> & Hl2 & Hp1). cbn [negb].
  (* the user space *)
  rewrite Hh1, Hhds1.
  set (headerData := if 1 <? levels then 48 + mipSize else 48) in *.
  assert (Hhd : 48 <= headerData)
    by (subst headerData; destruct (1 <? levels); lia).
  set (stage2 := if headerData <? headerSize hdr then parseUserSpace s2 pic1
                 else (true, pic1, s2)).
  set (end2 := if headerData <? headerSize hdr
               then (if readFits bytes p1 (headerSize hdr - headerData)
                     then Some (p1 + (headerSize hdr - headerData)) else None)
               else Some p1).
  assert (S2 : header stage2.1.2 = hdr
               /\ match end2 with
                  | Some e => stage2.1.1 = true /\ liveAt bytes e stage2.2
                              /\ 0 <= e
                  | None => stage2.1.1 = false
                  end).
  { subst stage2 end2.
    destruct (Z.ltb_spec headerData (headerSize hdr)) as [Hu | Hu].
    - destruct (parseUserSpace_at bytes p1 s2 pic1 Hl2 Hp1
                  ltac:(rewrite Hh1, Hhds1; lia))
        as (Hh & _ & Hrun).
      rewrite Hh1, Hhds1 in Hrun. split; [congruence |].
      destruct (readFits bytes p1 (headerSize hdr - headerData)); [| done].
      destruct Hrun as [Hok Hlive2]. split; [done |]. split; [done | lia].
    - cbn [fst snd]. split; [done |]. split; [done |]. done. }
  fold end2. destruct stage2 as [[ok2 pic2] s3]. cbn [fst snd] in S2.
  destruct S2 as (Hh2 & Hrun2).
  destruct end2 as [p2|]; [| by rewrite Hrun2].
  destruct Hrun2 as (-> & Hl3 & Hp2). cbn [negb].
  (* the image blob *)
  rewrite Hh2.
  destruct (jumpAligned_at bytes p2 alignment s3 Hl3 Hp2) as [Hj3 Hjp3].
  set (a3 := alignedPos p2 alignment) in *.
  set (stage3 := if 0 <? imageSize hdr
                 then parseImageData (jumpAligned s3 alignment) pic2
                 else (true, pic2, jumpAligned s3 alignment)).
  set (end3 := if 0 <? imageSize hdr
               then (if readFits bytes a3 (imageSize hdr)
                     then Some (a3 + imageSize hdr) else None)
               else Some a3).
  assert (S3 : header stage3.1.2 = hdr
               /\ match end3 with
                  | Some e => stage3.1.1 = true /\ liveAt bytes e stage3.2
                              /\ 0 <= e
                  | None => stage3.1.1 = false
                  end).
  { subst stage3 end3.
    destruct (Z.ltb_spec 0 (imageSize hdr)) as [Hi | Hi].
    - destruct (parseImageData_at bytes a3 (jumpAligned s3 alignment) pic2
                  Hj3 Hjp3 ltac:(by rewrite Hh2)) as (Hh & Hrun).
      rewrite Hh2 in Hrun. split; [congruence |].
      destruct (readFits bytes a3 (imageSize hdr)); [| done].
      destruct Hrun as [Hok Hlive3]. split; [done |]. split; [done | lia].
    - cbn [fst snd]. split; [done |]. split; [done |]. done. }
  fold end3. destruct stage3 as [[ok3 pic3] s4]. cbn [fst snd] in S3.
  destruct S3 as (Hh3 & Hrun3).
  destruct end3 as [p3|]; [| by rewrite Hrun3].
  destruct Hrun3 as (-> & Hl4 & Hp3). cbn [negb].
  (* the CLUT blob *)
  rewrite Hh3.
  destruct (jumpAligned_at bytes p3 alignment s4 Hl4 Hp3) as [Hj4 Hjp4].
  set (a4 := alignedPos p3 alignment) in *.
  destruct (Z.ltb_spec 0 (clutSize hdr)) as [Hi | Hi].
  - destruct (parseClutData_at bytes a4 (jumpAligned s4 alignment) pic3
                Hj4 Hjp4 ltac:(by rewrite Hh3)) as (_ & Hrun).
    rewrite Hh3 in Hrun.
    destruct (parseClutData _ pic3) as [[ok4 pic4] s5]. cbn [fst snd] in Hrun.
    destruct (readFits bytes a4 (clutSize hdr)).
    + destruct Hrun as [-> Hlive4]. cbn [negb fst snd].
      split; [done |]. split; [done | lia].
    + by rewrite Hrun.
  - cbn [negb fst snd]. done.
Qed.

(** ** The whole file *)

Lemma loadFile_loop_at (bytes : list byte) (alignment : Z) (n : nat) :
  forall (this : TIM2Parser) (s : ifstream) (i : nat) (start : Z),
  liveAt bytes start s -> 0 <= start ->
  (loadFile_loop this s alignment n i).1.1
  = match picturesEnd bytes alignment n start with
    | Some _ => true
    | None => false
    end.
Proof.
  induction n as [|n IH]; intros this s i start Hlive H0; [done |].
  cbn [loadFile_loop picturesEnd].
  pose proof (parsePicture_at bytes this s alignment start Hlive H0) as Hpic.
  cbv zeta in Hpic.
  destruct (parsePicture this s Picture_fresh alignment)
    as [[[ok this1] pic] s1].
  cbn [fst snd] in Hpic.
  destruct (pictureEnd bytes alignment start) as [e|].
  - destruct Hpic as (-> & Hlive1 & He). cbn [negb]. by apply IH.
  - by rewrite Hpic.
Qed.

(** [loadFile] returns [true] exactly for a file that starts with "TIM2"
    and holds every section that is read. *)
Lemma loadFile_succeeds_iff (this : TIM2Parser) (filename : string)
    (bytes : list byte) :
  (loadFile this filename (Some bytes)).1
  = bool_decide (take 4 bytes = TIM2_magic) && allReadsFit bytes.
Proof.
  unfold loadFile, loadFile_stream, allReadsFit, readFits.
  destruct (Z.leb_spec (0 + 16) (Z.of_nat (length bytes))) as [Hlen | Hlen].
  - rewrite parseFileHeader_open by lia. cbv zeta.
    unfold isValid at 1. cbn [fileId FileHeader_of_bytes].
    rewrite take_take. change (4 `min` 16)%nat with 4%nat.
    destruct (bool_decide (take 4 bytes = TIM2_magic)); [| done].
    cbn [negb andb m_fileHeader].
    set (h := FileHeader_of_bytes (take 16 bytes)).
    rewrite skipAlignment_jumpAligned.
    destruct (jumpAligned_at bytes 16 (getAlignment h) (afterFileHeader bytes))
      as [Hlive Hpos]; [done | lia |].
    pose proof (loadFile_loop_at bytes (getAlignment h)
                  (Z.to_nat (pictures h))
                  (mkTIM2Parser h (m_pictures (loadFile_reset this))
                     (m_valid (loadFile_reset this))
                     (m_lastError (loadFile_reset this)))
                  _ 0 _ Hlive Hpos) as Hloop.
    destruct (loadFile_loop _ _ _ _ _) as [[ok this1] s1].
    cbn [fst snd] in Hloop. rewrite <- Hloop. by destruct ok.
  - destruct (parseFileHeader_open_short (loadFile_reset this) bytes)
      as (h & s & ->); [lia |].
    cbn [negb fst]. by rewrite andb_false_r.
Qed.

(** C3, as the code has it. When a section that [loadFile] reads extends
    past the end of the file (the file header, a picture header, the
    registers and level sizes of a mipmap header, the user space, an image
    blob or a CLUT blob, each at the position the sections before it and the
    alignment give it), the load fails as a whole: [loadFile] returns false
    with an error message and [isValid()] is false; the picture under
    construction is dropped, so every picture the parser still holds was
    read in full from the file. *)
Theorem loadFile_short_read_fails (this : TIM2Parser) (filename : string)
    (bytes : list byte) :
  allReadsFit bytes = false ->
  exists this',
    loadFile this filename (Some bytes) = (false, this')
    /\ TIM2Parser_isValid this' = false
    /\ m_lastError this' <> ""
    /\ Forall (wholePicture bytes) (getPictures this').
Proof.
  intros Hshort.
  pose proof (loadFile_succeeds_iff this filename bytes) as Hok.
  rewrite Hshort, andb_false_r in Hok. unfold loadFile in *.
  destruct (loadFile_stream _ _) as [[ok this'] file'] eqn:Hrun.
  cbn [fst] in Hok. subst ok. exists this'.
  apply loadFile_stream_spec in Hrun as (Hvalid & _ & Herr & Hall & _).
  split; [done |]. split; [exact Hvalid |]. split; [by apply Herr |].
  eapply Forall_impl; [exact Hall |]. apply parsedFrom_whole.
Qed.

Lemma loadFile_short_read_fails_witness :
  allReadsFit file_truncated = false
  /\ exists this',
       loadFile TIM2Parser_fresh "a.tm2" (Some file_truncated)
       = (false, this')
       /\ TIM2Parser_isValid this' = false
       /\ m_lastError this' <> "".
Proof.
  split; [reflexivity |].
  destruct (loadFile_short_read_fails TIM2Parser_fresh "a.tm2" file_truncated
              eq_refl) as (this' & Hload & Hvalid & Herr & _).
  exists this'. split; [exact Hload |]. split; [exact Hvalid | exact Herr].
Defined.

(** C3 as stated fails: the picture of [file_no_padding] declares a header
    of 80 bytes (48 of picture header and a mipmap header padded to 32) and
    a total size of 80 bytes, and only 72 bytes follow the file header; yet
    the load succeeds with one valid picture, because the padding of the
    mipmap header is skipped with [seekg], not read. *)
Lemma declared_bytes_missing_still_loads :
  headerSize (PictureHeader_of_bytes (take 48 (drop 16 file_no_padding))) = 80
  /\ totalSize (PictureHeader_of_bytes (take 48 (drop 16 file_no_padding)))
     = 80
  /\ Z.of_nat (length (drop 16 file_no_padding)) = 72
  /\ loadOutcome file_no_padding = (true, true, 1%nat, "")
  /\ allReadsFit file_no_padding = true.
Proof. repeat split. Qed.

(** * Helpers of utils.h *)

(** ** Alignment *)

(** X13. [utils::alignUp] and [utils::isAligned] fit together, and with the
    parser: for a non-zero alignment and as long as
    [value + alignment - 1] fits in [size_t], [alignUp] returns an aligned
    value, returns [value] itself exactly when [value] is aligned, and
    agrees with [TIM2Parser::alignOffset]. *)
Theorem alignUp_isAligned (value alignment : Z) :
  0 <= value -> 0 < alignment -> value + alignment - 1 < 2 ^ 64 ->
  exists r,
    utils.alignUp value alignment = Ok r
    /\ utils.isAligned r alignment = Ok true
    /\ (utils.isAligned value alignment = Ok true <-> r = value)
    /\ r = alignOffset value alignment.
Proof.
  intros Hv Ha Hfit.
  unfold utils.alignUp, utils.isAligned, alignOffset, to_u64, to_size_t.
  destruct (Z.eqb_spec alignment 0) as [| _]; [lia |].
  eexists. split; [reflexivity |].
  rewrite (Z.mod_small (value + alignment - 1)) by lia.
  set (q := (value + alignment - 1) / alignment).
  assert (Hq : 0 <= q * alignment <= value + alignment - 1).
  { subst q. split; [apply Z.mul_nonneg_nonneg; [apply Z.div_pos |]; lia |].
    rewrite Z.mul_comm. apply Z.mul_div_le. lia. }
  rewrite (Z.mod_small (q * alignment)) by lia.
  rewrite Z.mod_mul by lia. rewrite Z.eqb_refl.
  split; [done |]. split; [| done].
  split.
  - intros [= Hal%Z.eqb_eq]. subst q.
    apply Z.mod_divide in Hal as [k Hk]; [| lia]. subst value.
    replace (k * alignment + alignment - 1)
      with (alignment - 1 + k * alignment) by lia.
    rewrite Z.div_add by lia. rewrite Z.div_small by lia. lia.
  - intros Heq. rewrite <- Heq at 1. rewrite Z.mod_mul by lia. done.
Qed.

Lemma alignUp_isAligned_witness :
  exists r,
    utils.alignUp 100 16 = Ok r
    /\ utils.isAligned r 16 = Ok true
    /\ (utils.isAligned 100 16 = Ok true <-> r = 100)
    /\ r = alignOffset 100 16.
Proof. apply (alignUp_isAligned 100 16); [lia | lia | reflexivity]. Defined.

(** ** Colour depth conversion *)

Lemma expand5to8_value (v : Z) :
  0 <= v < 32 -> utils.expand5to8 v = 8 * v + v / 4.
Proof.
  intros Hv.
  apply Z.eqb_eq.
  apply (forall_bits_sound 5
           (fun v => utils.expand5to8 v =? 8 * v + v / 4) 0);
    [by vm_compute | simpl; lia].
Qed.

Lemma expand6to8_value (v : Z) :
  0 <= v < 64 -> utils.expand6to8 v = 4 * v + v / 16.
Proof.
  intros Hv.
  apply Z.eqb_eq.
  apply (forall_bits_sound 6
           (fun v => utils.expand6to8 v =? 4 * v + v / 16) 0);
    [by vm_compute | simpl; lia].
Qed.

Lemma contract8to5_value (c : Z) :
  0 <= c < 256 -> utils.contract8to5 c = c / 8.
Proof.
  intros Hc. unfold utils.contract8to5, to_u8.
  rewrite Z.shiftr_div_pow2 by lia. change (2 ^ 3) with 8.
  apply Z.mod_small. Z.to_euclidean_division_equations. lia.
Qed.

Lemma contract8to6_value (c : Z) :
  0 <= c < 256 -> utils.contract8to6 c = c / 4.
Proof.
  intros Hc. unfold utils.contract8to6, to_u8.
  rewrite Z.shiftr_div_pow2 by lia. change (2 ^ 2) with 4.
  apply Z.mod_small. Z.to_euclidean_division_equations. lia.
Qed.

(** X14. Widening a 5-bit (6-bit) channel to 8 bits loses nothing:
    [contract8to5] ([contract8to6]) gives the channel back; the widening
    keeps the order of the channels and maps the least one to 0 and the
    greatest one to 255. *)
Theorem expand_then_contract (v v' w w' : Z) :
  0 <= v <= v' -> v' < 32 -> 0 <= w <= w' -> w' < 64 ->
  utils.contract8to5 (utils.expand5to8 v') = v'
  /\ utils.contract8to6 (utils.expand6to8 w') = w'
  /\ utils.expand5to8 v <= utils.expand5to8 v'
  /\ utils.expand6to8 w <= utils.expand6to8 w'
  /\ utils.expand5to8 0 = 0 /\ utils.expand5to8 31 = 255
  /\ utils.expand6to8 0 = 0 /\ utils.expand6to8 63 = 255.
Proof.
  intros Hv Hv' Hw Hw'.
  rewrite !expand5to8_value, !expand6to8_value by lia.
  rewrite contract8to5_value, contract8to6_value
    by (Z.to_euclidean_division_equations; lia).
  conj_split; try reflexivity; Z.to_euclidean_division_equations; lia.
Qed.

Lemma expand_then_contract_witness :
  utils.contract8to5 (utils.expand5to8 30) = 30
  /\ utils.contract8to6 (utils.expand6to8 62) = 62
  /\ utils.expand5to8 21 <= utils.expand5to8 30
  /\ utils.expand6to8 21 <= utils.expand6to8 62
  /\ utils.expand5to8 0 = 0 /\ utils.expand5to8 31 = 255
  /\ utils.expand6to8 0 = 0 /\ utils.expand6to8 63 = 255.
Proof. apply (expand_then_contract 21 30 21 62); lia. Defined.

(** X15. Narrowing an 8-bit channel and widening it again stays close: the
    result differs from the original by at most 7 through 5 bits and by at
    most 3 through 6 bits, and the two extremes 0 and 255 come back
    unchanged. *)
Theorem contract_then_expand (c : Z) :
  0 <= c < 256 ->
  Z.abs (utils.expand5to8 (utils.contract8to5 c) - c) <= 7
  /\ Z.abs (utils.expand6to8 (utils.contract8to6 c) - c) <= 3
  /\ (c = 0 \/ c = 255 ->
      utils.expand5to8 (utils.contract8to5 c) = c
      /\ utils.expand6to8 (utils.contract8to6 c) = c).
Proof.
  intros Hc.
  rewrite contract8to5_value, contract8to6_value by lia.
  rewrite expand5to8_value, expand6to8_value
    by (Z.to_euclidean_division_equations; lia).
  conj_split; [| | intros [-> | ->]; by vm_compute];
    Z.to_euclidean_division_equations; lia.
Qed.

Lemma contract_then_expand_witness :
  Z.abs (utils.expand5to8 (utils.contract8to5 200) - 200) <= 7
  /\ Z.abs (utils.expand6to8 (utils.contract8to6 200) - 200) <= 3
  /\ (200 = 0 \/ 200 = 255 ->
      utils.expand5to8 (utils.contract8to5 200) = 200
      /\ utils.expand6to8 (utils.contract8to6 200) = 200).
Proof. apply (contract_then_expand 200). lia. Defined.

(** X16. [Color16::toColor32] widens each of its three 5-bit channels the
    way [utils::expand5to8] does: red from bits 0 to 4, green from bits 5 to
    9, blue from bits 10 to 14, and alpha 255 or 0 from bit 15. *)
Theorem toColor32_expand5to8 (value : Z) :
  0 <= value < 65536 ->
  toColor32 value
  = mkColor32 (utils.expand5to8 (Z.land value 0x1F))
      (utils.expand5to8 (Z.land (Z.shiftr value 5) 0x1F))
      (utils.expand5to8 (Z.land (Z.shiftr value 10) 0x1F))
      (if Z.testbit value 15 then 255 else 0).
Proof.
  intros Hv. apply color32_eqb_eq.
  apply (forall_bits_sound 16
           (fun v => color32_eqb (toColor32 v)
              (mkColor32 (utils.expand5to8 (Z.land v 0x1F))
                 (utils.expand5to8 (Z.land (Z.shiftr v 5) 0x1F))
                 (utils.expand5to8 (Z.land (Z.shiftr v 10) 0x1F))
                 (if Z.testbit v 15 then 255 else 0))) 0);
    [by vm_compute | simpl; lia].
Qed.

Lemma toColor32_expand5to8_witness :
  toColor32 0x83E0
  = mkColor32 (utils.expand5to8 (Z.land 0x83E0 0x1F))
      (utils.expand5to8 (Z.land (Z.shiftr 0x83E0 5) 0x1F))
      (utils.expand5to8 (Z.land (Z.shiftr 0x83E0 10) 0x1F))
      (if Z.testbit 0x83E0 15 then 255 else 0).
Proof. apply (toColor32_expand5to8 0x83E0). lia. Defined.

(** ** Byte order *)

Lemma testbit_above (v n k : Z) :
  0 <= v < 2 ^ n -> 0 <= n <= k -> Z.testbit v k = false.
Proof.
  intros Hv Hk. destruct (Z.eq_dec v 0) as [-> | Hne]; [apply Z.bits_0 |].
  apply Z.bits_above_log2; [lia |].
  assert (Z.log2 v < n) by (apply Z.log2_lt_pow2; lia). lia.
Qed.

(** Evaluates the bits of the constant masks in the goal. *)
Ltac bits_of_const :=
  repeat match goal with
  | |- context [Z.testbit ?c ?i] =>
      lazymatch c with
      | Zpos _ => idtac
      | Z0 => idtac
      end;
      let b := eval vm_compute in (Z.testbit c i) in
      change (Z.testbit c i) with b
  end.

(** Rewrites a bit of a term built from [lor], [land], shifts and
    reductions modulo a power of two into bits of its leaves. *)
Ltac push_testbit :=
  repeat first
    [ rewrite Z.lor_spec
    | rewrite Z.land_spec
    | rewrite Z.shiftr_spec by lia
    | rewrite Z.shiftl_spec by lia
    | rewrite Z.mod_pow2_bits_low by lia ].

Ltac enum_below k n :=
  lazymatch n with
  | O => exfalso; lia
  | S ?n' =>
      destruct (Z.eq_dec k (Z.of_nat n')) as [-> | ?]; [| enum_below k n']
  end.

Ltac swap_bits k n :=
  enum_below k n; simpl Z.of_nat; push_testbit; bits_of_const;
  rewrite ?andb_false_r, ?andb_true_r, ?orb_false_r, ?orb_false_l;
  reflexivity.

(** Bits of [v] below bit 0 and from bit [n] on are clear. *)
Ltac clear_bits v n :=
  repeat match goal with
  | |- context [Z.testbit v ?i] =>
      first [ rewrite (Z.testbit_neg_r v i) by lia
            | rewrite (testbit_above v n i) by lia ]
  end.

Lemma swapEndian_testbit_2 (v k : Z) :
  0 <= v < 2 ^ 16 -> 0 <= k < 16 ->
  Z.testbit (utils.swapEndian 2 v) k
  = Z.testbit v (8 * (1 - k / 8) + k mod 8).
Proof.
  intros Hv Hk.
  change (utils.swapEndian 2 v)
    with (to_u16 (Z.lor (Z.shiftr v 8) (Z.shiftl v 8))).
  unfold to_u16.
  enum_below k 16%nat; simpl Z.of_nat; push_testbit; clear_bits v 16;
    rewrite ?orb_false_r, ?orb_false_l; reflexivity.
Qed.

Lemma swapEndian_testbit_4 (v k : Z) :
  0 <= k < 32 ->
  Z.testbit (utils.swapEndian 4 v) k
  = Z.testbit v (8 * (3 - k / 8) + k mod 8).
Proof.
  intros Hk.
  change (utils.swapEndian 4 v) with
    (Z.lor (Z.lor (Z.lor
      (Z.land (Z.shiftr v 24) 0xFF)
      (Z.land (Z.shiftr v 8) 0xFF00))
      (Z.land (to_u32 (Z.shiftl v 8)) 0xFF0000))
      (Z.land (to_u32 (Z.shiftl v 24)) 0xFF000000)).
  unfold to_u32. swap_bits k 32%nat.
Qed.

Lemma swapEndian_testbit_8 (v k : Z) :
  0 <= k < 64 ->
  Z.testbit (utils.swapEndian 8 v) k
  = Z.testbit v (8 * (7 - k / 8) + k mod 8).
Proof.
  intros Hk.
  change (utils.swapEndian 8 v) with
    (Z.lor (Z.lor (Z.lor (Z.lor (Z.lor (Z.lor (Z.lor
      (Z.land (Z.shiftr v 56) 0xFF)
      (Z.land (Z.shiftr v 40) 0xFF00))
      (Z.land (Z.shiftr v 24) 0xFF0000))
      (Z.land (Z.shiftr v 8) 0xFF000000))
      (Z.land (to_u64 (Z.shiftl v 8)) 0xFF00000000))
      (Z.land (to_u64 (Z.shiftl v 24)) 0xFF0000000000))
      (Z.land (to_u64 (Z.shiftl v 40)) 0xFF000000000000))
      (Z.land (to_u64 (Z.shiftl v 56)) 0xFF00000000000000)).
  unfold to_u64. swap_bits k 64%nat.
Qed.

Ltac mask_bits_clear Hmask k :=
  repeat match goal with
  | |- context [Z.testbit (Zpos ?p) k] =>
      rewrite (Hmask (Zpos p)) by (simpl; lia)
  end.

(** From its width on, the result has no bits. *)
Lemma swapEndian_high (size v k : Z) :
  size = 1 \/ size = 2 \/ size = 4 \/ size = 8 ->
  0 <= v < 2 ^ (8 * size) -> 8 * size <= k ->
  Z.testbit (utils.swapEndian size v) k = false.
Proof.
  intros Hsize Hv Hk.
  assert (Hmask : forall m, 0 <= m < 2 ^ (8 * size) ->
            Z.testbit m k = false).
  { intros m Hm. apply (testbit_above m (8 * size)); lia. }
  destruct Hsize as [-> | [-> | [-> | ->]]].
  - by apply Hmask.
  - change (utils.swapEndian 2 v)
      with (to_u16 (Z.lor (Z.shiftr v 8) (Z.shiftl v 8))).
    unfold to_u16. apply Z.mod_pow2_bits_high. lia.
  - change (utils.swapEndian 4 v) with
      (Z.lor (Z.lor (Z.lor
        (Z.land (Z.shiftr v 24) 0xFF)
        (Z.land (Z.shiftr v 8) 0xFF00))
        (Z.land (to_u32 (Z.shiftl v 8)) 0xFF0000))
        (Z.land (to_u32 (Z.shiftl v 24)) 0xFF000000)).
    rewrite !Z.lor_spec, !Z.land_spec. mask_bits_clear Hmask k.
    by rewrite !andb_false_r.
  - change (utils.swapEndian 8 v) with
      (Z.lor (Z.lor (Z.lor (Z.lor (Z.lor (Z.lor (Z.lor
        (Z.land (Z.shiftr v 56) 0xFF)
        (Z.land (Z.shiftr v 40) 0xFF00))
        (Z.land (Z.shiftr v 24) 0xFF0000))
        (Z.land (Z.shiftr v 8) 0xFF000000))
        (Z.land (to_u64 (Z.shiftl v 8)) 0xFF00000000))
        (Z.land (to_u64 (Z.shiftl v 24)) 0xFF0000000000))
        (Z.land (to_u64 (Z.shiftl v 40)) 0xFF000000000000))
        (Z.land (to_u64 (Z.shiftl v 56)) 0xFF00000000000000)).
    rewrite !Z.lor_spec, !Z.land_spec. mask_bits_clear Hmask k.
    by rewrite !andb_false_r.
Qed.

(** Bit [k] of the result is the bit at the same place of the mirrored
    byte. *)
Lemma swapEndian_testbit (size v k : Z) :
  size = 1 \/ size = 2 \/ size = 4 \/ size = 8 ->
  0 <= v < 2 ^ (8 * size) -> 0 <= k < 8 * size ->
  Z.testbit (utils.swapEndian size v) k
  = Z.testbit v (8 * (size - 1 - k / 8) + k mod 8).
Proof.
  intros [-> | [-> | [-> | ->]]] Hv Hk.
  - change (utils.swapEndian 1 v) with v. f_equal.
    Z.to_euclidean_division_equations. lia.
  - by apply swapEndian_testbit_2.
  - by apply swapEndian_testbit_4.
  - by apply swapEndian_testbit_8.
Qed.


Lemma swapEndian_range (size v : Z) :
  size = 1 \/ size = 2 \/ size = 4 \/ size = 8 ->
  0 <= v < 2 ^ (8 * size) ->
  0 <= utils.swapEndian size v < 2 ^ (8 * size).
Proof.
  intros Hsize Hv.
  assert (Hnn : 0 <= utils.swapEndian size v).
  { destruct Hsize as [-> | [-> | [-> | ->]]].
    - change (utils.swapEndian 1 v) with v. lia.
    - apply Z.mod_pos_bound. lia.
    - repeat (apply Z.lor_nonneg; split); apply Z.land_nonneg; right; lia.
    - repeat (apply Z.lor_nonneg; split); apply Z.land_nonneg; right; lia. }
  split; [done |].
  destruct (Z.lt_ge_cases (utils.swapEndian size v) (2 ^ (8 * size)))
    as [| Hge]; [done | exfalso].
  assert (Hpos : 0 < utils.swapEndian size v) by lia.
  pose proof (Z.bit_log2 _ Hpos) as Hbit.
  rewrite swapEndian_high in Hbit; [done | done | done |].
  apply Z.log2_le_pow2; lia.
Qed.

Lemma testbit_div_256_pow (x : Z) (i : nat) (k : Z) :
  0 <= k -> Z.testbit (x / 256 ^ Z.of_nat i) k = Z.testbit x (k + 8 * Z.of_nat i).
Proof.
  intros Hk. change 256 with (2 ^ 8). rewrite <- Z.pow_mul_r by lia.
  rewrite <- Z.shiftr_div_pow2 by lia. by apply Z.shiftr_spec.
Qed.

Lemma byte_of_ext (x y : Z) :
  (forall k, 0 <= k < 8 -> Z.testbit x k = Z.testbit y k) ->
  byte_of x = byte_of y.
Proof.
  intros Hbits. unfold byte_of. do 3 f_equal.
  change 256 with (2 ^ 8). apply Z.bits_inj'. intros k Hk.
  destruct (Z.lt_ge_cases k 8).
  - rewrite !Z.mod_pow2_bits_low by lia. apply Hbits. lia.
  - by rewrite !Z.mod_pow2_bits_high by lia.
Qed.

Lemma lookup_le_bytes (n : nat) :
  forall (v : Z) (i : nat), (i < n)%nat ->
  le_bytes n v !! i = Some (byte_of (v / 256 ^ Z.of_nat i)).
Proof.
  induction n as [|n IH]; intros v i Hi; [lia |].
  destruct i as [|i]; simpl.
  - by rewrite Z.div_1_r.
  - rewrite IH by lia. do 2 f_equal.
    rewrite Z.div_div by lia. f_equal.
    rewrite <- Z.pow_succ_r by lia. f_equal. lia.
Qed.

(** X17. [utils::swapEndian] on an unsigned type of 1, 2, 4 or 8 bytes
    reverses the bytes of its argument: the little-endian bytes of the
    result are those of the argument in reverse order.  The result stays in
    the type, and swapping twice gives the argument back. *)
Theorem swapEndian_reverses_bytes (size v : Z) :
  size = 1 \/ size = 2 \/ size = 4 \/ size = 8 ->
  0 <= v < 2 ^ (8 * size) ->
  le_bytes (Z.to_nat size) (utils.swapEndian size v)
  = reverse (le_bytes (Z.to_nat size) v)
  /\ 0 <= utils.swapEndian size v < 2 ^ (8 * size)
  /\ utils.swapEndian size (utils.swapEndian size v) = v.
Proof.
  intros Hsize Hv.
  assert (Hs : 1 <= size <= 8) by lia.
  pose proof (swapEndian_range size v Hsize Hv) as Hrange.
  split; [| split; [done |]].
  - apply list_eq_same_length with (Z.to_nat size);
      [by rewrite length_reverse, length_le_bytes
      | by rewrite length_le_bytes |].
    intros i x y Hi Hx Hy.
    rewrite lookup_le_bytes in Hx by done.
    rewrite reverse_lookup, length_le_bytes in Hy
      by (rewrite length_le_bytes; lia).
    rewrite lookup_le_bytes in Hy by lia.
    injection Hx as <-. injection Hy as <-.
    apply byte_of_ext. intros k Hk.
    rewrite !testbit_div_256_pow by lia.
    rewrite swapEndian_testbit by (done || lia). f_equal.
    Z.to_euclidean_division_equations. lia.
  - apply Z.bits_inj'. intros k Hk.
    destruct (Z.lt_ge_cases k (8 * size)) as [Hlt | Hge].
    + rewrite swapEndian_testbit by (done || lia).
      rewrite swapEndian_testbit
        by (done || (Z.to_euclidean_division_equations; lia)).
      f_equal. Z.to_euclidean_division_equations. lia.
    + rewrite swapEndian_high by done.
      symmetry. apply (testbit_above v (8 * size)); lia.
Qed.

Lemma swapEndian_reverses_bytes_witness :
  le_bytes (Z.to_nat 4) (utils.swapEndian 4 0x11223344)
  = reverse (le_bytes (Z.to_nat 4) 0x11223344)
  /\ 0 <= utils.swapEndian 4 0x11223344 < 2 ^ (8 * 4)
  /\ utils.swapEndian 4 (utils.swapEndian 4 0x11223344) = 0x11223344.
Proof.
  apply (swapEndian_reverses_bytes 4 0x11223344);
    [right; right; left; reflexivity | simpl; lia].
Defined.

(** ** Bit fields *)

Lemma bits_bound (x n : Z) :
  0 <= x -> 0 <= n -> (forall k, n <= k -> Z.testbit x k = false) ->
  x < 2 ^ n.
Proof.
  intros Hx Hn Hbits.
  destruct (Z.lt_ge_cases x (2 ^ n)) as [| Hge]; [done | exfalso].
  assert (Hpos : 0 < x) by lia.
  pose proof (Z.bit_log2 _ Hpos) as Hbit.
  rewrite Hbits in Hbit; [done |]. apply Z.log2_le_pow2; lia.
Qed.

Lemma setBits_testbit (value start count bits v' k : Z) :
  0 <= value < 2 ^ 64 ->
  utils.setBits value start count bits = Ok v' ->
  0 <= k ->
  Z.testbit v' k
  = if k <? 64 then
      if (start <=? k) && (k <? start + count)
      then Z.testbit bits (k - start) else Z.testbit value k
    else false.
Proof.
  unfold utils.setBits, utils.shiftCount64. intros Hv Hrun Hk.
  destruct (Z.leb_spec 0 start); [| done].
  destruct (Z.ltb_spec start 64); [| done].
  destruct (Z.leb_spec 0 count); [| done].
  destruct (Z.ltb_spec count 64); [| done].
  simpl in Hrun. injection Hrun as <-.
  change (Z.shiftl 1 count - 1) with (Z.ones count).
  unfold to_u64. rewrite Z.lor_spec, !Z.land_spec.
  destruct (Z.ltb_spec k 64) as [Hlt | Hge].
  - rewrite !Z.mod_pow2_bits_low by lia.
    rewrite Z.lnot_spec by lia. rewrite Z.mod_pow2_bits_low by lia.
    rewrite !Z.shiftl_spec by lia. rewrite Z.testbit_ones by lia.
    destruct (Z.leb_spec start k); destruct (Z.ltb_spec k (start + count));
      destruct (Z.leb_spec 0 (k - start));
      destruct (Z.ltb_spec (k - start) count); try lia; simpl;
      rewrite ?andb_true_r, ?andb_false_r, ?orb_false_r; done.
  - rewrite !Z.mod_pow2_bits_high by lia.
    by rewrite !andb_false_r.
Qed.

(** X18. [utils::setBits] and [utils::extractBits] are a write and a read
    of the same field.  For a field of [count] bits at bit [start] that
    lies inside the 64-bit word, [setBits] changes the bits of the field
    to the low [count] bits of [bits] and no other bit, and [extractBits]
    on the result reads those bits back. *)
Theorem setBits_then_extractBits (value start count bits : Z) :
  0 <= value < 2 ^ 64 -> 0 <= bits < 2 ^ 32 ->
  0 <= start < 64 -> 0 <= count < 64 -> start + count <= 64 ->
  exists v',
    utils.setBits value start count bits = Ok v'
    /\ 0 <= v' < 2 ^ 64
    /\ (forall k, 0 <= k ->
          Z.testbit v' k
          = if (start <=? k) && (k <? start + count)
            then Z.testbit bits (k - start) else Z.testbit value k)
    /\ utils.extractBits v' start count = Ok (bits mod 2 ^ count).
Proof.
  intros Hv Hb Hs Hc Hfit.
  destruct (utils.setBits value start count bits) as [v'|] eqn:Hrun;
    [| unfold utils.setBits, utils.shiftCount64 in Hrun;
       destruct (Z.leb_spec 0 start); [| lia];
       destruct (Z.ltb_spec start 64); [| lia];
       destruct (Z.leb_spec 0 count); [| lia];
       destruct (Z.ltb_spec count 64); [| lia]; done].
  pose proof (fun k => setBits_testbit value start count bits v' k Hv Hrun)
    as Hbit.
  assert (Hbit' : forall k, 0 <= k ->
            Z.testbit v' k
            = if (start <=? k) && (k <? start + count)
              then Z.testbit bits (k - start) else Z.testbit value k).
  { intros k Hk. rewrite Hbit by done.
    destruct (Z.ltb_spec k 64) as [| Hge]; [done |].
    destruct (Z.leb_spec start k); destruct (Z.ltb_spec k (start + count));
      try lia; simpl; symmetry; apply (testbit_above value 64); lia. }
  assert (Hnn : 0 <= v').
  { unfold utils.setBits in Hrun.
    destruct (_ && _); [| done]. injection Hrun as <-.
    apply Z.lor_nonneg. unfold to_u64.
    split; apply Z.land_nonneg; right; apply Z.mod_pos_bound; lia. }
  exists v'. split; [done |]. split; [| split; [done |]].
  - split; [done |]. apply bits_bound; [done | lia |].
    intros k Hk. rewrite Hbit by lia.
    destruct (Z.ltb_spec k 64); [lia | done].
  - unfold utils.extractBits, utils.shiftCount64.
    destruct (Z.leb_spec 0 start); [| lia].
    destruct (Z.ltb_spec start 64); [| lia].
    destruct (Z.leb_spec 0 count); [| lia].
    destruct (Z.ltb_spec count 64); [| lia].
    simpl. f_equal.
    change (Z.shiftl 1 count - 1) with (Z.ones count).
    rewrite Z.land_ones by lia.
    assert (Heq : Z.shiftr v' start mod 2 ^ count = bits mod 2 ^ count).
    { apply Z.bits_inj'. intros k Hk.
      destruct (Z.lt_ge_cases k count).
      - rewrite !Z.mod_pow2_bits_low by lia.
        rewrite Z.shiftr_spec by lia. rewrite Hbit' by lia.
        destruct (Z.leb_spec start (k + start));
          destruct (Z.ltb_spec (k + start) (start + count)); try lia.
        simpl. f_equal. lia.
      - by rewrite !Z.mod_pow2_bits_high by lia. }
    rewrite Heq. unfold to_u32. apply Z.mod_small.
    pose proof (Z.mod_pos_bound bits (2 ^ count) ltac:(lia)).
    assert (bits mod 2 ^ count <= bits) by (apply Z.mod_le; lia).
    lia.
Qed.

Lemma setBits_then_extractBits_witness :
  exists v',
    utils.setBits 0xFFFF 4 8 0xAB = Ok v'
    /\ 0 <= v' < 2 ^ 64
    /\ (forall k, 0 <= k ->
          Z.testbit v' k
          = if (4 <=? k) && (k <? 4 + 8)
            then Z.testbit 0xAB (k - 4) else Z.testbit 0xFFFF k)
    /\ utils.extractBits v' 4 8 = Ok (0xAB mod 2 ^ 8).
Proof. apply (setBits_then_extractBits 0xFFFF 4 8 0xAB); lia. Defined.

(** ** Dimensions *)

Lemma shiftLeftInt_one (n : Z) :
  0 <= n <= 30 -> utils.shiftLeftInt 1 n = Ok (2 ^ n).
Proof.
  intros Hn. unfold utils.shiftLeftInt, utils.shiftCount32.
  destruct (Z.leb_spec 0 n); [| lia]. destruct (Z.ltb_spec n 32); [| lia].
  simpl. f_equal. rewrite Z.shiftl_1_l. unfold to_int.
  assert (0 < 2 ^ n <= 2 ^ 30)
    by (split; [lia | apply Z.pow_le_mono_r; lia]).
  rewrite Z.mod_small; lia.
Qed.

Lemma checkedInt_small (v : Z) :
  - 2 ^ 31 <= v < 2 ^ 31 -> utils.checkedInt v = Ok v.
Proof.
  intros Hv. unfold utils.checkedInt.
  destruct (Z.leb_spec (- 2 ^ 31) v); [| lia].
  destruct (Z.ltb_spec v (2 ^ 31)); [done | lia].
Qed.

(** The multiple [isValidDimension] asks for is a power of two that covers
    every level of the picture. *)
Lemma isValidDimension_multiple (dimension pixelFormat mipLevels : Z) :
  1 <= mipLevels <= 29 ->
  exists m,
    mipLevels - 1 <= m <= mipLevels + 1
    /\ utils.isValidDimension dimension pixelFormat mipLevels
       = Ok (Z.rem dimension (2 ^ m) =? 0).
Proof.
  intros Hl. unfold utils.isValidDimension.
  destruct (pixelFormat =? 4); [| destruct (pixelFormat =? 5);
    [| destruct (Z.ltb_spec 1 mipLevels)]].
  - exists (mipLevels + 1). split; [lia |].
    rewrite checkedInt_small by lia. simpl.
    by rewrite shiftLeftInt_one by lia.
  - exists mipLevels. split; [lia |]. by rewrite shiftLeftInt_one by lia.
  - exists (mipLevels - 1). split; [lia |].
    rewrite checkedInt_small by lia. simpl.
    by rewrite shiftLeftInt_one by lia.
  - exists 0. split; [lia | done].
Qed.

(** X19. A dimension that [utils::isValidDimension] accepts for a picture
    of [mipLevels] levels halves exactly at every level:
    [utils::getMipDimension] of each level below [mipLevels] is the
    dimension divided by [2^level], without remainder and without the
    clamp to 1 coming into play. *)
Theorem valid_dimension_halves_exactly
    (dimension pixelFormat mipLevels level : Z) :
  0 < dimension < 2 ^ 31 -> 1 <= mipLevels <= 29 ->
  utils.isValidDimension dimension pixelFormat mipLevels = Ok true ->
  0 <= level < mipLevels ->
  exists d,
    utils.getMipDimension dimension level = Ok d
    /\ d * 2 ^ level = dimension.
Proof.
  intros Hd Hl Hvalid Hlevel.
  destruct (isValidDimension_multiple dimension pixelFormat mipLevels Hl)
    as (m & Hm & Heq).
  rewrite Heq in Hvalid. injection Hvalid as Hrem%Z.eqb_eq.
  assert (H2m : 0 < 2 ^ m) by (apply Z.pow_pos_nonneg; lia).
  rewrite Z.rem_mod_nonneg in Hrem by lia.
  apply Z.mod_divide in Hrem as [q Hq]; [| lia].
  assert (Hsplit : 2 ^ m = 2 ^ (m - level) * 2 ^ level)
    by (rewrite <- Z.pow_add_r by lia; f_equal; lia).
  assert (H2l : 0 < 2 ^ level) by (apply Z.pow_pos_nonneg; lia).
  assert (Hdiv : dimension / 2 ^ level = q * 2 ^ (m - level)).
  { rewrite Hq, Hsplit, Z.mul_assoc. apply Z.div_mul. lia. }
  exists (dimension / 2 ^ level). split.
  - unfold utils.getMipDimension, utils.shiftCount32.
    destruct (Z.leb_spec 0 level); [| lia].
    destruct (Z.ltb_spec level 32); [| lia].
    simpl. f_equal. rewrite Z.shiftr_div_pow2 by lia.
    apply Z.max_r.
    assert (0 < dimension / 2 ^ level); [| lia].
    apply Z.div_str_pos. split; [lia |].
    rewrite Hq, Hsplit, Z.mul_assoc.
    assert (0 < q * 2 ^ (m - level)); [| nia].
    assert (0 < 2 ^ (m - level)) by (apply Z.pow_pos_nonneg; lia).
    nia.
  - rewrite Hdiv, Hq, Hsplit. ring.
Qed.

Lemma valid_dimension_halves_exactly_witness :
  exists d, utils.getMipDimension 96 2 = Ok d /\ d * 2 ^ 2 = 96.
Proof.
  apply (valid_dimension_halves_exactly 96 5 3 2);
    [simpl; lia | lia | reflexivity | lia].
Defined.

(** * GS registers *)

Lemma land_shiftr_mask (x s n : Z) :
  0 <= s -> 0 <= n ->
  Z.land (Z.shiftr x s) (Z.ones n) = x / 2 ^ s mod 2 ^ n.
Proof.
  intros Hs Hn. rewrite Z.land_ones by done.
  by rewrite Z.shiftr_div_pow2 by done.
Qed.

(** The bits from [s] on are the [n] bits of a field and the bits from
    [s + n] on. *)
Lemma split_field (x s n : Z) :
  0 <= s -> 0 <= n ->
  x / 2 ^ s = x / 2 ^ s mod 2 ^ n + 2 ^ n * (x / 2 ^ (s + n))
  /\ 0 <= x / 2 ^ s mod 2 ^ n < 2 ^ n.
Proof.
  intros Hs Hn.
  assert (0 < 2 ^ s) by (apply Z.pow_pos_nonneg; lia).
  assert (0 < 2 ^ n) by (apply Z.pow_pos_nonneg; lia).
  split; [| apply Z.mod_pos_bound; lia].
  rewrite Z.pow_add_r, <- Z.div_div by lia.
  rewrite Z.add_comm. apply Z.div_mod. lia.
Qed.

Lemma to_u8_field (x n : Z) :
  0 <= n <= 8 -> to_u8 (x mod 2 ^ n) = x mod 2 ^ n.
Proof.
  intros Hn. unfold to_u8. apply Z.mod_small.
  assert (0 < 2 ^ n <= 2 ^ 8)
    by (split; [apply Z.pow_pos_nonneg | apply Z.pow_le_mono_r]; lia).
  pose proof (Z.mod_pos_bound x (2 ^ n)). lia.
Qed.

Lemma to_u16_field (x n : Z) :
  0 <= n <= 16 -> to_u16 (x mod 2 ^ n) = x mod 2 ^ n.
Proof.
  intros Hn. unfold to_u16. apply Z.mod_small.
  assert (0 < 2 ^ n <= 2 ^ 16)
    by (split; [apply Z.pow_pos_nonneg | apply Z.pow_le_mono_r]; lia).
  pose proof (Z.mod_pos_bound x (2 ^ n)). lia.
Qed.

Lemma field_value8 (x s n mask : Z) :
  0 <= s -> 0 <= n <= 8 -> mask = Z.ones n ->
  to_u8 (Z.land (Z.shiftr x s) mask) = x / 2 ^ s mod 2 ^ n.
Proof.
  intros Hs Hn ->. rewrite land_shiftr_mask by lia. by apply to_u8_field.
Qed.

Lemma field_value16 (x s n mask : Z) :
  0 <= s -> 0 <= n <= 16 -> mask = Z.ones n ->
  to_u16 (Z.land (Z.shiftr x s) mask) = x / 2 ^ s mod 2 ^ n.
Proof.
  intros Hs Hn ->. rewrite land_shiftr_mask by lia. by apply to_u16_field.
Qed.

Ltac split_at x s n E R :=
  destruct (split_field x s n) as [E R]; [lia | lia |];
  let t := eval vm_compute in (s + n) in change (s + n) with t in E.

(** The fields of [GsTex0Fields::parse] by position and width. *)
Lemma GsTex0Fields_parse_fields (tex0 : Z) :
  GsTex0Fields_parse tex0
  = {| tbp0 := tex0 / 2 ^ 0 mod 2 ^ 14;
       tbw := tex0 / 2 ^ 14 mod 2 ^ 6;
       psm := tex0 / 2 ^ 20 mod 2 ^ 6;
       tw := tex0 / 2 ^ 26 mod 2 ^ 4;
       th := tex0 / 2 ^ 30 mod 2 ^ 4;
       tcc := tex0 / 2 ^ 34 mod 2 ^ 1;
       tfx := tex0 / 2 ^ 35 mod 2 ^ 2;
       cbp := tex0 / 2 ^ 37 mod 2 ^ 14;
       cpsm := tex0 / 2 ^ 51 mod 2 ^ 4;
       csm := tex0 / 2 ^ 55 mod 2 ^ 1;
       csa := tex0 / 2 ^ 56 mod 2 ^ 5;
       cld := tex0 / 2 ^ 61 mod 2 ^ 3 |}.
Proof.
  unfold GsTex0Fields_parse. f_equal.
  - by apply (field_value16 tex0 0 14).
  - by apply (field_value8 tex0 14 6).
  - by apply (field_value8 tex0 20 6).
  - by apply (field_value8 tex0 26 4).
  - by apply (field_value8 tex0 30 4).
  - by apply (field_value8 tex0 34 1).
  - by apply (field_value8 tex0 35 2).
  - by apply (field_value16 tex0 37 14).
  - by apply (field_value8 tex0 51 4).
  - by apply (field_value8 tex0 55 1).
  - by apply (field_value8 tex0 56 5).
  - by apply (field_value8 tex0 61 3).
Qed.

(** X20. [GsTex0Fields::parse] loses nothing: its twelve fields cover the
    64 bits of TEX0 without gap or overlap.  Each field lies in the range
    of its width, and the fields put back at their bit positions give the
    register. *)
Theorem GsTex0Fields_parse_lossless (tex0 : Z) :
  0 <= tex0 < 2 ^ 64 ->
  let f := GsTex0Fields_parse tex0 in
  GsTex0Fields_pack f = tex0
  /\ 0 <= tbp0 f < 2 ^ 14 /\ 0 <= tbw f < 2 ^ 6 /\ 0 <= psm f < 2 ^ 6
  /\ 0 <= tw f < 2 ^ 4 /\ 0 <= th f < 2 ^ 4 /\ 0 <= tcc f < 2
  /\ 0 <= tfx f < 2 ^ 2 /\ 0 <= cbp f < 2 ^ 14 /\ 0 <= cpsm f < 2 ^ 4
  /\ 0 <= csm f < 2 /\ 0 <= csa f < 2 ^ 5 /\ 0 <= cld f < 2 ^ 3.
Proof.
  intros Hv. cbv zeta.
  rewrite GsTex0Fields_parse_fields.
  unfold GsTex0Fields_pack.
  cbn [tbp0 tbw psm tw th tcc tfx cbp cpsm csm csa cld].
  split_at tex0 0 14 E0 R0. split_at tex0 14 6 E1 R1.
  split_at tex0 20 6 E2 R2. split_at tex0 26 4 E3 R3.
  split_at tex0 30 4 E4 R4. split_at tex0 34 1 E5 R5.
  split_at tex0 35 2 E6 R6. split_at tex0 37 14 E7 R7.
  split_at tex0 51 4 E8 R8. split_at tex0 55 1 E9 R9.
  split_at tex0 56 5 E10 R10. split_at tex0 61 3 E11 R11.
  assert (E12 : tex0 / 2 ^ 64 = 0) by (apply Z.div_small; lia).
  rewrite E12 in E11.
  change (2 ^ 0) with 1 in *. rewrite Z.div_1_r in *.
  change (2 ^ 1) with 2 in *.
  repeat match goal with
  | H : ?q = ?q mod ?m + _ |- _ =>
      let r := fresh "r" in
      set (r := q mod m) in *; clearbody r;
      first [ is_var q | let q' := fresh "q" in set (q' := q) in *; clearbody q' ]
  end.
  lia.
Qed.

Lemma GsTex0Fields_parse_lossless_witness :
  let f := GsTex0Fields_parse 0x2000000A01234567 in
  GsTex0Fields_pack f = 0x2000000A01234567
  /\ 0 <= tbp0 f < 2 ^ 14 /\ 0 <= tbw f < 2 ^ 6 /\ 0 <= psm f < 2 ^ 6
  /\ 0 <= tw f < 2 ^ 4 /\ 0 <= th f < 2 ^ 4 /\ 0 <= tcc f < 2
  /\ 0 <= tfx f < 2 ^ 2 /\ 0 <= cbp f < 2 ^ 14 /\ 0 <= cpsm f < 2 ^ 4
  /\ 0 <= csm f < 2 /\ 0 <= csa f < 2 ^ 5 /\ 0 <= cld f < 2 ^ 3.
Proof. apply (GsTex0Fields_parse_lossless 0x2000000A01234567). lia. Defined.

(** A field of [n] bits at bit [s], read through [Z.land] and a shift,
    holds bits [s] to [s + n - 1] of the register and nothing else. *)
Lemma field_testbit (x s n k : Z) :
  0 <= s -> 0 <= n -> 0 <= k ->
  Z.testbit (Z.land (Z.shiftr x s) (Z.ones n)) k
  = Z.testbit x (k + s) && (k <? n).
Proof.
  intros Hs Hn Hk. rewrite Z.land_spec, Z.shiftr_spec by lia.
  rewrite Z.testbit_ones by lia.
  by destruct (Z.leb_spec 0 k); [| lia].
Qed.

Lemma field_masked (x mask s n : Z) :
  0 <= s -> 0 <= n ->
  (forall k, 0 <= k < n -> Z.testbit mask (k + s) = true) ->
  Z.land (Z.shiftr (Z.land x mask) s) (Z.ones n)
  = Z.land (Z.shiftr x s) (Z.ones n).
Proof.
  intros Hs Hn Hmask. apply Z.bits_inj'. intros k Hk.
  rewrite !field_testbit by lia. rewrite Z.land_spec.
  destruct (Z.ltb_spec k n) as [Hlt | Hge].
  - by rewrite Hmask, andb_true_r by lia.
  - by rewrite !andb_false_r.
Qed.

Lemma field_bits (x y s n k : Z) :
  0 <= s -> 0 <= n ->
  Z.land (Z.shiftr x s) (Z.ones n) = Z.land (Z.shiftr y s) (Z.ones n) ->
  s <= k < s + n ->
  Z.testbit x k = Z.testbit y k.
Proof.
  intros Hs Hn Heq Hk.
  apply (f_equal (fun t => Z.testbit t (k - s))) in Heq.
  rewrite !field_testbit in Heq by lia.
  destruct (Z.ltb_spec (k - s) n); [| lia].
  rewrite !andb_true_r in Heq.
  by replace (k - s + s) with k in Heq by lia.
Qed.

Lemma to_u8_land_ones (x n : Z) :
  0 <= n <= 8 -> to_u8 (Z.land x (Z.ones n)) = Z.land x (Z.ones n).
Proof. intros Hn. rewrite Z.land_ones by lia. by apply to_u8_field. Qed.

Lemma to_u16_land_ones (x n : Z) :
  0 <= n <= 16 -> to_u16 (Z.land x (Z.ones n)) = Z.land x (Z.ones n).
Proof. intros Hn. rewrite Z.land_ones by lia. by apply to_u16_field. Qed.

(** The fields of [GsTex1Fields::parse] by position and width. *)
Lemma GsTex1Fields_parse_fields (tex1 : Z) :
  GsTex1Fields_parse tex1
  = {| lcm := Z.land (Z.shiftr tex1 0) (Z.ones 1);
       mxl := Z.land (Z.shiftr tex1 2) (Z.ones 3);
       mmag := Z.land (Z.shiftr tex1 5) (Z.ones 1);
       mmin := Z.land (Z.shiftr tex1 6) (Z.ones 3);
       mtba := Z.land (Z.shiftr tex1 9) (Z.ones 1);
       lodL := Z.land (Z.shiftr tex1 19) (Z.ones 2);
       lodK := Z.land (Z.shiftr tex1 32) (Z.ones 12) |}.
Proof.
  unfold GsTex1Fields_parse. f_equal.
  - apply (to_u8_land_ones (Z.shiftr tex1 0) 1). lia.
  - apply (to_u8_land_ones (Z.shiftr tex1 2) 3). lia.
  - apply (to_u8_land_ones (Z.shiftr tex1 5) 1). lia.
  - apply (to_u8_land_ones (Z.shiftr tex1 6) 3). lia.
  - apply (to_u8_land_ones (Z.shiftr tex1 9) 1). lia.
  - apply (to_u16_land_ones (Z.shiftr tex1 19) 2). lia.
  - apply (to_u16_land_ones (Z.shiftr tex1 32) 12). lia.
Qed.

Ltac mask_bit_set :=
  let k := fresh "k" in let Hk := fresh "Hk" in
  intros k Hk; enum_below k 12%nat; (reflexivity || lia).

(** X21. [GsTex1Fields::parse] reads bit 0, bits 2 to 9, bits 19 and 20 and
    bits 32 to 43 of TEX1 and nothing else: two registers decode to the
    same fields exactly when they agree on these 23 bits. *)
Theorem GsTex1Fields_parse_reads (tex1 tex1' : Z) :
  GsTex1Fields_parse tex1 = GsTex1Fields_parse tex1'
  <-> Z.land tex1 GsTex1_read_mask = Z.land tex1' GsTex1_read_mask.
Proof.
  rewrite !GsTex1Fields_parse_fields. split.
  - intros [= H0 H2 H5 H6 H9 H19 H32].
    apply Z.bits_inj'. intros k Hk. rewrite !Z.land_spec.
    destruct (Z.lt_ge_cases k 44) as [Hlt | Hge].
    + assert (Hcase : Z.testbit GsTex1_read_mask k = false
                      \/ k = 0 \/ 2 <= k < 5 \/ k = 5 \/ 6 <= k < 9 \/ k = 9
                      \/ 19 <= k < 21 \/ 32 <= k < 44).
      { enum_below k 44%nat; simpl Z.of_nat;
          first [ left; reflexivity | right; lia ]. }
      destruct Hcase as [-> | Hin]; [by rewrite !andb_false_r |].
      f_equal.
      destruct Hin as [? | [? | [? | [? | [? | [? | ?]]]]]].
      * apply (field_bits _ _ 0 1); [lia | lia | done | lia].
      * apply (field_bits _ _ 2 3); [lia | lia | done | lia].
      * apply (field_bits _ _ 5 1); [lia | lia | done | lia].
      * apply (field_bits _ _ 6 3); [lia | lia | done | lia].
      * apply (field_bits _ _ 9 1); [lia | lia | done | lia].
      * apply (field_bits _ _ 19 2); [lia | lia | done | lia].
      * apply (field_bits _ _ 32 12); [lia | lia | done | lia].
    + rewrite (testbit_above GsTex1_read_mask 44 k) by (done || lia).
      by rewrite !andb_false_r.
  - intros Heq.
    rewrite <- (field_masked tex1 GsTex1_read_mask 0 1),
      <- (field_masked tex1 GsTex1_read_mask 2 3),
      <- (field_masked tex1 GsTex1_read_mask 5 1),
      <- (field_masked tex1 GsTex1_read_mask 6 3),
      <- (field_masked tex1 GsTex1_read_mask 9 1),
      <- (field_masked tex1 GsTex1_read_mask 19 2),
      <- (field_masked tex1 GsTex1_read_mask 32 12)
      by (lia || mask_bit_set).
    rewrite Heq.
    by rewrite !field_masked by (lia || mask_bit_set).
Qed.

(** * Texture size *)

(** X22. The byte count of [utils::calculateTextureSize] is enough for the
    decoder: when the image blob holds that many bytes from the offset of a
    mip level on (and, for an indexed format, the CLUT entries addressed
    lie inside the CLUT blob), [decodeImage] reads inside the blob and
    returns the [width * height] pixels of the level. *)
Theorem calculateTextureSize_suffices (p : Picture) (mipLevel n : Z) :
  0 <= mipLevel < mipMapTextures (header p) -> mipLevel < 32 ->
  let width := Z.max 1 (Z.shiftr (imageWidth (header p)) mipLevel) in
  let height := Z.max 1 (Z.shiftr (imageHeight (header p)) mipLevel) in
  utils.calculateTextureSize width height
    (getBitsPerPixel (getImagePixelFormat (header p))) = Ok n ->
  0 <= getImageOffset p mipLevel ->
  getImageOffset p mipLevel + n <= Z.of_nat (length (imageData p)) ->
  (indexedFormat (getImagePixelFormat (header p)) = true ->
   hasClut (header p) = true -> clutInBounds p) ->
  exists pixels,
    decodeImage p mipLevel = Ok pixels
    /\ Z.of_nat (length pixels) = width * height.
Proof.
  intros Hlevel H32 width height Hsize Hoff Hlen Hclut.
  assert (Hw : 1 <= width) by (subst width; lia).
  assert (Hh : 1 <= height) by (subst height; lia).
  assert (Hbpp : 0 <= getBitsPerPixel (getImagePixelFormat (header p)) <= 32)
    by (destruct (getImagePixelFormat (header p)); simpl; lia).
  assert (Hbits : 0 <= pixelBits p
                  <= getBitsPerPixel (getImagePixelFormat (header p))).
  { unfold pixelBits. destruct (_ && _); lia. }
  unfold utils.calculateTextureSize in Hsize.
  apply bind_Ok in Hsize as (product & Hprod & [= <-]).
  unfold utils.checkedInt in Hprod.
  destruct (Z.leb_spec (- 2 ^ 31) (width * height)); [| done].
  destruct (Z.ltb_spec (width * height) (2 ^ 31)); [| done].
  injection Hprod as <-.
  unfold to_u64 in Hlen.
  rewrite (Z.mod_small (width * height)) in Hlen by nia.
  rewrite (Z.mod_small (getBitsPerPixel _)) in Hlen by lia.
  rewrite (Z.mod_small (width * height * _)) in Hlen by nia.
  rewrite (Z.mod_small (width * height * _ + 7)) in Hlen by nia.
  destruct (decodeImage_pixels p mipLevel Hlevel H32)
    as (pixels & Hrun & Hlength & _).
  - intros x y Hx Hy.
    apply (getPixelColor_in_bounds p x y mipLevel width height);
      [by apply getMipMapWidth_Ok | | done | done].
    split; [done |]. split; [| done].
    assert ((width * height * pixelBits p + 7) / 8
            <= (width * height
                * getBitsPerPixel (getImagePixelFormat (header p)) + 7) / 8).
    { apply Z.div_le_mono; [lia |]. nia. }
    fold width height. lia.
  - by exists pixels.
Qed.

Lemma calculateTextureSize_suffices_witness :
  exists pixels,
    decodeImage pic_rgb24_5x3 0 = Ok pixels
    /\ Z.of_nat (length pixels)
       = Z.max 1 (Z.shiftr (imageWidth (header pic_rgb24_5x3)) 0)
         * Z.max 1 (Z.shiftr (imageHeight (header pic_rgb24_5x3)) 0).
Proof.
  apply (calculateTextureSize_suffices pic_rgb24_5x3 0 45);
    [by vm_compute | lia | reflexivity | by vm_compute | by vm_compute | done].
Defined.

(** * Export *)

(** ** What the decoder hands to the exporters *)

Lemma decodeImage_dims (p : Picture) (mipLevel : Z) (pixels : list Color32) :
  decodeImage p mipLevel = Ok pixels ->
  mipLevel < mipMapTextures (header p) ->
  exists sw sh,
    shiftRightInt (imageWidth (header p)) mipLevel = Ok sw
    /\ shiftRightInt (imageHeight (header p)) mipLevel = Ok sh
    /\ length pixels = Z.to_nat (Z.max 1 sw * Z.max 1 sh).
Proof.
  unfold decodeImage. intros Hrun Hin.
  destruct (Z.leb_spec (mipMapTextures (header p)) mipLevel); [lia |].
  apply bind_Ok in Hrun as (width & Hw & Hrun).
  apply bind_Ok in Hrun as (height & Hh & Hrun).
  apply (decodeImage_rows_result p mipLevel (fun _ => True)) in Hrun
    as [Hlen _]; [| done].
  rewrite length_replicate in Hlen.
  unfold getMipMapWidth in Hw. unfold getMipMapHeight in Hh.
  apply bind_Ok in Hw as (sw & Hsw & [= <-]).
  apply bind_Ok in Hh as (sh & Hsh & [= <-]).
  by exists sw, sh.
Qed.

(** ** Writing to a file *)

Lemma write_all_failed (chunks : list (list byte)) :
  forall file, ofstream.failed file = true -> write_all chunks file = file.
Proof.
  induction chunks as [|c cs IH]; intros file Hf; [done |].
  change (write_all (c :: cs) file)
    with (write_all cs (ofstream.write c file)).
  unfold ofstream.write. rewrite Hf. by apply IH.
Qed.

(** Whatever the stream buffer does, the bytes it has taken after writes in
    a row are a prefix of the bytes written, and the stream is still good
    exactly when it has taken them all. *)
Lemma write_all_spec (chunks : list (list byte)) :
  forall file, ofstream.failed file = false ->
  ofstream.content (write_all chunks file)
    `prefix_of` ofstream.content file ++ concat chunks
  /\ (ofstream.good (write_all chunks file) = true
      <-> ofstream.content (write_all chunks file)
          = ofstream.content file ++ concat chunks).
Proof.
  unfold ofstream.good.
  induction chunks as [|c cs IH]; intros file Hf.
  - simpl. rewrite Hf, app_nil_r. done.
  - change (write_all (c :: cs) file)
      with (write_all cs (ofstream.write c file)).
    simpl concat. unfold ofstream.write. rewrite Hf.
    set (taken := (ofstream.rdbuf file (ofstream.content file) c
                   `min` length c)%nat).
    destruct (Nat.ltb_spec taken (length c)) as [Hshort | Hall].
    + rewrite write_all_failed by done. cbn [ofstream.content ofstream.failed].
      split.
      * apply prefix_app. rewrite <- (take_drop taken c) at 2.
        rewrite <- app_assoc. by apply prefix_app_r.
      * split; [done |]. intros Heq.
        apply (f_equal length) in Heq.
        rewrite !length_app, length_take in Heq. lia.
    + rewrite take_ge by lia.
      destruct (IH (ofstream.mk (ofstream.rdbuf file)
                      (ofstream.content file ++ c) false) eq_refl)
        as [Hpre Hgood].
      cbn [ofstream.content] in Hpre, Hgood.
      rewrite <- app_assoc in Hpre, Hgood. done.
Qed.

Tactic Notation "bind_step" := cbn [mbind outcome_bind].
Tactic Notation "bind_step" "in" hyp(H) := cbn [mbind outcome_bind] in H.

(** ** Vector accesses in range *)

Lemma store_Ok {A : Type} (i : Z) (x : A) (v : list A) :
  0 <= i < Z.of_nat (length v) -> store i x v = Ok (<[Z.to_nat i := x]> v).
Proof.
  intros Hi. unfold store.
  destruct (Z.leb_spec 0 i); [| lia].
  by destruct (Z.ltb_spec i (Z.of_nat (length v))); [| lia].
Qed.

Lemma at_index_Ok {A : Type} (v : list A) (i : Z) (x : A) :
  0 <= i -> v !! Z.to_nat i = Some x -> at_index v i = Ok x.
Proof.
  intros Hi Hx. unfold at_index.
  destruct (Z.ltb_spec i 0); [lia |]. by rewrite Hx.
Qed.

Lemma insert_run_3 {A : Type} (l : list A) (i : nat) (x0 x1 x2 : A) :
  (i + 3 <= length l)%nat ->
  <[(i + 2)%nat := x2]> (<[(i + 1)%nat := x1]> (<[i := x0]> l))
  = take i l ++ [x0; x1; x2] ++ drop (i + 3) l.
Proof.
  intros Hlen.
  rewrite <- (take_drop i l) at 1.
  assert (Hti : length (take i l) = i) by (rewrite length_take; lia).
  destruct (drop i l) as [|y0 [|y1 [|y2 rest]]] eqn:Hd;
    try (apply (f_equal length) in Hd; rewrite length_drop in Hd;
         simpl in Hd; lia).
  assert (Hrest : drop (i + 3) l = rest).
  { rewrite <- drop_drop, Hd. done. }
  rewrite Hrest.
  rewrite (insert_app_r_alt _ _ i) by lia.
  rewrite (insert_app_r_alt _ _ (i + 1)) by lia.
  rewrite (insert_app_r_alt _ _ (i + 2)) by lia.
  rewrite Hti.
  replace (i - i)%nat with 0%nat by lia.
  replace (i + 1 - i)%nat with 1%nat by lia.
  replace (i + 2 - i)%nat with 2%nat by lia.
  done.
Qed.

(** ** The rows of a BMP file *)

Section BMPRows.

Variables (imageData : list Color32) (width rowSize : Z).
Hypothesis width_pos : 1 <= width.
Hypothesis row_fits : 3 * width <= rowSize.

Let bgr (c : Color32) : list byte :=
  [byte_of (b c); byte_of (g c); byte_of (r c)].

Lemma exportBMP_row_spec (y : Z) (n : nat) :
  forall (x : Z) (row : list byte),
  0 <= x -> 0 <= y ->
  (Z.to_nat (y * width + x) + n <= length imageData)%nat ->
  (3 * (Z.to_nat x + n) <= length row)%nat ->
  ImageConverter.exportBMP_row imageData width y n x row
  = Ok (take (3 * Z.to_nat x) row
        ++ flat_map bgr (take n (drop (Z.to_nat (y * width + x)) imageData))
        ++ drop (3 * (Z.to_nat x + n)) row).
Proof.
  induction n as [|n IH]; intros x row Hx Hy Hdata Hrow.
  - cbn [ImageConverter.exportBMP_row]. rewrite take_0.
    cbn [flat_map app]. by rewrite Nat.add_0_r, take_drop.
  - assert (Hidx : 0 <= y * width + x) by nia.
    destruct (lookup_lt_is_Some_2 imageData (Z.to_nat (y * width + x)))
      as [pixel Hpixel]; [lia |].
    cbn [ImageConverter.exportBMP_row].
    rewrite (at_index_Ok _ _ pixel) by done. bind_step.
    rewrite store_Ok by (rewrite ?length_insert; lia). bind_step.
    rewrite store_Ok by (rewrite ?length_insert; lia). bind_step.
    rewrite store_Ok by (rewrite ?length_insert; lia). bind_step.
    replace (Z.to_nat (x * 3 + 0)) with (3 * Z.to_nat x)%nat by lia.
    replace (Z.to_nat (x * 3 + 1)) with (3 * Z.to_nat x + 1)%nat by lia.
    replace (Z.to_nat (x * 3 + 2)) with (3 * Z.to_nat x + 2)%nat by lia.
    rewrite insert_run_3 by lia.
    rewrite IH; [| lia | lia | lia |
      rewrite !length_app, length_take, length_drop; simpl; lia].
    rewrite (drop_S _ _ _ Hpixel). rewrite firstn_cons. cbn [flat_map].
    replace (Z.to_nat (y * width + (x + 1)))
      with (S (Z.to_nat (y * width + x))) by lia.
    replace (3 * Z.to_nat (x + 1))%nat with (3 * Z.to_nat x + 3)%nat by lia.
    assert (Ht : length (take (3 * Z.to_nat x) row) = (3 * Z.to_nat x)%nat)
      by (rewrite length_take; lia).
    rewrite take_app_ge, drop_app_ge by lia. rewrite Ht.
    replace (3 * Z.to_nat x + 3 - 3 * Z.to_nat x)%nat with 3%nat by lia.
    replace (3 * (Z.to_nat (x + 1) + n) - 3 * Z.to_nat x)%nat
      with (3 + 3 * n)%nat by lia.
    change (3 + 3 * n)%nat with (S (S (S (3 * n)))).
    cbn [firstn app skipn]. rewrite take_0, drop_drop.
    replace (3 * Z.to_nat x + 3 + 3 * n)%nat
      with (3 * (Z.to_nat x + S n))%nat by lia.
    subst bgr. cbn beta. rewrite <- !app_assoc. done.
Qed.

Lemma length_flat_map_bgr (pixels : list Color32) :
  length (flat_map bgr pixels) = (3 * length pixels)%nat.
Proof. induction pixels as [|c l IH]; simpl; [done | lia]. Qed.

Lemma exportBMP_rows_spec (m : nat) :
  forall (row : list byte) (file : ofstream.ofstream),
  (m * Z.to_nat width <= length imageData)%nat ->
  length row = Z.to_nat rowSize ->
  drop (3 * Z.to_nat width) row
  = replicate (Z.to_nat rowSize - 3 * Z.to_nat width) zero_byte ->
  ImageConverter.exportBMP_rows imageData width rowSize m (Z.of_nat m - 1)
    row file
  = Ok (write_all
          (map (fun y => bmpRow rowSize
                           (take (Z.to_nat width)
                              (drop (y * Z.to_nat width) imageData)))
               (reverse (seq 0 m)))
          file).
Proof.
  induction m as [|m IH]; intros row file Hdata Hlen Hpad; [done |].
  cbn [ImageConverter.exportBMP_rows].
  rewrite exportBMP_row_spec by lia. bind_step.
  replace (Z.to_nat (Z.of_nat (S m) - 1)) with m in * by lia.
  replace (Z.to_nat ((Z.of_nat (S m) - 1) * width + 0))
    with (m * Z.to_nat width)%nat by nia.
  change (Z.to_nat 0) with 0%nat. rewrite Nat.mul_0_r, take_0.
  cbn [app Nat.add]. rewrite Hpad.
  set (pixels := take (Z.to_nat width) (drop (m * Z.to_nat width) imageData)).
  assert (Hpixels : length pixels = Z.to_nat width).
  { subst pixels. rewrite length_take, length_drop. lia. }
  set (row' := flat_map bgr pixels ++ replicate _ zero_byte).
  assert (Hrow' : row' = bmpRow rowSize pixels).
  { subst row'. unfold bmpRow. by rewrite Hpixels. }
  assert (Hlen' : length row' = Z.to_nat rowSize).
  { subst row'. rewrite length_app, length_flat_map_bgr, length_replicate.
    lia. }
  rewrite take_ge by lia.
  replace (Z.of_nat (S m) - 1 - 1) with (Z.of_nat m - 1) by lia.
  rewrite IH; [| lia | done |].
  - rewrite seq_S, reverse_app. cbn [reverse rev_append app map Nat.add].
    by rewrite Hrow'.
  - subst row'. rewrite drop_app_length'; [done |].
    rewrite length_flat_map_bgr. lia.
Qed.

End BMPRows.

(** ** exportBMP *)

Lemma le_bytes_congr (n : nat) (v v' : Z) :
  v mod 2 ^ (8 * Z.of_nat n) = v' mod 2 ^ (8 * Z.of_nat n) ->
  le_bytes n v = le_bytes n v'.
Proof.
  intros Heq.
  apply list_eq_same_length with n; [by rewrite length_le_bytes.. |].
  intros i x y Hi Hx Hy.
  rewrite lookup_le_bytes in Hx, Hy by done.
  injection Hx as <-. injection Hy as <-.
  apply byte_of_ext. intros k Hk. rewrite !testbit_div_256_pow by lia.
  rewrite <- (Z.mod_pow2_bits_low v (8 * Z.of_nat n)) by lia.
  rewrite <- (Z.mod_pow2_bits_low v' (8 * Z.of_nat n)) by lia.
  by rewrite Heq.
Qed.

Lemma le_bytes_to_u32 (v : Z) : le_bytes 4 (to_u32 v) = le_bytes 4 v.
Proof.
  apply le_bytes_congr. unfold to_u32.
  change (2 ^ (8 * Z.of_nat 4)) with (2 ^ 32). by rewrite Z.mod_mod.
Qed.

Lemma to_int_small (v : Z) : - 2 ^ 31 <= v < 2 ^ 31 -> to_int v = v.
Proof. intros Hv. unfold to_int. rewrite Z.mod_small; lia. Qed.

Lemma shiftr_bounds (v n bound : Z) :
  0 <= v < bound -> 0 <= n -> 0 <= Z.shiftr v n < bound.
Proof.
  intros Hv Hn. rewrite Z.shiftr_div_pow2 by done.
  assert (0 < 2 ^ n) by (apply Z.pow_pos_nonneg; lia).
  split; [apply Z.div_pos; lia |].
  apply Z.le_lt_trans with v; [| lia].
  apply Z.div_le_upper_bound; [lia | nia].
Qed.

Lemma length_bmpRow (rowSize : Z) (pixels : list Color32) :
  (3 * length pixels <= Z.to_nat rowSize)%nat ->
  length (bmpRow rowSize pixels) = Z.to_nat rowSize.
Proof.
  intros Hfit. unfold bmpRow.
  rewrite length_app, length_flat_map_bgr, length_replicate. lia.
Qed.

Lemma bmpRowSize_bounds (width : Z) :
  3 * width <= bmpRowSize width < 3 * width + 4
  /\ bmpRowSize width mod 4 = 0.
Proof.
  unfold bmpRowSize. split; [| by rewrite Z.mod_mul].
  Z.to_euclidean_division_equations. lia.
Qed.

Lemma length_flat_map_const {A B : Type} (f : A -> list B) (l : list A)
    (n : nat) :
  (forall x, length (f x) = n) ->
  length (flat_map f l) = (length l * n)%nat.
Proof.
  intros Hf. induction l as [|x l IH]; [done |].
  simpl. rewrite length_app, Hf, IH. lia.
Qed.

Lemma length_bmpRows (width height rowSize : Z) (pixels : list Color32) :
  0 <= width -> 3 * width <= rowSize ->
  length (bmpRows width height rowSize pixels)
  = (Z.to_nat height * Z.to_nat rowSize)%nat.
Proof.
  intros Hw Hfit. unfold bmpRows.
  rewrite (length_flat_map_const _ _ (Z.to_nat rowSize)).
  - by rewrite length_reverse, length_seq.
  - intros y. apply length_bmpRow. rewrite length_take. lia.
Qed.

Lemma length_bmpFile (width height : Z) (pixels : list Color32) :
  0 <= width -> 0 <= height ->
  Z.of_nat (length (bmpFile width height pixels))
  = 54 + bmpRowSize width * height.
Proof.
  intros Hw Hh. unfold bmpFile. cbv zeta.
  pose proof (bmpRowSize_bounds width) as [Hrow _].
  rewrite !length_app, !length_le_bytes, length_bmpRows by lia.
  change (length (bytes_of [66; 77])) with 2%nat. nia.
Qed.

(** What [exportBMP] does for a level in range that decodes and a file that
    can be created: two header writes and one write per row. *)
Lemma exportBMP_written (fs : string -> option ofstream.filebuf)
    (pic : Picture) (filename : string) (mipLevel : Z)
    (pixels : list Color32) (buf : ofstream.filebuf) :
  0 <= imageWidth (header pic) < 2 ^ 16 ->
  0 <= imageHeight (header pic) < 2 ^ 16 ->
  0 <= mipLevel < mipMapTextures (header pic) ->
  decodeImage pic mipLevel = Ok pixels ->
  fs filename = Some buf ->
  let width := Z.max 1 (Z.shiftr (imageWidth (header pic)) mipLevel) in
  let height := Z.max 1 (Z.shiftr (imageHeight (header pic)) mipLevel) in
  exists chunks,
    ImageConverter.exportBMP fs pic filename mipLevel
    = Ok (ImageConverter.Written
            (write_all chunks (ofstream.mk buf [] false)))
    /\ concat chunks = bmpFile width height pixels
    /\ 1 <= width < 2 ^ 16 /\ 1 <= height < 2 ^ 16
    /\ length pixels = Z.to_nat (width * height).
Proof.
  intros Hiw Hih Hlevel Hrun Hfs width height.
  destruct (decodeImage_dims pic mipLevel pixels Hrun ltac:(lia))
    as (sw & sh & Hsw & Hsh & Hlen).
  assert (Hsw' : sw = Z.shiftr (imageWidth (header pic)) mipLevel).
  { unfold shiftRightInt in Hsw. destruct (_ <? _); congruence. }
  assert (Hsh' : sh = Z.shiftr (imageHeight (header pic)) mipLevel).
  { unfold shiftRightInt in Hsh. destruct (_ <? _); congruence. }
  pose proof (shiftr_bounds _ mipLevel _ Hiw ltac:(lia)) as Hbw.
  pose proof (shiftr_bounds _ mipLevel _ Hih ltac:(lia)) as Hbh.
  assert (Hw : 1 <= width < 2 ^ 16) by (subst width; lia).
  assert (Hh : 1 <= height < 2 ^ 16) by (subst height; lia).
  pose proof (bmpRowSize_bounds width) as [Hrow _].
  unfold ImageConverter.exportBMP.
  destruct (Z.leb_spec (mipMapTextures (header pic)) mipLevel); [lia |].
  rewrite Hrun. bind_step.
  destruct pixels as [|c0 pixels0] eqn:Hpix.
  { simpl in Hlen. subst sw sh. fold width height in Hlen. nia. }
  rewrite <- Hpix in *. clear Hpix c0 pixels0.
  rewrite Hsw, Hsh. bind_step. cbv zeta.
  subst sw sh. fold width height. fold (bmpRowSize width).
  unfold ofstream.open. rewrite Hfs.
  rewrite (to_int_small (height - 1)) by lia.
  replace (Z.to_nat (height - 1 + 1)) with (Z.to_nat height) by lia.
  replace (height - 1) with (Z.of_nat (Z.to_nat height) - 1) by lia.
  rewrite exportBMP_rows_spec;
    [| lia | lia | nia | by rewrite length_replicate
     | by rewrite drop_replicate ].
  bind_step.
  eexists (_ :: _ :: _). split; [reflexivity |].
  split; [| done].
  cbn [concat]. unfold bmpFile, bmpRows. cbv zeta.
  rewrite flat_map_concat_map.
  unfold ImageConverter.BMPHeader_bytes, ImageConverter.BMPInfoHeader_bytes.
  cbn [ImageConverter.type ImageConverter.fileSize ImageConverter.reserved
       ImageConverter.dataOffset ImageConverter.size ImageConverter.width
       ImageConverter.height ImageConverter.planes ImageConverter.bitCount
       ImageConverter.compression ImageConverter.imageSize
       ImageConverter.xPelsPerMeter ImageConverter.yPelsPerMeter
       ImageConverter.clrUsed ImageConverter.clrImportant].
  rewrite !le_bytes_to_u32, !to_int_small by lia.
  rewrite <- !app_assoc. reflexivity.
Qed.

(** X23. What [exportBMP] hands to its output stream.  For a picture with
    16-bit dimensions, a level in range that decodes and a file that can be
    created, and whatever the stream buffer of the file does, the bytes the
    stream has taken when [exportBMP] returns are a prefix of the BMP file:
    the two headers followed by the rows from the bottom one up, each pixel
    as blue, green, red and each row padded with zeros to [rowSize], the
    least multiple of 4 that holds [3 * width] bytes.  The export returns
    [true] exactly when the stream has taken all [54 + rowSize * height]
    bytes of it.  Nothing is flushed or checked after that: [true] does not
    tell that the bytes have reached the device. *)
Theorem exportBMP_file (fs : string -> option ofstream.filebuf)
    (pic : Picture) (filename : string) (mipLevel : Z)
    (pixels : list Color32) (buf : ofstream.filebuf) :
  0 <= imageWidth (header pic) < 2 ^ 16 ->
  0 <= imageHeight (header pic) < 2 ^ 16 ->
  0 <= mipLevel < mipMapTextures (header pic) ->
  decodeImage pic mipLevel = Ok pixels ->
  fs filename = Some buf ->
  let width := Z.max 1 (Z.shiftr (imageWidth (header pic)) mipLevel) in
  let height := Z.max 1 (Z.shiftr (imageHeight (header pic)) mipLevel) in
  exists file,
    ImageConverter.exportBMP fs pic filename mipLevel
    = Ok (ImageConverter.Written file)
    /\ ofstream.content file `prefix_of` bmpFile width height pixels
    /\ (ImageConverter.returned (ImageConverter.Written file) = true
        <-> ofstream.content file = bmpFile width height pixels)
    /\ Z.of_nat (length (bmpFile width height pixels))
       = 54 + bmpRowSize width * height
    /\ 3 * width <= bmpRowSize width < 3 * width + 4
    /\ bmpRowSize width mod 4 = 0.
Proof.
  intros Hiw Hih Hlevel Hrun Hfs width height.
  destruct (exportBMP_written fs pic filename mipLevel pixels buf
              Hiw Hih Hlevel Hrun Hfs)
    as (chunks & Hexport & Hchunks & Hw & Hh & _).
  fold width height in Hchunks, Hw, Hh.
  destruct (write_all_spec chunks (ofstream.mk buf [] false) eq_refl)
    as [Hpre Hgood].
  exists (write_all chunks (ofstream.mk buf [] false)).
  split; [exact Hexport |].
  cbn [ImageConverter.returned].
  rewrite Hchunks in Hpre, Hgood.
  cbn [ofstream.content app] in Hpre, Hgood.
  split; [exact Hpre |]. split; [exact Hgood |].
  split; [apply length_bmpFile; lia | apply bmpRowSize_bounds].
Qed.

Lemma exportBMP_file_witness :
  (exists file,
     ImageConverter.exportBMP fs_roomy pic_rgb24_3x2 "out.bmp" 0
     = Ok (ImageConverter.Written file)
     /\ ImageConverter.returned (ImageConverter.Written file) = true
     /\ ofstream.content file
        = bytes_of ([0x42; 0x4D; 78; 0; 0; 0; 0; 0; 0; 0; 54; 0; 0; 0]
                    ++ [40; 0; 0; 0; 3; 0; 0; 0; 2; 0; 0; 0; 1; 0; 24; 0]
                    ++ [0; 0; 0; 0; 24; 0; 0; 0; 19; 11; 0; 0; 19; 11; 0; 0]
                    ++ [0; 0; 0; 0; 0; 0; 0; 0]
                    ++ [12; 11; 10; 15; 14; 13; 18; 17; 16; 0; 0; 0]
                    ++ [3; 2; 1; 6; 5; 4; 9; 8; 7; 0; 0; 0]))
  /\ (exists file,
        ImageConverter.exportBMP fs_sixty pic_rgb24_3x2 "out.bmp" 0
        = Ok (ImageConverter.Written file)
        /\ ImageConverter.returned (ImageConverter.Written file) = false
        /\ length (ofstream.content file) = 60%nat).
Proof.
  destruct (decodeImage pic_rgb24_3x2 0) as [pixels|] eqn:Hrun;
    [| by vm_compute in Hrun].
  split.
  - destruct (exportBMP_file fs_roomy pic_rgb24_3x2 "out.bmp" 0 pixels
                (fun _ chunk => length chunk)
                ltac:(by vm_compute) ltac:(by vm_compute)
                ltac:(by vm_compute) Hrun eq_refl)
      as (file & Hexport & _ & Hgood & _).
    exists file. split; [exact Hexport |].
    assert (Hret : ImageConverter.returned (ImageConverter.Written file)
                   = true).
    { vm_compute in Hexport. injection Hexport as <-. reflexivity. }
    split; [exact Hret |].
    apply Hgood in Hret. rewrite Hret.
    vm_compute in Hrun. injection Hrun as <-. by vm_compute.
  - destruct (exportBMP_file fs_sixty pic_rgb24_3x2 "out.bmp" 0 pixels
                (fun taken _ => (60 - length taken)%nat)
                ltac:(by vm_compute) ltac:(by vm_compute)
                ltac:(by vm_compute) Hrun eq_refl)
      as (file & Hexport & _ & _).
    exists file. split; [exact Hexport |].
    vm_compute in Hexport. injection Hexport as <-. split; reflexivity.
Defined.

(** ** Where the pixels are in the file *)

Lemma u8_byte_of (v : Z) : u8 (byte_of v) = v mod 256.
Proof.
  unfold byte_of, u8. pose proof (Z.mod_pos_bound v 256 ltac:(lia)).
  destruct (Byte.of_N (Z.to_N (v mod 256))) as [c|] eqn:E.
  - apply Byte.to_of_N in E. simpl. rewrite E. lia.
  - apply Byte.of_N_None_iff in E. lia.
Qed.

Lemma le_le_bytes (n : nat) :
  forall v, le (le_bytes n v) = v mod 256 ^ Z.of_nat n.
Proof.
  induction n as [|n IH]; intros v.
  - simpl. by rewrite Z.mod_1_r.
  - change (le (le_bytes (S n) v))
      with (u8 (byte_of v) + 256 * le (le_bytes n (v / 256))).
    rewrite u8_byte_of, IH, Nat2Z.inj_succ, Z.pow_succ_r by lia.
    rewrite Z.rem_mul_r; [done | lia |].
    apply Z.pow_pos_nonneg; lia.
Qed.

Lemma lookup_flat_map_const {A B : Type} (f : A -> list B) (n : nat) :
  (forall x, length (f x) = n) ->
  forall (l : list A) (i j : nat) (x : A),
  l !! i = Some x -> (j < n)%nat ->
  flat_map f l !! (i * n + j)%nat = f x !! j.
Proof.
  intros Hf. induction l as [|x0 l IH]; intros i j x Hx Hj; [done |].
  simpl. destruct i as [|i].
  - injection Hx as ->. simpl. apply lookup_app_l. by rewrite Hf.
  - rewrite lookup_app_r by (rewrite Hf; simpl; lia).
    rewrite Hf. simpl in Hx.
    replace (S i * n + j - n)%nat with (i * n + j)%nat by lia.
    by apply IH.
Qed.

Lemma drop_bmpFile (width height : Z) (pixels : list Color32) :
  drop 54 (bmpFile width height pixels)
  = bmpRows width height (bmpRowSize width) pixels.
Proof. reflexivity. Qed.

(** Byte [j] of the row of the image row [y]. *)
Lemma lookup_bmpFile_row (width height : Z) (pixels : list Color32)
    (y j : nat) :
  0 <= width -> (y < Z.to_nat height)%nat ->
  (j < Z.to_nat (bmpRowSize width))%nat ->
  bmpFile width height pixels
    !! (54 + (Z.to_nat height - 1 - y) * Z.to_nat (bmpRowSize width) + j)%nat
  = bmpRow (bmpRowSize width)
      (take (Z.to_nat width) (drop (y * Z.to_nat width) pixels)) !! j.
Proof.
  intros Hw Hy Hj.
  pose proof (bmpRowSize_bounds width) as [Hrow _].
  rewrite <- Nat.add_assoc, <- lookup_drop, drop_bmpFile. unfold bmpRows.
  apply (lookup_flat_map_const
           (fun y => bmpRow (bmpRowSize width)
                       (take (Z.to_nat width)
                          (drop (y * Z.to_nat width) pixels))));
    [| | done].
  - intros y'. apply length_bmpRow. rewrite length_take. lia.
  - rewrite reverse_lookup by (rewrite length_seq; lia).
    rewrite length_seq. rewrite lookup_seq_lt by lia. f_equal. lia.
Qed.

Lemma exportBMP_Written_inv (fs : string -> option ofstream.filebuf)
    (pic : Picture) (filename : string) (mipLevel : Z)
    (file : ofstream.ofstream) :
  ImageConverter.exportBMP fs pic filename mipLevel
  = Ok (ImageConverter.Written file) ->
  exists buf, fs filename = Some buf.
Proof.
  unfold ImageConverter.exportBMP, ofstream.open. intros Hexport.
  destruct (fs filename) as [buf|]; [by exists buf | exfalso].
  destruct (_ <=? _); [done |].
  destruct (decodeImage pic mipLevel) as [[|c pixels]|]; [done | | done].
  bind_step in Hexport.
  destruct (shiftRightInt (imageWidth _) _); [| done].
  destruct (shiftRightInt (imageHeight _) _); done.
Qed.

(** X24. Where [exportBMP] puts a pixel.  When the export of a [width] x
    [height] level returns [true], then in the bytes its output stream has
    taken the pixel at column [x] of image row [y] occupies the three bytes
    at offset [54 + (height - 1 - y) * rowSize + 3 * x], as blue, green,
    red (the alpha channel is dropped); the bytes of a row from [3 * width]
    to [rowSize] are zero; and the file size stored at offset 2 is the
    number of bytes taken modulo [2^32]. *)
Theorem exportBMP_pixel_position (fs : string -> option ofstream.filebuf)
    (pic : Picture) (filename : string) (mipLevel : Z)
    (pixels : list Color32) (file : ofstream.ofstream) (x y : Z) :
  0 <= imageWidth (header pic) < 2 ^ 16 ->
  0 <= imageHeight (header pic) < 2 ^ 16 ->
  0 <= mipLevel < mipMapTextures (header pic) ->
  decodeImage pic mipLevel = Ok pixels ->
  ImageConverter.exportBMP fs pic filename mipLevel
  = Ok (ImageConverter.Written file) ->
  ofstream.good file = true ->
  let width := Z.max 1 (Z.shiftr (imageWidth (header pic)) mipLevel) in
  let height := Z.max 1 (Z.shiftr (imageHeight (header pic)) mipLevel) in
  let rowSize := bmpRowSize width in
  0 <= x < width -> 0 <= y < height ->
  let offset := 54 + (height - 1 - y) * rowSize in
  (exists c,
     pixels !! Z.to_nat (y * width + x) = Some c
     /\ ofstream.content file !! Z.to_nat (offset + 3 * x)
        = Some (byte_of (b c))
     /\ ofstream.content file !! Z.to_nat (offset + 3 * x + 1)
        = Some (byte_of (g c))
     /\ ofstream.content file !! Z.to_nat (offset + 3 * x + 2)
        = Some (byte_of (r c)))
  /\ (forall j, 3 * width <= j < rowSize ->
        ofstream.content file !! Z.to_nat (offset + j) = Some zero_byte)
  /\ le (take 4 (drop 2 (ofstream.content file)))
     = Z.of_nat (length (ofstream.content file)) mod 2 ^ 32.
Proof.
  intros Hiw Hih Hlevel Hrun Hexport Hgood width height rowSize Hx Hy offset.
  destruct (exportBMP_Written_inv _ _ _ _ _ Hexport) as [buf Hfs].
  destruct (exportBMP_written fs pic filename mipLevel pixels buf
              Hiw Hih Hlevel Hrun Hfs)
    as (chunks & Hexport' & Hchunks & Hw & Hh & Hlen).
  fold width height in Hchunks, Hw, Hh, Hlen.
  rewrite Hexport' in Hexport. injection Hexport as <-.
  destruct (write_all_spec chunks (ofstream.mk buf [] false) eq_refl)
    as [_ Hcontent].
  apply Hcontent in Hgood. rewrite Hgood.
  cbn [ofstream.content app]. rewrite Hchunks.
  pose proof (bmpRowSize_bounds width) as [Hrow _]. fold rowSize in Hrow.
  assert (Hat : forall j, 0 <= j < rowSize ->
            bmpFile width height pixels !! Z.to_nat (offset + j)
            = bmpRow rowSize
                (take (Z.to_nat width)
                   (drop (Z.to_nat y * Z.to_nat width) pixels))
                !! Z.to_nat j).
  { intros j Hj.
    rewrite <- (lookup_bmpFile_row width height pixels) by lia.
    f_equal. subst offset rowSize. nia. }
  set (rowPixels := take (Z.to_nat width)
                      (drop (Z.to_nat y * Z.to_nat width) pixels)) in *.
  assert (Hrp : length rowPixels = Z.to_nat width).
  { subst rowPixels. rewrite length_take, length_drop. nia. }
  split; [| split].
  - destruct (lookup_lt_is_Some_2 pixels (Z.to_nat (y * width + x)))
      as [c Hc]; [nia |].
    assert (Hc' : rowPixels !! Z.to_nat x = Some c).
    { subst rowPixels. rewrite lookup_take_lt, lookup_drop by lia.
      rewrite <- Hc. f_equal. nia. }
    exists c. split; [done |].
    assert (Hbgr : forall k, (k < 3)%nat ->
              bmpRow rowSize rowPixels !! (Z.to_nat x * 3 + k)%nat
              = [byte_of (b c); byte_of (g c); byte_of (r c)] !! k).
    { intros k Hk. unfold bmpRow.
      rewrite lookup_app_l by (rewrite length_flat_map_bgr; lia).
      by apply (lookup_flat_map_const
                  (fun c => [byte_of (b c); byte_of (g c); byte_of (r c)])). }
    rewrite <- !Z.add_assoc. rewrite !Hat by lia.
    replace (Z.to_nat (3 * x)) with (Z.to_nat x * 3 + 0)%nat by lia.
    replace (Z.to_nat (3 * x + 1)) with (Z.to_nat x * 3 + 1)%nat by lia.
    replace (Z.to_nat (3 * x + 2)) with (Z.to_nat x * 3 + 2)%nat by lia.
    rewrite !Hbgr by lia. done.
  - intros j Hj. rewrite Hat by lia. unfold bmpRow.
    rewrite lookup_app_r by (rewrite length_flat_map_bgr; lia).
    rewrite length_flat_map_bgr. apply lookup_replicate_2. lia.
  - change (take 4 (drop 2 (bmpFile width height pixels)))
      with (le_bytes 4 (54 + bmpRowSize width * height)).
    rewrite le_le_bytes. rewrite length_bmpFile by lia. done.
Qed.

Lemma exportBMP_pixel_position_witness :
  (exists c,
     [mkColor32 1 2 3 255; mkColor32 4 5 6 255; mkColor32 7 8 9 255;
      mkColor32 10 11 12 255; mkColor32 13 14 15 255;
      mkColor32 16 17 18 255] !! 5%nat = Some c
     /\ bytes_of ([0x42; 0x4D; 78; 0; 0; 0; 0; 0; 0; 0; 54; 0; 0; 0]
                  ++ [40; 0; 0; 0; 3; 0; 0; 0; 2; 0; 0; 0; 1; 0; 24; 0]
                  ++ [0; 0; 0; 0; 24; 0; 0; 0; 19; 11; 0; 0; 19; 11; 0; 0]
                  ++ [0; 0; 0; 0; 0; 0; 0; 0]
                  ++ [12; 11; 10; 15; 14; 13; 18; 17; 16; 0; 0; 0]
                  ++ [3; 2; 1; 6; 5; 4; 9; 8; 7; 0; 0; 0]) !! 60%nat
        = Some (byte_of (b c))).
Proof.
  pose proof (exportBMP_pixel_position fs_roomy pic_rgb24_3x2 "out.bmp" 0
                _ _ 2 1 ltac:(by vm_compute) ltac:(by vm_compute)
                ltac:(by vm_compute) eq_refl eq_refl eq_refl
                ltac:(by vm_compute) ltac:(by vm_compute))
    as [(c & Hc & Hb & _) _].
  exists c. split; [exact Hc | exact Hb].
Defined.

(** ** The decode check of the exporters *)

(** X25. Neither exporter ever reports "Failed to decode image": once the
    level has passed the range check, [decodeImage] returns at least one
    pixel, so the branch that tests for an empty image is dead. *)
Theorem export_never_fails_to_decode (stbi_write_png : ImageConverter.png_call -> Z)
    (fs : string -> option ofstream.filebuf) (pic : Picture)
    (filename : string)
    (mipLevel : Z) :
  ImageConverter.exportBMP fs pic filename mipLevel
  <> Ok ImageConverter.FailedToDecode
  /\ ImageConverter.exportPNG stbi_write_png pic filename mipLevel
     <> Ok ImageConverter.FailedToDecode.
Proof.
  assert (Hdecode : mipLevel < mipMapTextures (header pic) ->
            decodeImage pic mipLevel <> Ok []).
  { intros Hin Hrun.
    destruct (decodeImage_dims pic mipLevel [] Hrun Hin)
      as (sw & sh & _ & _ & Hlen).
    simpl in Hlen. nia. }
  unfold ImageConverter.exportBMP, ImageConverter.exportPNG.
  destruct (Z.leb_spec (mipMapTextures (header pic)) mipLevel) as [| Hin];
    [done |].
  specialize (Hdecode Hin).
  destruct (decodeImage pic mipLevel) as [[|c pixels]|]; [done | | done].
  bind_step.
  destruct (shiftRightInt (imageWidth _) _); [| done].
  destruct (shiftRightInt (imageHeight _) _); [| done].
  bind_step. cbv zeta. split.
  - destruct (ofstream.open fs filename); [| done].
    by destruct (ImageConverter.exportBMP_rows _ _ _ _ _ _ _).
  - by destruct (ImageConverter.exportPNG_loop _ _ _ _).
Qed.

(** ** exportPNG *)

Lemma insert_run_4 {A : Type} (l : list A) (i : nat) (x0 x1 x2 x3 : A) :
  (i + 4 <= length l)%nat ->
  <[(i + 3)%nat := x3]>
    (<[(i + 2)%nat := x2]> (<[(i + 1)%nat := x1]> (<[i := x0]> l)))
  = take i l ++ [x0; x1; x2; x3] ++ drop (i + 4) l.
Proof.
  intros Hlen.
  rewrite insert_run_3 by lia.
  assert (Hti : length (take i l) = i) by (rewrite length_take; lia).
  rewrite (insert_app_r_alt _ _ (i + 3)) by lia. rewrite Hti.
  replace (i + 3 - i)%nat with 3%nat by lia.
  destruct (drop (i + 3) l) as [|y rest] eqn:Hd.
  { apply (f_equal length) in Hd. rewrite length_drop in Hd.
    simpl in Hd. lia. }
  assert (Hrest : drop (i + 4) l = rest).
  { replace (i + 4)%nat with (i + 3 + 1)%nat by lia.
    by rewrite <- drop_drop, Hd. }
  by rewrite Hrest.
Qed.

Lemma length_rgbaBytes (pixels : list Color32) :
  length (rgbaBytes pixels) = (4 * length pixels)%nat.
Proof. induction pixels as [|c l IH]; simpl; [done | lia]. Qed.

Lemma exportPNG_loop_spec (imageData : list Color32) (n : nat) :
  forall (i : Z) (rgbaData : list byte),
  0 <= i ->
  (Z.to_nat i + n <= length imageData)%nat ->
  (4 * (Z.to_nat i + n) <= length rgbaData)%nat ->
  ImageConverter.exportPNG_loop imageData n i rgbaData
  = Ok (take (4 * Z.to_nat i) rgbaData
        ++ rgbaBytes (take n (drop (Z.to_nat i) imageData))
        ++ drop (4 * (Z.to_nat i + n)) rgbaData).
Proof.
  induction n as [|n IH]; intros i rgbaData Hi Hdata Hbuf.
  - cbn [ImageConverter.exportPNG_loop]. rewrite take_0.
    cbn [rgbaBytes flat_map app]. by rewrite Nat.add_0_r, take_drop.
  - destruct (lookup_lt_is_Some_2 imageData (Z.to_nat i)) as [pixel Hpixel];
      [lia |].
    cbn [ImageConverter.exportPNG_loop].
    rewrite (at_index_Ok _ _ pixel) by done. bind_step.
    rewrite store_Ok by (rewrite ?length_insert; lia). bind_step.
    rewrite store_Ok by (rewrite ?length_insert; lia). bind_step.
    rewrite store_Ok by (rewrite ?length_insert; lia). bind_step.
    rewrite store_Ok by (rewrite ?length_insert; lia). bind_step.
    replace (Z.to_nat (i * 4 + 0)) with (4 * Z.to_nat i)%nat by lia.
    replace (Z.to_nat (i * 4 + 1)) with (4 * Z.to_nat i + 1)%nat by lia.
    replace (Z.to_nat (i * 4 + 2)) with (4 * Z.to_nat i + 2)%nat by lia.
    replace (Z.to_nat (i * 4 + 3)) with (4 * Z.to_nat i + 3)%nat by lia.
    rewrite insert_run_4 by lia.
    rewrite IH; [| lia | lia |
      rewrite !length_app, length_take, length_drop; simpl; lia].
    rewrite (drop_S _ _ _ Hpixel). rewrite firstn_cons.
    replace (Z.to_nat (i + 1)) with (S (Z.to_nat i)) by lia.
    replace (4 * S (Z.to_nat i))%nat with (4 * Z.to_nat i + 4)%nat by lia.
    assert (Ht : length (take (4 * Z.to_nat i) rgbaData)
                 = (4 * Z.to_nat i)%nat)
      by (rewrite length_take; lia).
    rewrite take_app_ge, drop_app_ge by lia. rewrite Ht.
    replace (4 * Z.to_nat i + 4 - 4 * Z.to_nat i)%nat with 4%nat by lia.
    replace (4 * (S (Z.to_nat i) + n) - 4 * Z.to_nat i)%nat
      with (S (S (S (S (4 * n))))) by lia.
    cbn [firstn app skipn]. rewrite take_0, drop_drop.
    replace (4 * Z.to_nat i + 4 + 4 * n)%nat
      with (4 * (Z.to_nat i + S n))%nat by lia.
    unfold rgbaBytes. cbn [flat_map]. rewrite <- !app_assoc. done.
Qed.

(** X26. What [exportPNG] hands to [stbi_write_png].  For a picture with
    16-bit dimensions and a level in range that decodes, the call names the
    file, the width and height of the level, 4 components and a stride of
    [4 * width] bytes, and its buffer holds red, green, blue, alpha of each
    decoded pixel in decoding order, [4 * width * height] bytes in all;
    the export returns [true] exactly when the library returns non-zero. *)
Theorem exportPNG_call (stbi_write_png : ImageConverter.png_call -> Z)
    (pic : Picture) (filename : string) (mipLevel : Z)
    (pixels : list Color32) :
  0 <= imageWidth (header pic) < 2 ^ 16 ->
  0 <= imageHeight (header pic) < 2 ^ 16 ->
  0 <= mipLevel < mipMapTextures (header pic) ->
  decodeImage pic mipLevel = Ok pixels ->
  let width := Z.max 1 (Z.shiftr (imageWidth (header pic)) mipLevel) in
  let height := Z.max 1 (Z.shiftr (imageHeight (header pic)) mipLevel) in
  let call :=
    ImageConverter.mkPngCall filename width height 4 (rgbaBytes pixels)
      (4 * width) in
  ImageConverter.exportPNG stbi_write_png pic filename mipLevel
  = Ok (ImageConverter.PngWritten call (stbi_write_png call))
  /\ Z.of_nat (length (rgbaBytes pixels)) = 4 * width * height
  /\ (ImageConverter.returned
        (ImageConverter.PngWritten call (stbi_write_png call)) = true
      <-> stbi_write_png call <> 0).
Proof.
  intros Hiw Hih Hlevel Hrun width height. cbv zeta.
  destruct (decodeImage_dims pic mipLevel pixels Hrun ltac:(lia))
    as (sw & sh & Hsw & Hsh & Hlen).
  assert (Hsw' : sw = Z.shiftr (imageWidth (header pic)) mipLevel).
  { unfold shiftRightInt in Hsw. destruct (_ <? _); congruence. }
  assert (Hsh' : sh = Z.shiftr (imageHeight (header pic)) mipLevel).
  { unfold shiftRightInt in Hsh. destruct (_ <? _); congruence. }
  pose proof (shiftr_bounds _ mipLevel _ Hiw ltac:(lia)) as Hbw.
  pose proof (shiftr_bounds _ mipLevel _ Hih ltac:(lia)) as Hbh.
  assert (Hw : 1 <= width < 2 ^ 16) by (subst width; lia).
  assert (Hh : 1 <= height < 2 ^ 16) by (subst height; lia).
  split; [| split].
  - unfold ImageConverter.exportPNG.
    destruct (Z.leb_spec (mipMapTextures (header pic)) mipLevel); [lia |].
    rewrite Hrun. bind_step.
    destruct pixels as [|c0 pixels0] eqn:Hpix.
    { simpl in Hlen. subst sw sh. fold width height in Hlen. nia. }
    rewrite <- Hpix in *. clear Hpix c0 pixels0.
    rewrite Hsw, Hsh. bind_step. cbv zeta.
    subst sw sh. fold width height.
    rewrite exportPNG_loop_spec;
      [| lia | simpl; lia | rewrite length_replicate; nia].
    bind_step. change (Z.to_nat 0) with 0%nat.
    rewrite Nat.mul_0_r, take_0, drop_0. cbn [app Nat.add].
    rewrite firstn_all, drop_ge by (rewrite length_replicate; nia).
    rewrite app_nil_r.
    rewrite !to_int_small by lia.
    by rewrite (Z.mul_comm width 4).
  - rewrite length_rgbaBytes, Hlen. subst sw sh. fold width height. nia.
  - cbn [ImageConverter.returned].
    destruct (Z.eqb_spec (stbi_write_png
                (ImageConverter.mkPngCall filename width height 4
                   (rgbaBytes pixels) (4 * width))) 0) as [-> | Hne];
      simpl; split; done.
Qed.

Lemma exportPNG_call_witness :
  ImageConverter.exportPNG (fun _ => 1) pic_rgb32_2x1 "out.png" 0
  = Ok (ImageConverter.PngWritten
          (ImageConverter.mkPngCall "out.png" 2 1 4
             (bytes_of [10; 20; 30; 255; 40; 50; 60; 128]) 8) 1).
Proof.
  destruct (decodeImage pic_rgb32_2x1 0) as [pixels|] eqn:Hrun;
    [| by vm_compute in Hrun].
  destruct (exportPNG_call (fun _ => 1) pic_rgb32_2x1 "out.png" 0 pixels
              ltac:(by vm_compute) ltac:(by vm_compute)
              ltac:(by vm_compute) Hrun)
    as (Hexport & _).
  rewrite Hexport. vm_compute in Hrun. injection Hrun as <-. reflexivity.
Defined.

(** ** exportAll *)

Lemma string_app_cons (c : Ascii.ascii) (s t : string) :
  String c s +:+ t = String c (s +:+ t).
Proof. reflexivity. Qed.

Lemma string_app_assoc (s t u : string) : (s +:+ t) +:+ u = s +:+ (t +:+ u).
Proof.
  induction s as [|c s IH]; [done |].
  by rewrite !string_app_cons, IH.
Qed.

Lemma string_app_empty_l (s : string) : "" +:+ s = s.
Proof. reflexivity. Qed.

Section ExportAll.

Variable stbi_write_png : ImageConverter.png_call -> Z.
Variable fs : string -> option ofstream.filebuf.
Variables baseFilename format : string.

(** [success] is the conjunction of the results so far, and every export
    so far ended as the format says. *)
Let invariant (acc : bool * list (string * ImageConverter.exported)) : Prop :=
  acc.1 = forallb (fun e => ImageConverter.returned e.2) acc.2
  /\ Forall (fun e => exportKind format e.2) acc.2.

Lemma export_one_kind (pic : Picture) (filename : string) (mip : Z)
    (result : ImageConverter.exported) :
  mip < mipMapTextures (header pic) ->
  (if String.eqb format "png"
   then ImageConverter.exportPNG stbi_write_png pic filename mip
   else ImageConverter.exportBMP fs pic filename mip) = Ok result ->
  exportKind format result.
Proof.
  intros Hin.
  assert (Hdecode : decodeImage pic mip <> Ok []).
  { intros Hrun.
    destruct (decodeImage_dims pic mip [] Hrun Hin)
      as (sw & sh & _ & _ & Hlen).
    simpl in Hlen. nia. }
  unfold ImageConverter.exportBMP, ImageConverter.exportPNG.
  destruct (Z.leb_spec (mipMapTextures (header pic)) mip); [lia |].
  destruct (decodeImage pic mip) as [[|c pixels]|];
    [done | | by destruct (String.eqb format "png")].
  bind_step.
  destruct (shiftRightInt (imageWidth _) _);
    [| by destruct (String.eqb format "png")].
  destruct (shiftRightInt (imageHeight _) _);
    [| by destruct (String.eqb format "png")].
  bind_step. cbv zeta.
  destruct (String.eqb_spec format "png") as [Hpng | Hbmp].
  - destruct (ImageConverter.exportPNG_loop _ _ _ _); [| done].
    bind_step. by intros [= <-].
  - destruct (ofstream.open fs filename); [| by intros [= <-]].
    destruct (ImageConverter.exportBMP_rows _ _ _ _ _ _ _); [| done].
    bind_step. by intros [= <-].
Qed.

Lemma exportAll_mips_spec (pic : Picture) (i : Z) (n : nat) :
  forall (mip : Z) (acc res : bool * list (string * ImageConverter.exported)),
  0 <= i -> 0 <= mip -> mip + Z.of_nat n <= mipMapTextures (header pic) ->
  ImageConverter.exportAll_mips stbi_write_png fs pic i baseFilename format
    n mip acc = Ok res ->
  map fst res.2
  = map fst acc.2
    ++ map (exportName baseFilename format (Z.to_nat i) pic)
         (seq (Z.to_nat mip) n)
  /\ (invariant acc -> invariant res).
Proof.
  induction n as [|n IH]; intros mip acc res Hi Hmip Hn Hrun.
  - injection Hrun as <-. by rewrite app_nil_r.
  - cbn [ImageConverter.exportAll_mips] in Hrun. cbv zeta in Hrun.
    apply bind_Ok in Hrun as (result & Hone & Hrun).
    apply export_one_kind in Hone; [| lia].
    apply IH in Hrun as [Hnames Hinv]; [| lia..].
    cbn [fst snd] in Hnames, Hinv. split.
    + rewrite Hnames, map_app, <- app_assoc. f_equal.
      cbn [map fst seq app]. f_equal.
      * unfold exportName. rewrite !Z2Nat.id by lia.
        destruct (1 <? mipMapTextures (header pic));
          by rewrite ?string_app_assoc.
      * do 2 f_equal. lia.
    + intros [Hsuccess Hkinds]. apply Hinv. split; cbn [fst snd].
      * rewrite forallb_app. cbn [forallb snd]. rewrite <- Hsuccess.
        by destruct (ImageConverter.returned result), (acc.1).
      * apply Forall_app. split; [done |]. by constructor.
Qed.

Lemma exportAll_pictures_spec (parser : TIM2Parser) (n : nat) :
  forall (i : Z) (acc res : bool * list (string * ImageConverter.exported)),
  0 <= i ->
  (Z.to_nat i + n = length (getPictures parser))%nat ->
  Forall (fun pic => 0 <= mipMapTextures (header pic)) (getPictures parser) ->
  ImageConverter.exportAll_pictures stbi_write_png fs parser baseFilename
    format n i acc = Ok res ->
  map fst res.2
  = map fst acc.2
    ++ concat (imap (fun j => exportNames baseFilename format (Z.to_nat i + j))
                 (drop (Z.to_nat i) (getPictures parser)))
  /\ (invariant acc -> invariant res).
Proof.
  induction n as [|n IH]; intros i acc res Hi Hn Hlevels Hrun.
  - injection Hrun as <-. rewrite drop_ge by lia. by rewrite app_nil_r.
  - cbn [ImageConverter.exportAll_pictures] in Hrun.
    destruct (lookup_lt_is_Some_2 (getPictures parser) (Z.to_nat i))
      as [pic Hpic]; [lia |].
    assert (Hget : getPicture parser i = Some pic).
    { unfold getPicture, getPictures in *.
      by destruct (Z.leb_spec (Z.of_nat (length (m_pictures parser))) i);
        [lia |]. }
    rewrite Hget in Hrun.
    apply bind_Ok in Hrun as (acc1 & Hmips & Hrun).
    assert (Hl : 0 <= mipMapTextures (header pic)).
    { rewrite Forall_forall in Hlevels. apply Hlevels.
      by apply (list_elem_of_lookup_2 _ (Z.to_nat i)). }
    apply exportAll_mips_spec in Hmips as [Hnames1 Hinv1]; [| lia..].
    apply IH in Hrun as [Hnames Hinv]; [| lia | lia | done].
    split; [| by intros ?; apply Hinv, Hinv1].
    rewrite Hnames, Hnames1, <- app_assoc. f_equal.
    rewrite (drop_S _ _ _ Hpic), imap_cons. cbn [concat].
    rewrite Nat.add_0_r. f_equal.
    replace (Z.to_nat (i + 1)) with (S (Z.to_nat i)) by lia.
    f_equal. apply imap_ext. intros j x _. simpl. f_equal. lia.
Qed.

Lemma exportAll_spec (parser : TIM2Parser) (success : bool)
    (exports : list (string * ImageConverter.exported)) :
  Forall (fun pic => 0 <= mipMapTextures (header pic)) (getPictures parser) ->
  ImageConverter.exportAll stbi_write_png fs parser baseFilename format
  = Ok (success, exports) ->
  map fst exports
  = exportAllNames baseFilename format (getPictures parser)
  /\ success = forallb (fun e => ImageConverter.returned e.2) exports
  /\ Forall (fun e => exportKind format e.2) exports.
Proof.
  intros Hlevels Hrun. unfold ImageConverter.exportAll in Hrun.
  apply exportAll_pictures_spec in Hrun as [Hnames Hinv];
    [| lia | unfold getPictureCount, getPictures; simpl; lia | done].
  cbn [fst snd map app] in Hnames. change (Z.to_nat 0) with 0%nat in Hnames.
  rewrite drop_0 in Hnames. split; [exact Hnames |].
  apply Hinv. split; [done | constructor].
Qed.

End ExportAll.



(** ** The names of the exported files *)

Lemma digits_pretty_N_go (x : N) :
  forall s, digits s = true -> digits (pretty_N_go x s) = true.
Proof.
  induction (N.lt_wf_0 x) as [x _ IH]. intros s Hs.
  destruct (decide (x = 0)%N) as [-> | Hne]; [done |].
  rewrite pretty_N_go_step by lia.
  apply IH; [apply N.div_lt; lia |].
  cbn [digits]. rewrite Hs.
  assert (Hlt : (x `mod` 10 < 10)%N) by (apply N.mod_lt; lia).
  unfold pretty_N_char. by repeat case_match.
Qed.

Lemma digits_to_string (n : Z) : digits (to_string n) = true.
Proof.
  unfold to_string, pretty, pretty_N.
  destruct (decide (Z.to_N n = 0%N)); [done |].
  by apply digits_pretty_N_go.
Qed.

Lemma to_string_inj (n m : Z) :
  0 <= n -> 0 <= m -> to_string n = to_string m -> n = m.
Proof.
  intros Hn Hm Heq. unfold to_string in Heq.
  apply (inj pretty) in Heq. lia.
Qed.

(** Digits followed by something that is not a digit split in one way. *)
Lemma digits_split (d1 d2 r1 r2 : string) :
  digits d1 = true -> digits d2 = true ->
  startsWithoutDigit r1 = true -> startsWithoutDigit r2 = true ->
  d1 +:+ r1 = d2 +:+ r2 ->
  d1 = d2 /\ r1 = r2.
Proof.
  revert d2. induction d1 as [|a d1 IH]; intros [|a' d2] H1 H2 Hr1 Hr2 Heq.
  - done.
  - rewrite string_app_cons, string_app_empty_l in Heq. subst r1.
    cbn [digits] in H2. cbn [startsWithoutDigit] in Hr1.
    by destruct (Ascii.is_nat a').
  - rewrite string_app_cons, string_app_empty_l in Heq. subst r2.
    cbn [digits] in H1. cbn [startsWithoutDigit] in Hr2.
    by destruct (Ascii.is_nat a).
  - rewrite !string_app_cons in Heq. injection Heq as -> Heq.
    cbn [digits] in H1, H2.
    destruct (Ascii.is_nat a'); [| done].
    destruct (IH d2 H1 H2 Hr1 Hr2 Heq) as [-> Hr]. done.
Qed.

Section ExportNames.

Variables baseFilename format : string.

(** What follows the picture index in a file name starts with '_' or
    '.'. *)
Lemma exportName_shape (i : nat) (pic : Picture) (mip : nat) :
  exists rest,
    startsWithoutDigit rest = true
    /\ exportName baseFilename format i pic mip
       = baseFilename +:+ "_pic" +:+ to_string (Z.of_nat i) +:+ rest.
Proof.
  unfold exportName. destruct (1 <? mipMapTextures (header pic)).
  - exists ("_mip" +:+ to_string (Z.of_nat mip) +:+ "." +:+ format).
    split; [done |]. by rewrite !string_app_assoc.
  - by exists ("." +:+ format).
Qed.

Lemma exportName_index (i i' : nat) (pic pic' : Picture) (mip mip' : nat) :
  exportName baseFilename format i pic mip
  = exportName baseFilename format i' pic' mip' ->
  i = i'.
Proof.
  destruct (exportName_shape i pic mip) as (rest & Hrest & ->).
  destruct (exportName_shape i' pic' mip') as (rest' & Hrest' & ->).
  intros Heq. apply (inj (String.append baseFilename)) in Heq.
  apply (inj (String.append "_pic")) in Heq.
  apply digits_split in Heq as [Heq _];
    [| apply digits_to_string | apply digits_to_string | done | done].
  apply to_string_inj in Heq; lia.
Qed.

Lemma exportName_level (i : nat) (pic : Picture) (mip mip' : nat) :
  Z.of_nat mip < mipMapTextures (header pic) ->
  Z.of_nat mip' < mipMapTextures (header pic) ->
  exportName baseFilename format i pic mip
  = exportName baseFilename format i pic mip' ->
  mip = mip'.
Proof.
  intros Hm Hm'.
  destruct (Z.ltb_spec 1 (mipMapTextures (header pic))) as [Hmulti | Hone];
    [| lia].
  unfold exportName.
  destruct (Z.ltb_spec 1 (mipMapTextures (header pic))); [| lia].
  intros Heq. apply (inj (String.append baseFilename)) in Heq.
  apply (inj (String.append "_pic")) in Heq.
  apply (inj (String.append (to_string (Z.of_nat i)))) in Heq.
  rewrite !string_app_assoc in Heq.
  apply (inj (String.append "_mip")) in Heq.
  apply digits_split in Heq as [Heq _];
    [| apply digits_to_string | apply digits_to_string | done | done].
  apply to_string_inj in Heq; lia.
Qed.

Lemma NoDup_exportNames (i : nat) (pic : Picture) :
  NoDup (exportNames baseFilename format i pic).
Proof.
  unfold exportNames. apply NoDup_fmap_2_strong; [| apply NoDup_seq].
  intros mip mip' Hm Hm' Heq.
  apply elem_of_seq in Hm, Hm'.
  apply (exportName_level i pic); [lia | lia | done].
Qed.

Lemma elem_of_exportAllNames_from (k : nat) (pictures : list Picture)
    (name : string) :
  (name ∈ concat (imap (fun j => exportNames baseFilename format (k + j))
                    pictures)) ->
  exists j pic mip,
    name = exportName baseFilename format (k + j) pic mip.
Proof.
  revert k. induction pictures as [|pic pictures IH]; intros k Hin.
  - by apply elem_of_nil in Hin.
  - rewrite imap_cons in Hin. cbn [concat] in Hin.
    apply elem_of_app in Hin as [Hin | Hin].
    + unfold exportNames in Hin.
      apply list_elem_of_fmap in Hin as (mip & -> & _). by exists 0%nat, pic, mip.
    + rewrite (imap_ext _ (fun j => exportNames baseFilename format (S k + j)))
        in Hin by (intros j x _; simpl; f_equal; lia).
      destruct (IH (S k) Hin) as (j & pic' & mip & ->).
      exists (S j), pic', mip. f_equal. lia.
Qed.

Lemma NoDup_exportAllNames_from (pictures : list Picture) :
  forall k,
  NoDup (concat (imap (fun j => exportNames baseFilename format (k + j))
                   pictures)).
Proof.
  induction pictures as [|pic pictures IH]; intros k; [constructor |].
  rewrite imap_cons. cbn [concat]. apply NoDup_app.
  rewrite (imap_ext _ (fun j => exportNames baseFilename format (S k + j)))
    by (intros j x _; simpl; f_equal; lia).
  split; [apply NoDup_exportNames |]. split; [| apply IH].
  intros name Hhere Hlater.
  unfold exportNames in Hhere.
  apply list_elem_of_fmap in Hhere as (mip & -> & _).
  apply elem_of_exportAllNames_from in Hlater as (j & pic' & mip' & Heq).
  apply exportName_index in Heq. lia.
Qed.

Lemma NoDup_exportAllNames (pictures : list Picture) :
  NoDup (exportAllNames baseFilename format pictures).
Proof. apply (NoDup_exportAllNames_from pictures 0). Qed.

End ExportNames.

(** X28. No two exports of one [exportAll] run go to the same file: the
    names it builds from the picture index and the mip level are pairwise
    different, so no export overwrites another one of the same run. *)
Theorem exportAll_names_distinct
    (stbi_write_png : ImageConverter.png_call -> Z)
    (fs : string -> option ofstream.filebuf) (baseFilename format : string)
    (parser : TIM2Parser) (success : bool)
    (exports : list (string * ImageConverter.exported)) :
  Forall (fun pic => 0 <= mipMapTextures (header pic)) (getPictures parser) ->
  ImageConverter.exportAll stbi_write_png fs parser baseFilename format
  = Ok (success, exports) ->
  NoDup (map fst exports).
Proof.
  intros Hlevels Hrun.
  apply exportAll_spec in Hrun as [-> _]; [| done].
  apply NoDup_exportAllNames.
Qed.

Lemma exportAll_names_distinct_witness :
  exists success exports,
    ImageConverter.exportAll (fun _ => 0) fs_roomy
      (parserOf [pic_two_levels; pic_two_levels]) "t" "png"
    = Ok (success, exports)
    /\ NoDup (map fst exports)
    /\ length exports = 4%nat.
Proof.
  destruct (ImageConverter.exportAll (fun _ => 0) fs_roomy
              (parserOf [pic_two_levels; pic_two_levels]) "t" "png")
    as [[success exports]|] eqn:Hrun; [| by vm_compute in Hrun].
  pose proof (exportAll_names_distinct (fun _ => 0) fs_roomy "t" "png"
                (parserOf [pic_two_levels; pic_two_levels]) success exports
                ltac:(repeat constructor; by vm_compute) Hrun) as Hdistinct.
  exists success, exports. split; [done |]. split; [done |].
  vm_compute in Hrun. by injection Hrun as _ <-.
Defined.

(** * The command line *)

Section ParseArguments.

Variable stoi : string -> option Z.

Lemma positional_keeps (opts : main.Options) (arg : string) (i : Z) :
  main.command (main.positional opts arg i) = main.command opts
  /\ main.inputPath (main.positional opts arg i) = main.inputPath opts
  /\ (i <> 3 ->
      main.format (main.positional opts arg i) = main.format opts).
Proof.
  unfold main.positional.
  destruct (Z.eqb_spec i 3) as [-> | Hne].
  - by destruct (_ || _).
  - by rewrite andb_false_r.
Qed.

(** The loop keeps the command and the input path, and from index 4 on the
    format. *)
Lemma parseArguments_loop_keeps (n : nat) :
  forall (rest : list string) (i : Z) (opts opts' : main.Options),
  (length rest <= n)%nat ->
  main.parseArguments_loop stoi rest i opts = Some opts' ->
  main.command opts' = main.command opts
  /\ main.inputPath opts' = main.inputPath opts
  /\ (3 < i -> main.format opts' = main.format opts).
Proof.
  induction n as [|n IH]; intros rest i opts opts' Hlen Hrun.
  - destruct rest; [| simpl in Hlen; lia]. by injection Hrun as <-.
  - destruct rest as [|arg rest']; [by injection Hrun as <- |].
    simpl in Hlen. cbn [main.parseArguments_loop] in Hrun.
    assert (Hpos : forall opts1,
              main.parseArguments_loop stoi rest' (i + 1)
                (main.positional opts1 arg i) = Some opts' ->
              main.command opts' = main.command opts1
              /\ main.inputPath opts' = main.inputPath opts1
              /\ (3 < i -> main.format opts' = main.format opts1)).
    { intros opts1 H. apply IH in H as (Hc & Hi & Hf); [| lia].
      destruct (positional_keeps opts1 arg i) as (Hc1 & Hi1 & Hf1).
      split; [congruence |]. split; [congruence |].
      intros Hlate. rewrite Hf by lia. apply Hf1. lia. }
    destruct (_ || _).
    { apply IH in Hrun as (Hc & Hi & Hf); [| lia].
      split; [done |]. split; [done |]. intros ?. apply Hf. lia. }
    destruct (_ || _).
    { apply IH in Hrun as (Hc & Hi & Hf); [| lia].
      split; [done |]. split; [done |]. intros ?. apply Hf. lia. }
    destruct rest' as [|value rest'']; [by apply Hpos |].
    simpl in Hlen.
    destruct (_ || _).
    { apply IH in Hrun as (Hc & Hi & Hf); [| lia].
      split; [done |]. split; [done |]. intros ?. apply Hf. lia. }
    destruct (_ || _).
    { destruct (stoi value) as [v|]; [| done]. simpl in Hrun.
      apply IH in Hrun as (Hc & Hi & Hf); [| lia].
      split; [done |]. split; [done |]. intros ?. apply Hf. lia. }
    destruct (_ || _).
    { destruct (stoi value) as [v|]; [| done]. simpl in Hrun.
      apply IH in Hrun as (Hc & Hi & Hf); [| lia].
      split; [done |]. split; [done |]. intros ?. apply Hf. lia. }
    destruct (_ || _).
    { destruct (stoi value) as [v|]; [| done]. simpl in Hrun.
      apply IH in Hrun as (Hc & Hi & Hf); [| lia].
      split; [done |]. split; [done |]. intros ?. apply Hf. lia. }
    by apply Hpos.
Qed.

End ParseArguments.

(** X29. What [parseArguments] does with the first three arguments and the
    format.  With at least a command and an input path on the command
    line, the options keep both, and the format is "bmp" unless the
    command is "export" or "batch" and the argument right after the input
    path is not taken as an option; then that argument is the format.  An
    option that wants a value is only taken as an option when a value
    follows: as the last argument it becomes the format.  A format
    anywhere later on the command line is dropped. *)
Theorem parseArguments_format (stoi : string -> option Z)
    (program command inputPath : string) (rest : list string)
    (opts : main.Options) :
  main.parseArguments stoi (program :: command :: inputPath :: rest)
  = Some opts ->
  main.command opts = command
  /\ main.inputPath opts = inputPath
  /\ main.format opts = formatArgument command rest.
Proof.
  cbn [main.parseArguments]. intros Hrun.
  pose proof (parseArguments_loop_keeps stoi (length rest) rest 3 _ opts
                ltac:(lia) Hrun) as (Hc & Hi & _).
  cbn [main.command main.inputPath] in Hc, Hi.
  split; [done |]. split; [done |].
  destruct rest as [|arg more]; [by injection Hrun as <- |].
  cbn [main.parseArguments_loop] in Hrun.
  unfold formatArgument, isFlag, isValueOption.
  assert (Hkeep : forall rest' i opts1,
            3 < i ->
            main.parseArguments_loop stoi rest' i opts1 = Some opts ->
            main.format opts = main.format opts1).
  { intros rest' i opts1 Hi' H.
    by apply (parseArguments_loop_keeps stoi (length rest') rest' i opts1 opts
                ltac:(lia)) in H as (_ & _ & ->). }
  assert (Hpos : main.parseArguments_loop stoi more (3 + 1)
                   (main.positional
                      (main.mkOptions command inputPath "bmp" "" false
                         false (-1) 0 80) arg 3) = Some opts ->
                 main.format opts
                 = if String.eqb command "export"
                      || String.eqb command "batch"
                   then arg else "bmp").
  { intros H. apply Hkeep in H; [| lia]. rewrite H.
    unfold main.positional. cbn [main.command].
    change (3 =? 3) with true. rewrite andb_true_r.
    by destruct (String.eqb command "export" || String.eqb command "batch"). }
  destruct (String.eqb arg "-v" || String.eqb arg "--verbose").
  { apply Hkeep in Hrun; [| lia]. rewrite Hrun.
    by rewrite andb_false_r. }
  destruct (String.eqb arg "-g" || String.eqb arg "--gs-registers").
  { apply Hkeep in Hrun; [| lia]. rewrite Hrun.
    by rewrite andb_false_r. }
  cbn [orb negb]. rewrite andb_true_r.
  destruct more as [|value more'].
  { rewrite bool_decide_eq_true_2 by done.
    cbn [negb]. rewrite andb_false_r, andb_true_r. by apply Hpos. }
  rewrite bool_decide_eq_false_2 by done. cbn [negb]. rewrite andb_true_r.
  destruct (String.eqb arg "-o" || String.eqb arg "--output").
  { apply Hkeep in Hrun; [| lia]. rewrite Hrun.
    by rewrite andb_false_r. }
  destruct (String.eqb arg "-p" || String.eqb arg "--picture").
  { destruct (stoi value) as [v|]; [| done]. simpl in Hrun.
    apply Hkeep in Hrun; [| lia]. rewrite Hrun.
    by rewrite andb_false_r. }
  destruct (String.eqb arg "-m" || String.eqb arg "--miplevel").
  { destruct (stoi value) as [v|]; [| done]. simpl in Hrun.
    apply Hkeep in Hrun; [| lia]. rewrite Hrun.
    by rewrite andb_false_r. }
  destruct (String.eqb arg "-w" || String.eqb arg "--width").
  { destruct (stoi value) as [v|]; [| done]. simpl in Hrun.
    apply Hkeep in Hrun; [| lia]. rewrite Hrun.
    by rewrite andb_false_r. }
  cbn [orb negb]. rewrite andb_true_r. by apply Hpos.
Qed.

Lemma parseArguments_format_witness :
  exists opts,
    main.parseArguments stoi_digit
      ["tim2dump"; "export"; "a.tm2"; "-p"] = Some opts
    /\ main.format opts = "-p"
    /\ main.pictureIndex opts = -1.
Proof.
  destruct (main.parseArguments stoi_digit
              ["tim2dump"; "export"; "a.tm2"; "-p"]) as [opts|] eqn:Hrun;
    [| by vm_compute in Hrun].
  destruct (parseArguments_format _ _ _ _ _ _ Hrun) as (_ & _ & Hformat).
  exists opts. split; [done |]. split; [by rewrite Hformat |].
  vm_compute in Hrun. by injection Hrun as <-.
Defined.

(** * Alignment of the blobs *)

(** ** The get position never goes below zero *)

Lemma read_pos (n : Z) (s : ifstream) :
  0 <= n -> 0 <= ifstream.pos s -> 0 <= ifstream.pos (ifstream.read n s).2.
Proof.
  intros Hn Hp. unfold ifstream.read.
  destruct (ifstream.good s); [| done].
  destruct (n <=? _); simpl; lia.
Qed.

Lemma readInto_pos (old : list byte) (s : ifstream) :
  0 <= ifstream.pos s -> 0 <= ifstream.pos (readInto old s).2.
Proof.
  intros Hp. unfold readInto.
  pose proof (read_pos (Z.of_nat (length old)) s ltac:(lia) Hp).
  by destruct (ifstream.read _ s).
Qed.

Lemma readUInt_pos (n : nat) (old : Z) (s : ifstream) :
  0 <= ifstream.pos s -> 0 <= ifstream.pos (readUInt n old s).2.
Proof.
  intros Hp. unfold readUInt.
  pose proof (readInto_pos (le_bytes n old) s Hp).
  by destruct (readInto _ s).
Qed.

Lemma seek_to_pos (target : Z) (s : ifstream) :
  0 <= ifstream.pos s -> 0 <= ifstream.pos (ifstream.seek_to target s).
Proof.
  intros Hp. unfold ifstream.seek_to.
  destruct (ifstream.failbit s); [done |].
  destruct (Z.ltb_spec target 0); simpl; lia.
Qed.

Lemma jumpAligned_pos (s : ifstream) (alignment : Z) :
  0 <= ifstream.pos s -> 0 <= ifstream.pos (jumpAligned s alignment).
Proof.
  intros Hp. unfold jumpAligned, ifstream.tellg.
  destruct (ifstream.good s); destruct (_ <? _); try done;
    by apply seek_to_pos.
Qed.

Lemma parseMipMapHeader_loop_pos (n : nat) :
  forall (i : nat) (sizes : list Z) (s : ifstream),
  0 <= ifstream.pos s ->
  0 <= ifstream.pos (parseMipMapHeader_loop n i sizes s).2.
Proof.
  induction n as [|n IH]; intros i sizes s Hp; [done |].
  simpl. pose proof (readUInt_pos 4 (sizes !!! i) s Hp).
  destruct (readUInt 4 _ s) as [v t]. by apply IH.
Qed.

Lemma parseMipMapHeader_pos (s : ifstream) (pic : Picture) :
  0 <= ifstream.pos s -> 0 <= ifstream.pos (parseMipMapHeader s pic).2.
Proof.
  intros Hp. unfold parseMipMapHeader.
  pose proof (readUInt_pos 8 0 s Hp) as H1.
  destruct (readUInt 8 0 s) as [tbp1 s1].
  pose proof (readUInt_pos 8 0 s1 H1) as H2.
  destruct (readUInt 8 0 s1) as [tbp2 s2].
  pose proof (parseMipMapHeader_loop_pos
                (Z.to_nat (mipMapTextures (header pic))) 0
                (replicate (Z.to_nat (mipMapTextures (header pic))) 0) s2 H2)
    as H3.
  destruct (parseMipMapHeader_loop _ _ _ s2) as [szs s3].
  simpl. destruct (_ <? _); [| done]. by apply seek_to_pos.
Qed.

Lemma parseUserSpace_pos (s : ifstream) (pic : Picture) :
  0 <= ifstream.pos s -> 0 <= ifstream.pos (parseUserSpace s pic).2.
Proof.
  intros Hp. unfold parseUserSpace.
  destruct (_ =? 0); [done |].
  pose proof (readInto_pos
                (replicate
                   (Z.to_nat
                      (to_size_t (headerSize (header pic)
                                  - headerDataSize pic))) zero_byte) s Hp).
  by destruct (readInto _ s).
Qed.

Lemma parseImageData_pos (s : ifstream) (pic : Picture) :
  0 <= ifstream.pos s -> 0 <= ifstream.pos (parseImageData s pic).2.
Proof.
  intros Hp. unfold parseImageData.
  pose proof (readInto_pos
                (replicate (Z.to_nat (imageSize (header pic))) zero_byte)
                s Hp).
  by destruct (readInto _ s).
Qed.

Lemma parseClutData_pos (s : ifstream) (pic : Picture) :
  0 <= ifstream.pos s -> 0 <= ifstream.pos (parseClutData s pic).2.
Proof.
  intros Hp. unfold parseClutData.
  pose proof (readInto_pos
                (replicate (Z.to_nat (clutSize (header pic))) zero_byte)
                s Hp).
  by destruct (readInto _ s).
Qed.

(** ** A read after the jump to the next aligned position *)

Lemma alignOffset_multiple (offset alignment : Z) :
  0 < alignment -> alignOffset offset alignment mod alignment = 0.
Proof.
  intros Ha. unfold alignOffset, to_size_t.
  set (x := (offset + alignment - 1) mod 2 ^ 64).
  assert (Hx : 0 <= x < 2 ^ 64) by (apply Z.mod_pos_bound; lia).
  assert (0 <= x / alignment * alignment <= x).
  { split; [apply Z.mul_nonneg_nonneg; [apply Z.div_pos |]; lia |].
    rewrite Z.mul_comm. apply Z.mul_div_le. lia. }
  rewrite (Z.mod_small (x / alignment * alignment)) by lia.
  by apply Z.mod_mul; lia.
Qed.

Lemma alignOffset_fixed (offset alignment : Z) :
  0 < alignment -> 0 <= offset -> offset + alignment - 1 < 2 ^ 64 ->
  alignOffset offset alignment <= offset ->
  offset mod alignment = 0.
Proof.
  intros Ha Ho Hfit Hle. unfold alignOffset, to_size_t in Hle.
  rewrite (Z.mod_small (offset + alignment - 1)) in Hle by lia.
  assert (0 <= (offset + alignment - 1) / alignment * alignment
          <= offset + alignment - 1).
  { split; [apply Z.mul_nonneg_nonneg; [apply Z.div_pos |]; lia |].
    rewrite Z.mul_comm. apply Z.mul_div_le. lia. }
  rewrite Z.mod_small in Hle by lia.
  pose proof (Z.div_mod (offset + alignment - 1) alignment ltac:(lia)) as Hdm.
  pose proof (Z.mod_pos_bound (offset + alignment - 1) alignment ltac:(lia)).
  set (q := (offset + alignment - 1) / alignment) in *.
  assert (Heq : offset = q * alignment) by lia.
  rewrite Heq. apply Z.mod_mul. lia.
Qed.

Lemma readInto_good (old data : list byte) (t s' : ifstream) :
  readInto old t = (data, s') ->
  ifstream.good s' = true ->
  (0 < length old)%nat ->
  0 <= ifstream.pos t ->
  ifstream.good t = true
  /\ ifstream.pos t + Z.of_nat (length old)
     <= Z.of_nat (length (ifstream.content t))
  /\ data = take (length old)
              (drop (Z.to_nat (ifstream.pos t)) (ifstream.content t)).
Proof.
  unfold readInto, ifstream.read, ifstream.remaining.
  intros Hread Hgood Hn Hp.
  destruct (ifstream.good t); [| by injection Hread as <- <-].
  destruct (Z.leb_spec (Z.of_nat (length old))
              (Z.of_nat (length (drop (Z.to_nat (ifstream.pos t))
                                   (ifstream.content t))))) as [Hle | Hgt];
    [| by injection Hread as <- <-].
  injection Hread as <- <-. rewrite length_drop in Hle.
  split; [done |]. split; [lia |].
  rewrite Nat2Z.id, length_take, length_drop.
  rewrite (drop_ge old) by lia. by rewrite app_nil_r.
Qed.

Lemma jumpAligned_aligned (s : ifstream) (alignment : Z) :
  0 < alignment <= 128 ->
  0 <= ifstream.pos s ->
  ifstream.good (jumpAligned s alignment) = true ->
  ifstream.pos (jumpAligned s alignment) < 2 ^ 63 ->
  ifstream.pos (jumpAligned s alignment) mod alignment = 0.
Proof.
  unfold jumpAligned, ifstream.tellg. intros Ha Hp.
  destruct (ifstream.good s) eqn:Hg.
  - destruct (Z.ltb_spec (to_size_t (ifstream.pos s))
                (alignOffset (to_size_t (ifstream.pos s)) alignment))
      as [Hlt | Hge].
    + unfold ifstream.seekg, ifstream.seek_to.
      pose proof (good_not_fail s Hg) as Hf. unfold ifstream.fail in Hf.
      rewrite Hf.
      pose proof (alignOffset_nonneg (to_size_t (ifstream.pos s)) alignment).
      destruct (Z.ltb_spec (alignOffset (to_size_t (ifstream.pos s))
                              alignment) 0); [lia |].
      intros _ _. simpl. apply alignOffset_multiple. lia.
    + intros _ Hsmall. unfold to_size_t in Hge.
      rewrite Z.mod_small in Hge by lia.
      apply alignOffset_fixed in Hge; [done | lia..].
  - destruct (_ <? _); unfold ifstream.seekg, ifstream.seek_to,
      ifstream.good; cbn [ifstream.failbit ifstream.eofbit negb andb];
      done.
Qed.

Lemma readInto_after_jump (s s' : ifstream) (alignment : Z) (n : nat)
    (data : list byte) :
  0 < alignment <= 128 ->
  0 <= ifstream.pos s ->
  Z.of_nat (length (ifstream.content s)) < 2 ^ 63 ->
  (0 < n)%nat ->
  readInto (replicate n zero_byte) (jumpAligned s alignment) = (data, s') ->
  ifstream.good s' = true ->
  exists off,
    0 <= off /\ off mod alignment = 0
    /\ off + Z.of_nat n <= Z.of_nat (length (ifstream.content s))
    /\ data = take n (drop (Z.to_nat off) (ifstream.content s)).
Proof.
  intros Ha Hp Hsize Hn Hread Hgood.
  pose proof (jumpAligned_pos s alignment Hp) as Hp'.
  destruct (jumpAligned_spec s alignment) as [Hcontent _].
  apply readInto_good in Hread as (Hgt & Hroom & Hdata);
    [| done | by rewrite length_replicate | done].
  rewrite length_replicate, Hcontent in Hroom, Hdata.
  exists (ifstream.pos (jumpAligned s alignment)).
  split; [done |]. split; [| done].
  apply jumpAligned_aligned; [done | done | done | lia].
Qed.

(** ** The two blobs of a picture *)

Lemma parseUserSpace_content (s s' : ifstream) (pic pic' : Picture)
    (ok : bool) :
  parseUserSpace s pic = (ok, pic', s') ->
  ifstream.content s' = ifstream.content s /\ header pic' = header pic.
Proof.
  unfold parseUserSpace. destruct (_ =? 0); [by intros [= _ <- <-] |].
  destruct (readInto _ s) as [data s1] eqn:Hr.
  apply readInto_spec in Hr as (Hc & _).
  intros [= _ <- <-]. split; [done |].
  destruct (16 <=? _); [| done]. by destruct (ext_isValid _).
Qed.

Lemma parseImageData_aligned (s s' : ifstream) (pic pic' : Picture)
    (alignment : Z) :
  0 < alignment <= 128 ->
  0 <= ifstream.pos s ->
  Z.of_nat (length (ifstream.content s)) < 2 ^ 63 ->
  parseImageData (jumpAligned s alignment) pic = (true, pic', s') ->
  alignedSegment alignment (ifstream.content s) (imageData pic')
    (imageSize (header pic)).
Proof.
  intros Ha Hp Hsize Hrun Hpos. unfold parseImageData in Hrun.
  assert (Hn : (0 < Z.to_nat (imageSize (header pic)))%nat) by lia.
  destruct (readInto _ _) as [data s1] eqn:Hr.
  injection Hrun as Hg <- <-.
  destruct (readInto_after_jump _ _ _ _ _ Ha Hp Hsize Hn Hr Hg)
    as (off & H0 & Hmod & Hroom & Hdata).
  exists off. rewrite Z2Nat.id in Hroom by lia. by conj_split.
Qed.

Lemma parseClutData_aligned (s s' : ifstream) (pic pic' : Picture)
    (alignment : Z) :
  0 < alignment <= 128 ->
  0 <= ifstream.pos s ->
  Z.of_nat (length (ifstream.content s)) < 2 ^ 63 ->
  parseClutData (jumpAligned s alignment) pic = (true, pic', s') ->
  alignedSegment alignment (ifstream.content s) (clutData pic')
    (clutSize (header pic)).
Proof.
  intros Ha Hp Hsize Hrun Hpos. unfold parseClutData in Hrun.
  assert (Hn : (0 < Z.to_nat (clutSize (header pic)))%nat) by lia.
  destruct (readInto _ _) as [data s1] eqn:Hr.
  injection Hrun as Hg <- <-.
  destruct (readInto_after_jump _ _ _ _ _ Ha Hp Hsize Hn Hr Hg)
    as (off & H0 & Hmod & Hroom & Hdata).
  exists off. rewrite Z2Nat.id in Hroom by lia. by conj_split.
Qed.

Lemma parsePicture_blobs (this this' : TIM2Parser) (s s' : ifstream)
    (pic : Picture) (alignment : Z) :
  0 < alignment <= 128 ->
  0 <= ifstream.pos s ->
  Z.of_nat (length (ifstream.content s)) < 2 ^ 63 ->
  parsePicture this s Picture_fresh alignment = (true, this', pic, s') ->
  blobsAligned alignment (ifstream.content s) pic /\ 0 <= ifstream.pos s'.
Proof.
  intros Ha Hp Hsize Hrun.
  apply parsePicture_true in Hrun
    as (raw & s1 & pic1 & s2 & pic2 & s3 & pic3 & s4
        & Hr & _ & H1 & H2 & H3 & H4 & _).
  pose proof (readInto_pos (replicate 48 zero_byte) s Hp) as Hp1.
  rewrite Hr in Hp1. cbn [snd] in Hp1.
  apply readInto_spec in Hr as (Hc1 & _).
  cbv zeta in H1.
  cbn [header mipMapHeader userData imageData clutData extHeader comment
       Picture_fresh] in H1.
  (* mipmap header *)
  assert (S1 : 0 <= ifstream.pos s2
               /\ ifstream.content s2 = ifstream.content s).
  { destruct (1 <? _).
    - match type of H1 with parseMipMapHeader _ ?p = _ =>
        pose proof (parseMipMapHeader_pos s1 p Hp1) as Hq end.
      rewrite H1 in Hq.
      apply parseMipMapHeader_spec in H1 as (_ & Hc & _).
      split; [done | congruence].
    - by injection H1 as _ <-. }
  destruct S1 as [Hp2 Hc2].
  (* user space *)
  assert (S2 : 0 <= ifstream.pos s3
               /\ ifstream.content s3 = ifstream.content s).
  { destruct (headerDataSize pic1 <? _).
    - pose proof (parseUserSpace_pos s2 pic1 Hp2) as Hq. rewrite H2 in Hq.
      apply parseUserSpace_content in H2 as [Hc _].
      split; [done | congruence].
    - by injection H2 as _ <-. }
  destruct S2 as [Hp3 Hc3].
  (* image data *)
  pose proof (jumpAligned_pos s3 alignment Hp3) as Hj3.
  destruct (jumpAligned_spec s3 alignment) as [Hjc3 _].
  assert (S3 : alignedSegment alignment (ifstream.content s) (imageData pic3)
                 (imageSize (header pic3))
               /\ 0 <= ifstream.pos s4
               /\ ifstream.content s4 = ifstream.content s).
  { destruct (Z.ltb_spec 0 (imageSize (header pic2))) as [Hi | Hi].
    - pose proof (parseImageData_pos _ pic2 Hj3) as Hq. rewrite H3 in Hq.
      pose proof (parseImageData_aligned _ _ _ _ _ Ha Hp3
                    ltac:(by rewrite Hc3) H3) as Hseg.
      apply parseImageData_spec in H3 as (_ & Hc & Hh & _).
      rewrite Hh, <- Hc3. split; [done |]. split; [done | congruence].
    - injection H3 as <- <-. split; [intros ?; lia |].
      split; [done | congruence]. }
  destruct S3 as (Himage & Hp4 & Hc4).
  (* CLUT data *)
  pose proof (jumpAligned_pos s4 alignment Hp4) as Hj4.
  destruct (jumpAligned_spec s4 alignment) as [Hjc4 _].
  destruct (Z.ltb_spec 0 (clutSize (header pic3))) as [Hi | Hi].
  - pose proof (parseClutData_pos _ pic3 Hj4) as Hq. rewrite H4 in Hq.
    pose proof (parseClutData_aligned _ _ _ _ _ Ha Hp4
                  ltac:(by rewrite Hc4) H4) as Hseg.
    apply parseClutData_spec in H4 as (_ & _ & Hh & _ & _ & Him & _).
    split; [| done]. unfold blobsAligned. rewrite Hh, Him, <- Hc4.
    split; [by rewrite Hc4 | done].
  - injection H4 as <- <-. split; [| done].
    split; [done |]. intros ?. lia.
Qed.

Lemma loadFile_loop_blobs (alignment : Z) (n : nat) :
  forall (this this' : TIM2Parser) (s s' : ifstream) (i : nat) (ok : bool),
  0 < alignment <= 128 ->
  0 <= ifstream.pos s ->
  Z.of_nat (length (ifstream.content s)) < 2 ^ 63 ->
  loadFile_loop this s alignment n i = (ok, this', s') ->
  Forall (blobsAligned alignment (ifstream.content s)) (m_pictures this) ->
  Forall (blobsAligned alignment (ifstream.content s)) (m_pictures this').
Proof.
  induction n as [|n IH]; intros this this' s s' i ok Ha Hp Hsize Hrun Hall;
    simpl in Hrun.
  - by injection Hrun as _ <- _.
  - destruct (parsePicture this s Picture_fresh alignment)
      as [[[ok1 this1] pic] s1] eqn:Hpic.
    destruct (parsePicture_this _ _ _ _ _ _ _ _ Hpic) as (_ & Hps & _).
    destruct ok1; simpl in Hrun.
    + destruct (parsePicture_blobs _ _ _ _ _ _ Ha Hp Hsize Hpic)
        as [Hblobs Hp1].
      destruct (parsePicture_fresh_true _ _ _ _ _ _ Hpic) as (_ & Hc1 & _).
      rewrite <- Hc1. apply IH in Hrun; [done | done | done | | ].
      * by rewrite Hc1.
      * cbn [m_pictures]. rewrite Hc1, Hps. apply Forall_app.
        split; [done |]. by constructor.
    + injection Hrun as _ <- _. cbn [set_lastError m_pictures].
      by rewrite Hps.
Qed.

Lemma getAlignment_range (h : FileHeader) : 0 < getAlignment h <= 128.
Proof. unfold getAlignment. destruct (_ =? _); lia. Qed.

(** X30. The image blob and the CLUT blob of every picture of a loaded file
    were read at a file offset that is a multiple of the alignment the file
    header selects: 128 when the format id is [TIM2_ALIGN_128], 16
    otherwise.  Each blob is the run of [imageSize], respectively
    [clutSize], bytes at such an offset. *)
Theorem loaded_blobs_aligned (this this' : TIM2Parser) (filename : string)
    (bytes : list byte) (ok : bool) (pic : Picture) :
  loadFile this filename (Some bytes) = (ok, this') ->
  Z.of_nat (length bytes) < 2 ^ 63 ->
  pic ∈ getPictures this' ->
  blobsAligned (getAlignment (m_fileHeader this')) bytes pic.
Proof.
  unfold loadFile, getPictures, loadFile_stream.
  destruct (parseFileHeader (loadFile_reset this) (ifstream.open bytes))
    as [[ok0 this0] s0] eqn:H0.
  assert (Hp0 : 0 <= ifstream.pos s0).
  { unfold parseFileHeader in H0.
    pose proof (readInto_pos
                  (FileHeader_bytes (m_fileHeader (loadFile_reset this)))
                  (ifstream.open bytes) ltac:(done)) as Hq.
    destruct (readInto _ _) as [raw t]. cbn [snd] in Hq.
    destruct (ifstream.fail t); [by injection H0 as _ _ <- |].
    destruct (negb _); by injection H0 as _ _ <-. }
  apply parseFileHeader_spec in H0 as (_ & Hpics0 & _ & _ & Hok0).
  cbn [loadFile_reset m_pictures] in Hpics0.
  destruct ok0; cbn [negb].
  - destruct (Hok0 eq_refl) as (Hg0 & Hc0 & _).
    cbn [ifstream.open ifstream.content] in Hc0.
    set (alignment := getAlignment (m_fileHeader this0)).
    pose proof (getAlignment_range (m_fileHeader this0)) as Ha.
    destruct (jumpAligned_spec s0 alignment) as [Hjc Hjg].
    pose proof (jumpAligned_pos s0 alignment Hp0) as Hjp.
    rewrite skipAlignment_jumpAligned.
    destruct (loadFile_loop this0 _ _ _ 0) as [[ok1 this1] s1] eqn:H1.
    intros Hrun Hsize Hin.
    pose proof (loadFile_loop_spec _ _ _ _ _ _ _ _ (Hjg Hg0) H1)
      as (_ & Hfh & _).
    apply loadFile_loop_blobs in H1; [| done | done | | ].
    + rewrite Hjc, Hc0 in H1. rewrite Forall_forall in H1.
      destruct ok1; injection Hrun as _ <-; cbn [m_fileHeader m_pictures] in *;
        rewrite Hfh; by apply H1.
    + by rewrite Hjc, Hc0.
    + rewrite Hpics0. constructor.
  - intros [= _ <-] _ Hin. rewrite Hpics0 in Hin.
    by apply elem_of_nil in Hin.
Qed.

Lemma loaded_blobs_aligned_witness :
  exists this' pic,
    loadFile TIM2Parser_fresh "a.tm2" (Some file_two_levels) = (true, this')
    /\ getPictures this' = [pic]
    /\ getAlignment (m_fileHeader this') = 16
    /\ blobsAligned 16 file_two_levels pic.
Proof.
  destruct (loadFile TIM2Parser_fresh "a.tm2" (Some file_two_levels))
    as [ok this'] eqn:Hrun.
  pose proof (fun pic =>
                loaded_blobs_aligned TIM2Parser_fresh this' "a.tm2"
                  file_two_levels ok pic Hrun ltac:(vm_compute; reflexivity))
    as Hblobs.
  vm_compute in Hrun. injection Hrun as <- <-.
  eexists _, _. split; [reflexivity |]. split; [reflexivity |].
  split; [reflexivity |]. apply Hblobs. apply list_elem_of_singleton.
  reflexivity.
Defined.
